(** * TheanoLM vocabulary: a shallow embedding of [theanolm/vocabulary/vocabulary.py]

    The development follows the Python module function by function.

    - Python exceptions are values of [exn]; a call that may raise returns a
      [result].
    - Word IDs and class IDs are natural numbers (the docstrings call them
      indices into [id_to_word] and [word_classes]); Python's negative
      indexing is outside the model.
    - A [float] is idealised as an exact rational ([Qc]): rounding and the
      sign of zero are not modelled.  The results of numpy's array division,
      which yields [inf] and [nan] instead of raising, are values of
      [npfloat].
    - The [int64] count arrays of [compute_probs] are lists of [Z] whose sums
      wrap around modulo [2^64].
    - A [str] is a [string] that holds the bytes of its UTF-8 encoding;
      whitespace is what [str.isspace] accepts, the Unicode characters
      included. *)

From Stdlib Require Import Ascii String QArith Qcanon Qreals Reals Lra.
From stdpp Require Import base numbers list strings gmap pretty sorting.

Local Open Scope string_scope.
Local Open Scope list_scope.
Local Open Scope nat_scope.

(** ** Exceptions and results *)

Inductive exn :=
  | ValueError
  | TypeError
  | AttributeError
  | IndexError
  | KeyError
  | AssertionError
  | ZeroDivisionError
  | OverflowError
  | InputError (msg : string)
  | IncompatibleStateError (msg : string)
  | StopIteration
  | DuplicateMemberError
  | UnknownMemberError.

Inductive result (A : Type) :=
  | Ok (a : A)
  | Raise (e : exn).
Arguments Ok {A} a.
Arguments Raise {A} e.

Global Instance result_ret : MRet result := λ A a, Ok a.
Global Instance result_bind : MBind result := λ A B k r,
  match r with
  | Ok a => k a
  | Raise e => Raise e
  end.

Definition is_ok {A} (r : result A) : Prop := ∃ a, r = Ok a.

(** [assert cond] *)
Definition py_assert (b : bool) : result unit :=
  if b then Ok tt else Raise AssertionError.

(** [l[i]] for a Python list and a non-negative index. *)
Definition py_index {A} (l : list A) (i : nat) : result A :=
  match l !! i with
  | Some x => Ok x
  | None => Raise IndexError
  end.

(** A loop body run over a list, stopping at the first exception. *)
Fixpoint foldlM {A S} (f : S → A → result S) (s : S) (l : list A) : result S :=
  match l with
  | [] => Ok s
  | x :: l' => s' ← f s x ; foldlM f s' l'
  end.

Fixpoint mapM {A B} (f : A → result B) (l : list A) : result (list B) :=
  match l with
  | [] => Ok []
  | x :: l' => y ← f x ; ys ← mapM f l' ; Ok (y :: ys)
  end.

(** ** Numbers *)

Definition Qc_of_nat (n : nat) : Qc := Qc_of_Z (Z.of_nat n).

Definition sum_Qc (l : list Qc) : Qc := foldr Qcplus 0%Qc l.

(** ** WordClass *)

Module WordClass.

(** Modelled from the spec: [theanolm/vocabulary/wordclass.py] is not among
    the sources.  The spec (section 4.1) describes a class ID together with
    a mapping from word ID to membership probability that is iterated in
    insertion order; it is created with one seed word, grows by [add], and
    is renormalised by [normalize_probs]. *)
Record t := mk { id : nat; probs : list (nat * Qc) }.

(** Modelled from the spec: "created with one seed word at probability p". *)
Definition init (class_id word_id : nat) (prob : Qc) : t :=
  {| id := class_id; probs := [(word_id, prob)] |}.

Definition mem (word_id : nat) (wc : t) : bool :=
  bool_decide (word_id ∈ (probs wc).*1).

(** Modelled from the spec: "inserts a new member with given initial
    probability.  Fails with DuplicateMemberError if word_id already
    present." *)
Definition add (wc : t) (word_id : nat) (prob : Qc) : result t :=
  if mem word_id wc then Raise DuplicateMemberError
  else Ok {| id := id wc; probs := probs wc ++ [(word_id, prob)] |}.

Fixpoint assoc_set (l : list (nat * Qc)) (word_id : nat) (prob : Qc)
    : list (nat * Qc) :=
  match l with
  | [] => []
  | (w, p) :: l' =>
      if decide (w = word_id) then (w, prob) :: l'
      else (w, p) :: assoc_set l' word_id prob
  end.

(** Modelled from the spec: "overwrites an existing member's probability.
    Fails with UnknownMemberError if absent." *)
Definition set_prob (wc : t) (word_id : nat) (prob : Qc) : result t :=
  if mem word_id wc
  then Ok {| id := id wc; probs := assoc_set (probs wc) word_id prob |}
  else Raise UnknownMemberError.

Fixpoint assoc_get (l : list (nat * Qc)) (word_id : nat) : option Qc :=
  match l with
  | [] => None
  | (w, p) :: l' => if decide (w = word_id) then Some p else assoc_get l' word_id
  end.

(** Modelled from the spec: "returns stored probability; fails with
    UnknownMemberError if absent." *)
Definition get_prob (wc : t) (word_id : nat) : result Qc :=
  match assoc_get (probs wc) word_id with
  | Some p => Ok p
  | None => Raise UnknownMemberError
  end.

(** Modelled from the spec: "len: returns member count". *)
Definition len (wc : t) : nat := length (probs wc).

(** Modelled from the spec: "Iteration: produces the lazy sequence of
    (word_id, prob) pairs in insertion order". *)
Definition iter (wc : t) : list (nat * Qc) := probs wc.

Definition total (wc : t) : Qc := sum_Qc (probs wc).*2.

(** Modelled from the spec: "divides every member's probability by the class
    total so they sum to 1; if total is zero, assign each member 1/size". *)
Definition normalize_probs (wc : t) : t :=
  let s := total wc in
  if decide (s = 0%Qc)
  then {| id := id wc;
          probs := (λ wp, (wp.1, (1 / Qc_of_nat (len wc))%Qc)) <$> probs wc |}
  else {| id := id wc;
          probs := (λ wp, (wp.1, (wp.2 / s)%Qc)) <$> probs wc |}.

End WordClass.

(** ** numpy floats

    [counts / counts.sum()] and [oos_probs[n:] /= total] are numpy array
    divisions: a zero divisor gives [inf] or [nan] (and a warning), not an
    exception. *)

Inductive npfloat :=
  | Finite (q : Qc)
  | PInf
  | NInf
  | NaN.

Definition np_add (x y : npfloat) : npfloat :=
  match x, y with
  | NaN, _ | _, NaN => NaN
  | PInf, NInf | NInf, PInf => NaN
  | PInf, _ | _, PInf => PInf
  | NInf, _ | _, NInf => NInf
  | Finite a, Finite b => Finite (a + b)
  end.

Definition np_sign_inf (q : Qc) (pos neg : npfloat) : npfloat :=
  if decide (q = 0%Qc) then NaN
  else if decide (0 < q)%Qc then pos else neg.

Definition np_div (x y : npfloat) : npfloat :=
  match x, y with
  | NaN, _ | _, NaN => NaN
  | Finite a, Finite b =>
      if decide (b = 0%Qc) then np_sign_inf a PInf NInf else Finite (a / b)
  | Finite _, (PInf | NInf) => Finite 0
  | (PInf | NInf), (PInf | NInf) => NaN
  | PInf, Finite b => if decide (b < 0)%Qc then NInf else PInf
  | NInf, Finite b => if decide (b < 0)%Qc then PInf else NInf
  end.

Definition np_sum (l : list npfloat) : npfloat := foldl np_add (Finite 0) l.

(** ** Vocabulary *)

Record Vocabulary := mkVocabulary {
  id_to_word : list string;
  word_id_to_class_id : list nat;
  _word_classes : list WordClass.t;
  word_to_id : gmap string nat;
  num_normal_classes : nat;
  _unigram_probs : option (list npfloat);
}.

(** The three lists the constructor works on; [word_classes] may hold [None]
    entries, as the list that [from_state] builds does. *)
Definition lists : Type :=
  list string * list nat * list (option WordClass.t).

(** One of the three blocks at lines 54-79 of the source. *)
Definition add_special (token : string) (st : lists) : result lists :=
  let '(id_to_word, word_id_to_class_id, word_classes) := st in
  if bool_decide (token ∈ id_to_word) then Ok st
  else
    let word_id := length id_to_word in
    _ ← py_assert (bool_decide (word_id = length word_id_to_class_id));
    let class_id := length word_classes in
    Ok (id_to_word ++ [token],
        word_id_to_class_id ++ [class_id],
        word_classes ++ [Some (WordClass.init class_id word_id 1%Qc)]).

Definition add_oos_words (id_to_word oos_words : list string) : list string :=
  foldl (λ itw word, if bool_decide (word ∈ itw) then itw else itw ++ [word])
        id_to_word oos_words.

(** The [while index >= 0] loop of the constructor; the argument [n] is
    [index + 1] and the result is [index + 1] when the loop is left. *)
Fixpoint scan_special (id_to_word : list string)
    (word_classes : list (option WordClass.t)) (n : nat) : result nat :=
  match n with
  | 0 => Ok 0
  | S index =>
      slot ← py_index word_classes index;
      match slot with
      | None => Raise TypeError
      | Some word_class =>
          if bool_decide (WordClass.len word_class = 1) then
            match head (WordClass.iter word_class) with
            | None => Raise StopIteration
            | Some (word_id, _) =>
                word ← py_index id_to_word word_id;
                if String.prefix "<" word
                then scan_special id_to_word word_classes index
                else Ok (S index)
            end
          else Ok (S index)
      end
  end.

Definition normalize_slot (slot : option WordClass.t) : result WordClass.t :=
  match slot with
  | Some word_class => Ok (WordClass.normalize_probs word_class)
  | None => Raise AttributeError
  end.

(** [{word: word_id for word_id, word in enumerate(id_to_word)}]: a later
    occurrence of a word overwrites an earlier one. *)
Definition make_word_to_id (id_to_word : list string) : gmap string nat :=
  foldl (λ m iw, <[iw.2 := iw.1]> m) ∅ (imap pair id_to_word).

(** [Vocabulary.__init__] *)
Definition Vocabulary_init (id_to_word : list string)
    (word_id_to_class_id : list nat)
    (word_classes : list (option WordClass.t))
    (oos_words : option (list string)) : result Vocabulary :=
  if bool_decide (length id_to_word ≠ length word_id_to_class_id)
  then Raise ValueError
  else
    st ← add_special "<s>" (id_to_word, word_id_to_class_id, word_classes);
    st ← add_special "</s>" st;
    st ← add_special "<unk>" st;
    let '(id_to_word, word_id_to_class_id, word_classes) := st in
    let id_to_word :=
      match oos_words with
      | Some ws => add_oos_words id_to_word ws
      | None => id_to_word
      end in
    n ← scan_special id_to_word word_classes (length word_classes);
    classes ← mapM normalize_slot word_classes;
    Ok {| id_to_word := id_to_word;
          word_id_to_class_id := word_id_to_class_id;
          _word_classes := classes;
          word_to_id := make_word_to_id id_to_word;
          num_normal_classes := n;
          _unigram_probs := None |}.

(** [self._unigram_probs = unigram_probs] *)
Definition set_unigram_probs (v : Vocabulary) (unigram_probs : list npfloat)
    : Vocabulary :=
  {| id_to_word := id_to_word v;
     word_id_to_class_id := word_id_to_class_id v;
     _word_classes := _word_classes v;
     word_to_id := word_to_id v;
     num_normal_classes := num_normal_classes v;
     _unigram_probs := Some unigram_probs |}.

(** ** Queries *)

Definition num_words (v : Vocabulary) : nat := length (id_to_word v).

Definition num_shortlist_words (v : Vocabulary) : nat :=
  length (word_id_to_class_id v).

Definition num_classes (v : Vocabulary) : nat := length (_word_classes v).

(** [d[key]] for a Python dict. *)
Definition py_getitem `{Countable K} {A} (d : gmap K A) (key : K) : result A :=
  match d !! key with
  | Some x => Ok x
  | None => Raise KeyError
  end.

Definition words_to_ids (v : Vocabulary) (words : list string)
    : result (list nat) :=
  unk_id ← py_getitem (word_to_id v) "<unk>";
  Ok ((λ word, default unk_id (word_to_id v !! word)) <$> words).

Definition get_word_prob (v : Vocabulary) (word_id : nat) : result Qc :=
  class_id ← py_index (word_id_to_class_id v) word_id;
  word_class ← py_index (_word_classes v) class_id;
  WordClass.get_prob word_class word_id.

Definition in_shortlist (v : Vocabulary) (word_id : nat) : bool :=
  bool_decide (word_id < length (word_id_to_class_id v)).

Definition has_unigram_probs (v : Vocabulary) : bool :=
  bool_decide (_unigram_probs v ≠ None).

(** ** Construction from a vocabulary file *)

(** A line of the file is a [str]: it is held as the bytes of its UTF-8
    encoding, which is what a Rocq string literal gives.  [str.strip] and
    [str.split] work on its characters. *)

(** [s] cut into its characters, each held as the bytes of its encoding: a
    byte below 0xC0 stands alone, a lead byte below 0xE0 takes one more
    byte, one below 0xF0 two more, any other three more. *)
Fixpoint chars (s : string) : list string :=
  match s with
  | EmptyString => []
  | String a s1 =>
      if decide (nat_of_ascii a < 192) then String a "" :: chars s1
      else
        match s1 with
        | EmptyString => [String a ""]
        | String b s2 =>
            if decide (nat_of_ascii a < 224)
            then String a (String b "") :: chars s2
            else
              match s2 with
              | EmptyString => [String a (String b "")]
              | String c s3 =>
                  if decide (nat_of_ascii a < 240)
                  then String a (String b (String c "")) :: chars s3
                  else
                    match s3 with
                    | EmptyString => [String a (String b (String c ""))]
                    | String d s4 =>
                        String a (String b (String c (String d "")))
                        :: chars s4
                    end
              end
        end
  end.

(** The UTF-8 encoding of a code point below 0x10000. *)
Definition utf8 (cp : N) : string :=
  if decide (cp < 128)%N then String (ascii_of_N cp) ""
  else if decide (cp < 2048)%N then
    String (ascii_of_N (192 + cp / 64))
           (String (ascii_of_N (128 + cp `mod` 64)) "")
  else
    String (ascii_of_N (224 + cp / 4096))
           (String (ascii_of_N (128 + (cp / 64) `mod` 64))
                   (String (ascii_of_N (128 + cp `mod` 64)) "")).

(** The code points for which [str.isspace] holds in Python 3: U+0009 to
    U+000D, U+001C to U+0020, U+0085, U+00A0, U+1680, U+2000 to U+200A,
    U+2028, U+2029, U+202F, U+205F and U+3000. *)
Definition whitespace : list N :=
  [9; 10; 11; 12; 13; 28; 29; 30; 31; 32; 133; 160; 5760; 8192; 8193; 8194;
   8195; 8196; 8197; 8198; 8199; 8200; 8201; 8202; 8232; 8233; 8239; 8287;
   12288]%N.

(** [str.isspace] on one character. *)
Definition py_isspace (c : string) : bool :=
  bool_decide (c ∈ utf8 <$> whitespace).

Fixpoint lstrip (l : list string) : list string :=
  match l with
  | c :: l' => if py_isspace c then lstrip l' else l
  | [] => []
  end.

(** [line.strip()] *)
Definition py_strip (s : string) : string :=
  String.concat "" (reverse (lstrip (reverse (lstrip (chars s))))).

Fixpoint split_from (cur : string) (l : list string) : list string :=
  match l with
  | [] => if decide (cur = "") then [] else [cur]
  | c :: l' =>
      if py_isspace c
      then (if decide (cur = "") then [] else [cur]) ++ split_from "" l'
      else split_from (cur +:+ c) l'
  end.

(** [line.split()] *)
Definition py_split (s : string) : list string := split_from "" (chars s).

(** The key of a class in the file: an [int] in the "classes" format, a [str]
    in the "srilm-classes" format. *)
Definition file_id : Type := Z + string.

Record reader := mkReader {
  r_words : gset string;
  r_id_to_word : list string;
  r_word_id_to_class_id : list nat;
  r_word_classes : list WordClass.t;
  r_file_id_to_class_id : gmap file_id nat;
}.

Definition reader_init : reader :=
  {| r_words := ∅; r_id_to_word := []; r_word_id_to_class_id := [];
     r_word_classes := []; r_file_id_to_class_id := ∅ |}.

Definition fields_error (fields : list string) (line : string) : exn :=
  InputError (pretty (length fields)
              +:+ " fields on one line of vocabulary file: " +:+ line).

Definition duplicate_error (word : string) : exn :=
  InputError ("Word `" +:+ word
              +:+ "' appears more than once in the vocabulary file.").

Section from_file.

(** Python's [int(s)] and [float(s)] on a string; [None] where they raise
    [ValueError].  ([float] is taken to yield a finite value.) *)
Variable py_int : string → option Z.
Variable py_float : string → option Qc.

(** The [if]/[elif] chain at lines 157-171: the word, the class key and the
    probability of one line. *)
Definition parse_fields (input_format : string) (fields : list string)
    (line : string) : result (string * option file_id * Qc) :=
  match fields with
  | [word] =>
      if decide (input_format = "words") then Ok (word, None, 1%Qc)
      else Raise (fields_error fields line)
  | [word; f1] =>
      if decide (input_format = "classes") then
        match py_int f1 with
        | Some n => Ok (word, Some (inl n), 1%Qc)
        | None => Raise ValueError
        end
      else Raise (fields_error fields line)
  | [f0; f1; word] =>
      if decide (input_format = "srilm-classes") then
        match py_float f1 with
        | Some prob => Ok (word, Some (inr f0), prob)
        | None => Raise ValueError
        end
      else Raise (fields_error fields line)
  | _ => Raise (fields_error fields line)
  end.

(** The body of [for line in input_file]. *)
Definition read_line (input_format : string) (r : reader) (line : string)
    : result reader :=
  let line := py_strip line in
  let fields := py_split line in
  if decide (fields = []) then Ok r
  else
    '(word, file_id, prob) ← parse_fields input_format fields line;
    if decide (word ∈ r_words r) then Raise (duplicate_error word)
    else
      let words := {[word]} ∪ r_words r in
      let word_id := length (r_id_to_word r) in
      let id_to_word := r_id_to_word r ++ [word] in
      '(class_id, word_classes, file_ids) ←
        match file_id ≫= (r_file_id_to_class_id r !!.) with
        | Some class_id =>
            word_class ← py_index (r_word_classes r) class_id;
            word_class ← WordClass.add word_class word_id prob;
            Ok (class_id, <[class_id := word_class]> (r_word_classes r),
                r_file_id_to_class_id r)
        | None =>
            let class_id := length (r_word_classes r) in
            Ok (class_id,
                r_word_classes r ++ [WordClass.init class_id word_id prob],
                match file_id with
                | Some k => <[k := class_id]> (r_file_id_to_class_id r)
                | None => r_file_id_to_class_id r
                end)
        end;
      _ ← py_assert (bool_decide (word_id = length (r_word_id_to_class_id r)));
      Ok {| r_words := words;
            r_id_to_word := id_to_word;
            r_word_id_to_class_id := r_word_id_to_class_id r ++ [class_id];
            r_word_classes := word_classes;
            r_file_id_to_class_id := file_ids |}.

Definition read_lines (input_format : string) (input_file : list string)
    : result reader :=
  foldlM (read_line input_format) reader_init input_file.

Definition from_file (input_file : list string) (input_format : string)
    (oos_words : option (list string)) : result Vocabulary :=
  r ← read_lines input_format input_file;
  Vocabulary_init (r_id_to_word r) (r_word_id_to_class_id r)
                  (Some <$> r_word_classes r) oos_words.

End from_file.

(** ** Construction from word counts *)

(** A [dict] from words to counts is the list of its items, in insertion
    order. *)

(** [if key in d: del d[key]] *)
Definition py_del (key : string) (d : list (string * Z)) : list (string * Z) :=
  filter (λ kv, kv.1 ≠ key) d.

Fixpoint insert_by_count (x : string * Z) (l : list (string * Z))
    : list (string * Z) :=
  match l with
  | [] => [x]
  | y :: l' =>
      if decide (x.2 ≤ y.2)%Z then x :: y :: l' else y :: insert_by_count x l'
  end.

(** [sorted(d.items(), key=lambda x: x[1])]: ascending by count, items of
    equal count staying in dictionary order. *)
Definition sorted_by_count (d : list (string * Z)) : list (string * Z) :=
  foldr insert_by_count [] d.

Record builder := mkBuilder {
  b_id_to_word : list string;
  b_word_id_to_class_id : list nat;
  b_word_classes : list WordClass.t;
  b_class_id : nat;
}.

(** The body of the loop at lines 229-243. *)
Definition assign_word (num_classes : nat) (b : builder) (item : string * Z)
    : result builder :=
  let word := item.1 in
  let class_id := b_class_id b in
  let word_id := length (b_id_to_word b) in
  let id_to_word := b_id_to_word b ++ [word] in
  word_classes ←
    (if decide (class_id < length (b_word_classes b)) then
       word_class ← py_index (b_word_classes b) class_id;
       word_class ← WordClass.add word_class word_id 1%Qc;
       Ok (<[class_id := word_class]> (b_word_classes b))
     else
       _ ← py_assert (bool_decide (class_id = length (b_word_classes b)));
       Ok (b_word_classes b ++ [WordClass.init class_id word_id 1%Qc]));
  _ ← py_assert (bool_decide (word_id = length (b_word_id_to_class_id b)));
  if decide (num_classes = 0) then Raise ZeroDivisionError
  else
    Ok {| b_id_to_word := id_to_word;
          b_word_id_to_class_id := b_word_id_to_class_id b ++ [class_id];
          b_word_classes := word_classes;
          b_class_id := (class_id + 1) `mod` num_classes |}.

Definition strip_special (word_counts : list (string * Z)) : list (string * Z) :=
  py_del "<unk>" (py_del "</s>" (py_del "<s>" word_counts)).

Definition build_classes (word_counts : list (string * Z))
    (num_classes : option nat) : result builder :=
  let word_counts := strip_special word_counts in
  let num_classes := default (length word_counts) num_classes in
  foldlM (assign_word num_classes)
         {| b_id_to_word := []; b_word_id_to_class_id := [];
            b_word_classes := []; b_class_id := 0 |}
         (sorted_by_count word_counts).

Definition from_word_counts (word_counts : list (string * Z))
    (num_classes : option nat) : result Vocabulary :=
  b ← build_classes word_counts num_classes;
  Vocabulary_init (b_id_to_word b) (b_word_id_to_class_id b)
                  (Some <$> b_word_classes b) None.

(** ** Persistence

    The HDF5 file is modelled by its logical schema: the datasets named
    [words], [classes], [probs] and [unigram_probs], which may exist in the
    group [vocabulary] and also directly under the root of the file. *)

Record h5_group := mkGroup {
  h5_words : option (list string);
  h5_classes : option (list nat);
  h5_probs : option (list Qc);
  h5_unigram_probs : option (list npfloat);
}.

Definition h5_empty : h5_group :=
  {| h5_words := None; h5_classes := None; h5_probs := None;
     h5_unigram_probs := None |}.

Record h5_file := mkFile {
  h5_root : h5_group;
  h5_vocabulary : option h5_group;
}.

(** [word_id_to_class_id.max()]: raises on an empty array. *)
Definition np_max (l : list nat) : result nat :=
  match l with
  | [] => Raise ValueError
  | x :: l' => Ok (foldl Nat.max x l')
  end.

(** The body of [for word_id, prob in enumerate(h5_probs)]. *)
Definition restore_word (word_id_to_class_id : list nat)
    (word_classes : list (option WordClass.t)) (item : nat * Qc)
    : result (list (option WordClass.t)) :=
  let '(word_id, prob) := item in
  class_id ← py_index word_id_to_class_id word_id;
  slot ← py_index word_classes class_id;
  match slot with
  | None =>
      Ok (<[class_id := Some (WordClass.init class_id word_id prob)]> word_classes)
  | Some word_class =>
      word_class ← WordClass.add word_class word_id prob;
      Ok (<[class_id := Some word_class]> word_classes)
  end.

Definition from_state (state : h5_file) : result Vocabulary :=
  match h5_vocabulary state with
  | None =>
      Raise (IncompatibleStateError
               "Vocabulary is missing from neural network state.")
  | Some h5_vocabulary =>
  match h5_words h5_vocabulary with
  | None =>
      Raise (IncompatibleStateError
               "Vocabulary parameter 'words' is missing from neural network state.")
  | Some id_to_word =>
  match h5_classes h5_vocabulary with
  | None =>
      Raise (IncompatibleStateError
               "Vocabulary parameter 'classes' is missing from neural network state.")
  | Some word_id_to_class_id =>
  match h5_probs h5_vocabulary with
  | None =>
      Raise (IncompatibleStateError
               "Vocabulary parameter 'probs' is missing from neural network state.")
  | Some h5_probs =>
      m ← np_max word_id_to_class_id;
      let num_classes := m + 1 in
      word_classes ← foldlM (restore_word word_id_to_class_id)
                            (replicate num_classes None) (imap pair h5_probs);
      res ← Vocabulary_init id_to_word word_id_to_class_id word_classes None;
      match h5_unigram_probs h5_vocabulary with
      | Some unigram_probs => Ok (set_unigram_probs res unigram_probs)
      | None => Ok res
      end
  end end end end.

(** [dataset[:] = data] on an existing one-dimensional dataset: the data must
    have the dataset's length, or one element, which is broadcast. *)
Definition h5_assign {A} (dataset : option (list A)) (data : list A)
    : result (option (list A)) :=
  match dataset with
  | None => Raise KeyError
  | Some old =>
      if decide (length data = length old) then Ok (Some data)
      else match data with
           | [x] => Ok (Some (replicate (length old) x))
           | _ => Raise TypeError
           end
  end.

Definition get_state (v : Vocabulary) (state : h5_file) : result h5_file :=
  let h5_vocabulary := default h5_empty (h5_vocabulary state) in
  let root := h5_root state in
  '(root_words, group_words) ←
    (if decide (h5_words h5_vocabulary ≠ None) then
       d ← h5_assign (h5_words root) (id_to_word v);
       Ok (d, h5_words h5_vocabulary)
     else Ok (h5_words root, Some (id_to_word v)));
  '(root_classes, group_classes) ←
    (if decide (h5_classes h5_vocabulary ≠ None) then
       d ← h5_assign (h5_classes root) (word_id_to_class_id v);
       Ok (d, h5_classes h5_vocabulary)
     else Ok (h5_classes root, Some (word_id_to_class_id v)));
  probs ← mapM (λ wc, word_class ← py_index (_word_classes v) wc.2;
                      WordClass.get_prob word_class wc.1)
               (imap pair (word_id_to_class_id v));
  '(root_probs, group_probs) ←
    (if decide (h5_probs h5_vocabulary ≠ None) then
       d ← h5_assign (h5_probs root) probs;
       Ok (d, h5_probs h5_vocabulary)
     else Ok (h5_probs root, Some probs));
  '(root_unigram, group_unigram) ←
    match _unigram_probs v with
    | Some unigram_probs =>
        if decide (h5_unigram_probs h5_vocabulary ≠ None) then
          d ← h5_assign (h5_unigram_probs root) unigram_probs;
          Ok (d, h5_unigram_probs h5_vocabulary)
        else Ok (h5_unigram_probs root, Some unigram_probs)
    | None => Ok (h5_unigram_probs root, h5_unigram_probs h5_vocabulary)
    end;
  Ok {| h5_root := {| h5_words := root_words; h5_classes := root_classes;
                      h5_probs := root_probs;
                      h5_unigram_probs := root_unigram |};
        h5_vocabulary := Some {| h5_words := group_words;
                                 h5_classes := group_classes;
                                 h5_probs := group_probs;
                                 h5_unigram_probs := group_unigram |} |}.

(** ** Probabilities from word counts *)

(** The value of an [int64] after an addition that overflowed. *)
Definition wrap64 (z : Z) : Z := ((z + 2 ^ 63) `mod` 2 ^ 64 - 2 ^ 63)%Z.

Definition in_int64 (z : Z) : Prop := (- 2 ^ 63 ≤ z < 2 ^ 63)%Z.

Definition sum_Z (l : list Z) : Z := foldr Z.add 0%Z l.

(** The sum of [int64] values, computed in [int64]. *)
Definition sum_int64 (l : list Z) : Z := wrap64 (sum_Z l).

(** The body of the loop at lines 312-316; storing a Python [int] that does
    not fit the array's [int64] raises. *)
Definition store_count (v : Vocabulary) (counts : list Z) (item : string * Z)
    : result (list Z) :=
  let '(word, count) := item in
  match word_to_id v !! word with
  | Some word_id =>
      if decide (word_id < length counts) then
        if decide (in_int64 count) then Ok (<[word_id := count]> counts)
        else Raise OverflowError
      else Ok counts
  | None => Ok counts
  end.

Definition count_words (v : Vocabulary) (word_counts : list (string * Z))
    : result (list Z) :=
  foldlM (store_count v) (replicate (num_words v) 0%Z) word_counts.

(** [counts / counts.sum()] *)
Definition unigram_of_counts (counts : list Z) : list npfloat :=
  let total := sum_int64 counts in
  (λ c, np_div (Finite (Qc_of_Z c)) (Finite (Qc_of_Z total))) <$> counts.

(** [counts[i] = max(counts[i], 1)] *)
Definition at_least_one (counts : list Z) (i : nat) : result (list Z) :=
  c ← py_index counts i;
  Ok (<[i := Z.max c 1]> counts).

Definition set_probs (cls : WordClass.t) (new_probs : list (nat * Qc))
    : result WordClass.t :=
  foldlM (λ cls wp, WordClass.set_prob cls wp.1 wp.2) cls new_probs.

(** The body of [for cls in self._word_classes]. *)
Definition update_class (counts : list Z) (cls : WordClass.t)
    : result WordClass.t :=
  cls_counts ← mapM (λ wp, c ← py_index counts wp.1; Ok (wp.1, c))
                    (WordClass.iter cls);
  let cls_total := sum_int64 cls_counts.*2 in
  if decide (0 < cls_total)%Z then
    set_probs cls
      ((λ wc, (wc.1, (Qc_of_Z wc.2 / Qc_of_Z cls_total)%Qc)) <$> cls_counts)
  else if decide (WordClass.len cls = 0) then Raise ZeroDivisionError
  else
    let prob := (1 / Qc_of_nat (WordClass.len cls))%Qc in
    set_probs cls ((λ wp, (wp.1, prob)) <$> WordClass.iter cls).

(** The counts after lines 322-327. *)
Definition special_counts (v : Vocabulary) (counts : list Z)
    : result (list Z) :=
  sos_id ← py_getitem (word_to_id v) "<s>";
  eos_id ← py_getitem (word_to_id v) "</s>";
  unk_id ← py_getitem (word_to_id v) "<unk>";
  counts ← at_least_one counts sos_id;
  counts ← at_least_one counts eos_id;
  at_least_one counts unk_id.

Definition compute_probs (v : Vocabulary) (word_counts : list (string * Z))
    (update_class_probs : bool) : result Vocabulary :=
  counts ← count_words v word_counts;
  let v := set_unigram_probs v (unigram_of_counts counts) in
  if negb update_class_probs then Ok v
  else
    counts ← special_counts v counts;
    classes ← mapM (update_class counts) (_word_classes v);
    Ok {| id_to_word := id_to_word v;
          word_id_to_class_id := word_id_to_class_id v;
          _word_classes := classes;
          word_to_id := word_to_id v;
          num_normal_classes := num_normal_classes v;
          _unigram_probs := _unigram_probs v |}.

(** ** Out-of-shortlist log probabilities *)

(** The result of [numpy.log] and [numpy.exp]: a real number, an infinity or
    [nan]. *)
Inductive xreal :=
  | XFinite (r : R)
  | XPInf
  | XNInf
  | XNaN.

Definition np_log (x : npfloat) : xreal :=
  match x with
  | Finite q =>
      if decide (0 < q)%Qc then XFinite (ln (Q2R q))
      else if decide (q = 0%Qc) then XNInf
      else XNaN
  | PInf => XPInf
  | NInf | NaN => XNaN
  end.

Definition np_exp (x : xreal) : xreal :=
  match x with
  | XFinite r => XFinite (exp r)
  | XPInf => XPInf
  | XNInf => XFinite 0
  | XNaN => XNaN
  end.

Definition x_add (x y : xreal) : xreal :=
  match x, y with
  | XNaN, _ | _, XNaN => XNaN
  | XPInf, XNInf | XNInf, XPInf => XNaN
  | XPInf, _ | _, XPInf => XPInf
  | XNInf, _ | _, XNInf => XNInf
  | XFinite a, XFinite b => XFinite (a + b)
  end.

Definition x_sum (l : list xreal) : xreal := foldl x_add (XFinite 0) l.

(** The array [oos_probs] just before [numpy.log] is applied. *)
Definition oos_probs (v : Vocabulary) : result (list npfloat) :=
  match _unigram_probs v with
  | None => Raise IndexError
  | Some unigram_probs =>
      let shortlist_size := num_shortlist_words v in
      let oos := drop shortlist_size unigram_probs in
      let total_oos_prob := np_sum oos in
      Ok (replicate (shortlist_size `min` length unigram_probs) (Finite 1)
          ++ ((λ p, np_div p total_oos_prob) <$> oos))
  end.

Definition get_oos_logprobs (v : Vocabulary) : result (list xreal) :=
  oos_probs v ≫= λ probs : list npfloat, Ok (np_log <$> probs).

(** ** Auxiliary definitions used in the statements *)

(** What one block of lines 54-79 does to the three lists once the length
    check at line 50 has passed. *)
Definition with_special (token : string) (st : lists) : lists :=
  let '(itw, w2c, wcs) := st in
  if bool_decide (token ∈ itw) then st
  else (itw ++ [token], w2c ++ [length wcs],
        wcs ++ [Some (WordClass.init (length wcs) (length itw) 1%Qc)]).

Global Arguments with_special : simpl never.

Definition lists_balanced (st : lists) : Prop := length st.1.1 = length st.1.2.

Definition with_specials (st : lists) : lists :=
  with_special "<unk>" (with_special "</s>" (with_special "<s>" st)).

Definition with_oos (itw : list string) (oos_words : option (list string))
    : list string :=
  match oos_words with
  | Some ws => add_oos_words itw ws
  | None => itw
  end.

(** A class "of that shape": exactly one member, whose word starts with
    the character [<]. *)
Definition special_class (itw : list string) (wc : WordClass.t) : Prop :=
  ∃ word_id prob word,
    WordClass.probs wc = [(word_id, prob)]
    ∧ itw !! word_id = Some word
    ∧ String.prefix "<" word = true.

(** ** Decidable equality, for evaluating the model on concrete inputs *)

Global Instance exn_eq_dec : EqDecision exn.
Proof. solve_decision. Defined.

Global Instance result_eq_dec `{EqDecision A} : EqDecision (result A).
Proof. solve_decision. Defined.

Global Instance WordClass_eq_dec : EqDecision WordClass.t.
Proof. solve_decision. Defined.

Global Instance npfloat_eq_dec : EqDecision npfloat.
Proof. solve_decision. Defined.

Global Instance Vocabulary_eq_dec : EqDecision Vocabulary.
Proof. solve_decision. Defined.

Global Instance h5_group_eq_dec : EqDecision h5_group.
Proof. solve_decision. Defined.

Global Instance h5_file_eq_dec : EqDecision h5_file.
Proof. solve_decision. Defined.

(** Closes a closed, decidable goal by evaluation. *)
Ltac by_eval := apply (bool_decide_unpack _); vm_compute; reflexivity.

(** A small vocabulary used in the examples: the words [the] and [dog] share
    class 0 and [<x>] is alone in class 1. *)
Definition example_classes : list (option WordClass.t) :=
  [Some (WordClass.mk 0 [(0, 1%Qc); (2, 1%Qc)]); Some (WordClass.init 1 1 1%Qc)].

Definition example_vocabulary : Vocabulary :=
  {| id_to_word := ["the"; "<x>"; "dog"; "<s>"; "</s>"; "<unk>"; "cat"];
     word_id_to_class_id := [0; 1; 0; 2; 3; 4];
     _word_classes :=
       [WordClass.mk 0 [(0, (1 / 2)%Qc); (2, (1 / 2)%Qc)];
        WordClass.mk 1 [(1, 1%Qc)]; WordClass.mk 2 [(3, 1%Qc)];
        WordClass.mk 3 [(4, 1%Qc)]; WordClass.mk 4 [(5, 1%Qc)]];
     word_to_id :=
       list_to_map [("the", 0); ("<x>", 1); ("dog", 2); ("<s>", 3);
                    ("</s>", 4); ("<unk>", 5); ("cat", 6)];
     num_normal_classes := 1;
     _unigram_probs := None |}.

(** The vocabularies a program can hold: built by one of the four
    construction strategies, and possibly updated by [compute_probs]. *)
Inductive constructed : Vocabulary → Prop :=
  | constructed_init itw w2c wcs oos v :
      Vocabulary_init itw w2c wcs oos = Ok v → constructed v
  | constructed_from_file py_int py_float input_file input_format oos v :
      from_file py_int py_float input_file input_format oos = Ok v →
      constructed v
  | constructed_from_word_counts word_counts num_classes v :
      from_word_counts word_counts num_classes = Ok v → constructed v
  | constructed_from_state state v :
      from_state state = Ok v → constructed v
  | constructed_compute_probs v word_counts update_class_probs v' :
      constructed v →
      compute_probs v word_counts update_class_probs = Ok v' →
      constructed v'.

Definition special_tokens : list string := ["<s>"; "</s>"; "<unk>"].

(** Ascending order of the items of a count dictionary. *)
Definition by_count (x y : string * Z) : Prop := (x.2 ≤ y.2)%Z.

(** The state of the loop of [from_word_counts] after [k] words, for [N]
    classes. *)
Record round_robin (N k : nat) (b : builder) : Prop := {
  rr_words : length (b_id_to_word b) = k;
  rr_class_ids : ∀ j, j < k → b_word_id_to_class_id b !! j = Some (j `mod` N);
  rr_class_ids_length : length (b_word_id_to_class_id b) = k;
  rr_class_id : b_class_id b = k `mod` N;
  rr_classes_length : length (b_word_classes b) = k `min` N;
  rr_members : ∀ c wc j p,
    b_word_classes b !! c = Some wc → (j, p) ∈ WordClass.probs wc →
    j < k ∧ p = 1%Qc ∧ j `mod` N = c;
  rr_assigned : ∀ j, j < k →
    ∃ wc, b_word_classes b !! (j `mod` N) = Some wc
          ∧ (j, 1%Qc) ∈ WordClass.probs wc;
}.

(** Lists the constructor accepts: as many class IDs as words, every entry of
    [word_classes] a class, and every member of a class the ID of a word. *)
Definition lists_valid (st : lists) : Prop :=
  lists_balanced st
  ∧ ∀ slot, slot ∈ st.2 →
      ∃ wc, slot = Some wc
            ∧ ∀ j p, (j, p) ∈ WordClass.probs wc → j < length st.1.1.

(** The counts of the scenario in the specification. *)
Definition example_counts : list (string * Z) :=
  [("cat", 5%Z); ("dog", 1%Z); ("bird", 3%Z)].

(** A line's field count fits the declared format. *)
Definition matches_format (input_format : string) (fields : list string)
    : Prop :=
  (input_format = "words" ∧ length fields = 1)
  ∨ (input_format = "classes" ∧ length fields = 2)
  ∨ (input_format = "srilm-classes" ∧ length fields = 3).

(** The fields of a line of the file. *)
Definition line_fields (line : string) : list string :=
  py_split (py_strip line).

(** The word a line contributes, when the line has one. *)
Definition line_word (py_int : string → option Z)
    (py_float : string → option Qc) (input_format line : string)
    : option string :=
  match parse_fields py_int py_float input_format
                     (line_fields line) (py_strip line) with
  | Ok (word, _, _) =>
      if decide (line_fields line = []) then None else Some word
  | Raise _ => None
  end.

(** Readings of [int] and [float] for plain decimal literals, used in the
    examples. *)
Fixpoint decimal_digits (acc : N) (s : string) : option N :=
  match s with
  | EmptyString => Some acc
  | String c s' =>
      n ← Ascii.is_nat c; decimal_digits (acc * 10 + N.of_nat n)%N s'
  end.

Definition decimal_nat (s : string) : option N :=
  match s with
  | EmptyString => None
  | _ => decimal_digits 0%N s
  end.

Definition decimal_int (s : string) : option Z :=
  match s with
  | String "-" s' => n ← decimal_nat s'; Some (- Z.of_N n)%Z
  | String "+" s' => n ← decimal_nat s'; Some (Z.of_N n)
  | _ => n ← decimal_nat s; Some (Z.of_N n)
  end.

Fixpoint split_at_dot (cur : string) (s : string) : string * option string :=
  match s with
  | EmptyString => (cur, None)
  | String "." s' => (cur, Some s')
  | String c s' => split_at_dot (cur +:+ String c "") s'
  end.

Definition decimal_float (s : string) : option Qc :=
  match split_at_dot "" s with
  | (whole, None) => n ← decimal_nat whole; Some (Qc_of_Z (Z.of_N n))
  | (whole, Some frac) =>
      n ← decimal_nat whole;
      m ← decimal_nat frac;
      Some (Qc_of_Z (Z.of_N n)
            + Qc_of_Z (Z.of_N m) / Qc_of_Z (10 ^ Z.of_nat (String.length frac)))%Qc
  end.

(** The stored members of class [c]: the items [(word_id, prob)] whose word
    has class [c], in word order. *)
Definition class_members (classes : list nat) (items : list (nat * Qc))
    (c : nat) : list (nat * Qc) :=
  filter (λ jp, classes !! jp.1 = Some c) items.

(** The entry of [word_classes] for class [c] once [members] have been
    restored. *)
Definition restored_slot (c : nat) (members : list (nat * Qc))
    : option WordClass.t :=
  match members with
  | [] => None
  | _ => Some (WordClass.mk c members)
  end.

(** A state whose probabilities of class 0 do not sum to 1. *)
Definition unnormalized_state : h5_file :=
  {| h5_root := h5_empty;
     h5_vocabulary :=
       Some {| h5_words := Some ["a"; "b"; "<s>"; "</s>"; "<unk>"];
               h5_classes := Some [0; 0; 1; 2; 3];
               h5_probs := Some [1%Qc; Qc_of_Z 3; 1%Qc; 1%Qc; 1%Qc];
               h5_unigram_probs := None |} |}.

(** A store that holds nothing yet. *)
Definition fresh_store : h5_file :=
  {| h5_root := h5_empty; h5_vocabulary := None |}.

(** [token] is the sole member, with probability 1.0, of a class of its
    own. *)
Definition special_alone (v : Vocabulary) (token : string) : Prop :=
  ∃ word_id class_id wc,
    word_to_id v !! token = Some word_id
    ∧ id_to_word v !! word_id = Some token
    ∧ word_id_to_class_id v !! word_id = Some class_id
    ∧ _word_classes v !! class_id = Some wc
    ∧ WordClass.probs wc = [(word_id, 1%Qc)]
    ∧ get_word_prob v word_id = Ok 1%Qc.

(** The same, on the lists the constructor works on, before the classes are
    normalised. *)
Definition appended_alone (token : string) (st : lists) : Prop :=
  ∃ word_id class_id,
    st.1.1 !! word_id = Some token
    ∧ (∀ j, st.1.1 !! j = Some token → j = word_id)
    ∧ st.1.2 !! word_id = Some class_id
    ∧ st.2 !! class_id = Some (Some (WordClass.init class_id word_id 1%Qc)).

(** A vocabulary file in which [<s>] shares a class with another word. *)
Definition shared_class_file : list string := ["<s> 0"; "a 0"].

(** ** Auxiliary definitions for [compute_probs] *)

(** The count a dictionary of counts holds for a word, 0 when it holds
    none. *)
Definition count_of (word_counts : list (string * Z)) (word : string) : Z :=
  default 0%Z ((list_to_map word_counts : gmap string Z) !! word).

(** The dense count array: the count of the word with ID [i], and 0 for an
    ID that [word_to_id] does not give to its word. *)
Definition dense_count (v : Vocabulary) (word_counts : list (string * Z))
    (i : nat) : Z :=
  match id_to_word v !! i with
  | Some word =>
      if decide (word_to_id v !! word = Some i) then count_of word_counts word
      else 0%Z
  | None => 0%Z
  end.

(** The counts with those of the special tokens raised to at least 1. *)
Definition raised (special_ids : list nat) (counts : list Z) : list Z :=
  imap (λ i c, if decide (i ∈ special_ids) then Z.max c 1 else c) counts.

Definition count_at (counts : list Z) (i : nat) : Z :=
  default 0%Z (counts !! i).

(** The total count of a class. *)
Definition class_total (counts : list Z) (cls : WordClass.t) : Z :=
  sum_Z (count_at counts <$> (WordClass.probs cls).*1).

(** Word counts a corpus can produce: one entry per word, no negative count,
    and a total that fits an [int64]. *)
Definition counts_valid (word_counts : list (string * Z)) : Prop :=
  NoDup word_counts.*1
  ∧ Forall (λ item, 0 ≤ item.2)%Z word_counts
  ∧ (sum_Z word_counts.*2 < 2 ^ 63)%Z.

Definition is_finite (x : npfloat) : Prop :=
  match x with
  | Finite _ => True
  | _ => False
  end.

(** Classes as the [WordClass] interface builds them: not empty, no member
    twice, and every member the ID of a word. *)
Definition classes_valid (v : Vocabulary) : Prop :=
  Forall (λ cls, WordClass.probs cls ≠ []
                 ∧ NoDup (WordClass.probs cls).*1
                 ∧ Forall (λ j, j < num_words v) (WordClass.probs cls).*1)
         (_word_classes v).

(** The counts used in the examples: [dog] occurs twice, [cat] (an
    out-of-shortlist word of [example_vocabulary]) once, and [bird] is not in
    the vocabulary. *)
Definition example_word_counts : list (string * Z) :=
  [("dog", 2%Z); ("bird", 4%Z); ("cat", 1%Z)].

(** Counts in which no out-of-shortlist word of [example_vocabulary]
    occurs. *)
Definition shortlist_only_counts : list (string * Z) := [("dog", 2%Z)].

(** [example_vocabulary] after [compute_probs] with [example_word_counts]. *)
Definition example_with_probs : Vocabulary :=
  match compute_probs example_vocabulary example_word_counts true with
  | Ok v => v
  | Raise _ => example_vocabulary
  end.

(** The classes agree with [word_id_to_class_id]: the members of class [c]
    are the shortlist words whose class ID is [c]. *)
Definition classes_consistent (v : Vocabulary) : Prop :=
  (∀ c cls j, _word_classes v !! c = Some cls →
              j ∈ (WordClass.probs cls).*1 →
              word_id_to_class_id v !! j = Some c)
  ∧ (∀ j c, word_id_to_class_id v !! j = Some c →
            ∃ cls, _word_classes v !! c = Some cls
                   ∧ j ∈ (WordClass.probs cls).*1).

(** The membership probabilities of every class sum to 1. *)
Definition classes_normalized (v : Vocabulary) : Prop :=
  Forall (λ cls, WordClass.total cls = 1%Qc) (_word_classes v).

(** [example_vocabulary] without its out-of-shortlist word. *)
Definition shortlist_vocabulary : Vocabulary :=
  {| id_to_word := ["the"; "<x>"; "dog"; "<s>"; "</s>"; "<unk>"];
     word_id_to_class_id := [0; 1; 0; 2; 3; 4];
     _word_classes :=
       [WordClass.mk 0 [(0, (1 / 2)%Qc); (2, (1 / 2)%Qc)];
        WordClass.mk 1 [(1, 1%Qc)]; WordClass.mk 2 [(3, 1%Qc)];
        WordClass.mk 3 [(4, 1%Qc)]; WordClass.mk 4 [(5, 1%Qc)]];
     word_to_id :=
       list_to_map [("the", 0); ("<x>", 1); ("dog", 2); ("<s>", 3);
                    ("</s>", 4); ("<unk>", 5)];
     num_normal_classes := 1;
     _unigram_probs := None |}.


(** ** Class memberships and containment

    A matrix is the list of its rows; numpy's elementwise operations visit
    the entries row by row. *)

(** [numpy.vectorize(f)(a, b)] for two arrays of one shape.  Without
    [otypes], [vectorize] refuses arrays of size 0. *)
Definition np_vectorize2 {A B C} (f : A → B → result C)
    (a : list (list A)) (b : list (list B)) : result (list (list C)) :=
  if decide (concat a = []) then Raise ValueError
  else mapM (λ rows : list A * list B,
               mapM (λ ab : A * B, f ab.1 ab.2) (zip rows.1 rows.2))
            (zip a b).

(** [Vocabulary.get_class_memberships] (lines 458-478): the copy of
    [word_ids] in which the IDs outside the shortlist are replaced by the ID
    of [<unk>], the class IDs and classes looked up by fancy indexing, and
    the vectorised [get_prob]. *)
Definition get_class_memberships (v : Vocabulary) (word_ids : list (list nat))
    : result (list (list nat) * list (list Qc)) :=
  unk_id ← py_getitem (word_to_id v) "<unk>";
  let word_ids : list (list nat) :=
    fmap (M := list)
         (λ word_id, if decide (num_shortlist_words v ≤ word_id)
                     then unk_id else word_id) <$> word_ids in
  class_ids ← mapM (mapM (py_index (word_id_to_class_id v))) word_ids;
  word_classes ← mapM (mapM (py_index (_word_classes v))) class_ids;
  probs ← np_vectorize2 WordClass.get_prob word_classes word_ids;
  Ok (class_ids, probs).

(** [Vocabulary.__contains__] *)
Definition __contains__ (v : Vocabulary) (word : string) : bool :=
  bool_decide (is_Some (word_to_id v !! word)).

(** ** Auxiliary definitions for the further properties *)

(** The word ID that [get_class_memberships] looks up for [word_id]. *)
Definition shortlist_id (v : Vocabulary) (unk_id word_id : nat) : nat :=
  if in_shortlist v word_id then word_id else unk_id.

(** The special tokens that a word list lacks. *)
Definition missing_special (itw : list string) : list string :=
  filter (λ token, token ∉ itw) special_tokens.

(** The class key a line gives its word, when the line has one. *)
Definition line_key (py_int : string → option Z)
    (py_float : string → option Qc) (input_format line : string)
    : option file_id :=
  match parse_fields py_int py_float input_format
                     (line_fields line) (py_strip line) with
  | Ok (_, file_id, _) =>
      if decide (line_fields line = []) then None else file_id
  | Raise _ => None
  end.

(** The word of a line with its class key. *)
Definition line_entry (py_int : string → option Z)
    (py_float : string → option Qc) (input_format line : string)
    : option (string * option file_id) :=
  word ← line_word py_int py_float input_format line;
  Some (word, line_key py_int py_float input_format line).

(** The state of the loop of [from_file] after the lines that gave
    [entries], the words with their class keys. *)
Record reader_inv (entries : list (string * option file_id)) (r : reader)
    : Prop := {
  ri_id_to_word : r_id_to_word r = entries.*1;
  ri_words : ∀ w, w ∈ r_words r ↔ w ∈ entries.*1;
  ri_NoDup : NoDup entries.*1;
  ri_length : length (r_word_id_to_class_id r) = length entries;
  ri_keyed : ∀ j w k, entries !! j = Some (w, Some k) →
    ∃ c, r_file_id_to_class_id r !! k = Some c
         ∧ r_word_id_to_class_id r !! j = Some c;
  ri_bound : ∀ k c, r_file_id_to_class_id r !! k = Some c →
    c < length (r_word_classes r);
  ri_inj : ∀ k k' c, r_file_id_to_class_id r !! k = Some c →
    r_file_id_to_class_id r !! k' = Some c → k = k';
  ri_plain : Forall (λ e, e.2 = None) entries →
    r_word_id_to_class_id r = seq 0 (length entries)
    ∧ r_word_classes r
      = (λ j, WordClass.init j j 1%Qc) <$> seq 0 (length entries);
}.

(** Lists in which word [j] is the only member, with probability 1.0, of
    class [j]. *)
Definition one_class_per_word (st : lists) : Prop :=
  st.1.2 = seq 0 (length st.1.1)
  ∧ st.2 = (λ j, Some (WordClass.init j j 1%Qc)) <$> seq 0 (length st.1.1).

(** The vocabulary of the three special tokens. *)
Definition special_vocabulary : Vocabulary :=
  {| id_to_word := ["<s>"; "</s>"; "<unk>"];
     word_id_to_class_id := [0; 1; 2];
     _word_classes :=
       [WordClass.mk 0 [(0, 1%Qc)]; WordClass.mk 1 [(1, 1%Qc)];
        WordClass.mk 2 [(2, 1%Qc)]];
     word_to_id := list_to_map [("<s>", 0); ("</s>", 1); ("<unk>", 2)];
     num_normal_classes := 0;
     _unigram_probs := None |}.

(** One of the datasets that [from_state] requires is missing. *)
Definition state_incomplete (state : h5_file) : Prop :=
  match h5_vocabulary state with
  | None => True
  | Some g => h5_words g = None ∨ h5_classes g = None ∨ h5_probs g = None
  end.

(** A state that lacks the dataset [classes]. *)
Definition state_without_classes : h5_file :=
  {| h5_root := h5_empty;
     h5_vocabulary :=
       Some {| h5_words := Some ["a"; "<s>"; "</s>"; "<unk>"];
               h5_classes := None;
               h5_probs := Some [1%Qc; 1%Qc; 1%Qc; 1%Qc];
               h5_unigram_probs := None |} |}.

(** A state in which no word has class 1. *)
Definition state_with_gap : h5_file :=
  {| h5_root := h5_empty;
     h5_vocabulary :=
       Some {| h5_words := Some ["a"; "<s>"; "</s>"; "<unk>"];
               h5_classes := Some [0; 2; 3; 4];
               h5_probs := Some [1%Qc; 1%Qc; 1%Qc; 1%Qc];
               h5_unigram_probs := None |} |}.

(** The entries of the counts whose word is in the vocabulary. *)
Definition known_counts (v : Vocabulary) (word_counts : list (string * Z))
    : list (string * Z) :=
  filter (λ item, is_Some (word_to_id v !! item.1)) word_counts.

(** Counts with an entry that does not fit the [int64] array. *)
Definition huge_counts : list (string * Z) :=
  [("dog", 2%Z); ("the", (2 ^ 63)%Z)].

(** * Verification *)

(** ** The result monad *)

Lemma bind_Ok {A B} (r : result A) (k : A → result B) b :
  r ≫= k = Ok b ↔ ∃ a, r = Ok a ∧ k a = Ok b.
Proof.
  destruct r as [a|e]; simpl; split.
  - eauto.
  - by intros (? & [= <-] & ?).
  - done.
  - by intros (? & [=] & _).
Qed.

Lemma bind_Raise {A B} (r : result A) (k : A → result B) e :
  r = Raise e → r ≫= k = Raise e.
Proof. by intros ->. Qed.

Lemma is_ok_Ok {A} (a : A) : is_ok (Ok a).
Proof. by exists a. Qed.

Lemma not_ok_Raise {A} e : ¬ is_ok (@Raise A e).
Proof. by intros [? [=]]. Qed.

(** Destructs a hypothesis [r ≫= k = Ok b] into its steps. *)
Ltac inv_ok H :=
  repeat match type of H with
  | _ ≫= _ = Ok _ =>
      let a := fresh "a" in
      let Ha := fresh "Hstep" in
      apply bind_Ok in H as (a & Ha & H)
  end.

Lemma py_index_Ok {A} (l : list A) i x : py_index l i = Ok x ↔ l !! i = Some x.
Proof. unfold py_index. destruct (l !! i); naive_solver. Qed.

Lemma py_getitem_Ok `{Countable K} {A} (d : gmap K A) k x :
  py_getitem d k = Ok x ↔ d !! k = Some x.
Proof. unfold py_getitem. destruct (d !! k); naive_solver. Qed.


Lemma foldlM_app {A S} (f : S → A → result S) s l1 l2 :
  foldlM f s (l1 ++ l2) = s' ← foldlM f s l1; foldlM f s' l2.
Proof.
  revert s. induction l1 as [|x l1 IH]; intros s; [done|].
  simpl. destruct (f s x); simpl; auto.
Qed.

Lemma foldlM_snoc {A S} (f : S → A → result S) s l x :
  foldlM f s (l ++ [x]) = s' ← foldlM f s l; f s' x.
Proof.
  rewrite foldlM_app. destruct (foldlM f s l) as [s'|]; [|done].
  simpl. by destruct (f s' x).
Qed.

Lemma mapM_Ok_Forall2 {A B} (f : A → result B) l l' :
  mapM f l = Ok l' ↔ Forall2 (λ x y, f x = Ok y) l l'.
Proof.
  revert l'. induction l as [|x l IH]; intros l'; simpl.
  - split; [intros [= <-]; constructor | by inversion 1].
  - split.
    + intros H. inv_ok H. injection H as <-. constructor; [done|]. by apply IH.
    + inversion 1 as [|? y ? ys Hy Hys]; subst.
      rewrite Hy. simpl. apply IH in Hys. by rewrite Hys.
Qed.

Lemma mapM_Ok_length {A B} (f : A → result B) l l' :
  mapM f l = Ok l' → length l' = length l.
Proof. rewrite mapM_Ok_Forall2. intros H. symmetry. by eapply Forall2_length. Qed.

Lemma mapM_Ok_lookup {A B} (f : A → result B) l l' i y :
  mapM f l = Ok l' → l' !! i = Some y → ∃ x, l !! i = Some x ∧ f x = Ok y.
Proof.
  rewrite mapM_Ok_Forall2. intros H Hy.
  destruct (Forall2_lookup_r _ _ _ _ _ H Hy) as (x & ? & ?). eauto.
Qed.

Lemma mapM_total {A B} (f : A → result B) l :
  Forall (λ x, is_ok (f x)) l → is_ok (mapM f l).
Proof.
  induction 1 as [|x l [y Hy] _ [ys Hys]]; simpl; [apply is_ok_Ok|].
  rewrite Hy. simpl. rewrite Hys. apply is_ok_Ok.
Qed.

(** ** The constructor *)

Lemma add_special_balanced token st :
  lists_balanced st → add_special token st = Ok (with_special token st).
Proof.
  destruct st as [[itw w2c] wcs]. unfold lists_balanced, with_special. simpl.
  intros Hlen. case_bool_decide; [done|]. by rewrite bool_decide_eq_true_2.
Qed.

Lemma with_special_balanced token st :
  lists_balanced st → lists_balanced (with_special token st).
Proof.
  destruct st as [[itw w2c] wcs]. unfold lists_balanced, with_special. simpl.
  intros Hlen. case_bool_decide; simpl; [done|]. rewrite !length_app. simpl. lia.
Qed.

Lemma with_special_elem token st : token ∈ (with_special token st).1.1.
Proof.
  destruct st as [[itw w2c] wcs]. unfold with_special.
  case_bool_decide; simpl; [done|]. set_solver.
Qed.

Lemma with_special_prefix token st :
  st.1.1 `prefix_of` (with_special token st).1.1
  ∧ st.1.2 `prefix_of` (with_special token st).1.2
  ∧ st.2 `prefix_of` (with_special token st).2.
Proof.
  destruct st as [[itw w2c] wcs]. unfold with_special.
  case_bool_decide; simpl; [done|]. repeat split; by apply prefix_app_r.
Qed.

Lemma add_oos_words_prefix itw ws : itw `prefix_of` add_oos_words itw ws.
Proof.
  revert itw. induction ws as [|w ws IH]; intros itw; simpl; [done|].
  case_bool_decide; [apply IH|].
  etrans; [|apply IH]. by apply prefix_app_r.
Qed.

Lemma with_oos_prefix itw oos : itw `prefix_of` with_oos itw oos.
Proof. destruct oos; simpl; [apply add_oos_words_prefix|done]. Qed.

Lemma add_oos_words_elem itw ws w :
  w ∈ add_oos_words itw ws ↔ w ∈ itw ∨ w ∈ ws.
Proof.
  revert itw. induction ws as [|x ws IH]; intros itw; simpl.
  - set_solver.
  - case_bool_decide; rewrite IH; set_solver.
Qed.

(** The constructor, step by step. *)
Lemma Vocabulary_init_Ok itw w2c wcs oos v :
  Vocabulary_init itw w2c wcs oos = Ok v ↔
  length itw = length w2c ∧
  ∃ n classes,
    let st := with_specials (itw, w2c, wcs) in
    let itw' := with_oos st.1.1 oos in
    scan_special itw' st.2 (length st.2) = Ok n ∧
    mapM normalize_slot st.2 = Ok classes ∧
    v = {| id_to_word := itw';
           word_id_to_class_id := st.1.2;
           _word_classes := classes;
           word_to_id := make_word_to_id itw';
           num_normal_classes := n;
           _unigram_probs := None |}.
Proof.
  unfold Vocabulary_init. case_bool_decide as Hlen.
  { split; [done|]. intros [? _]. done. }
  assert (lists_balanced (itw, w2c, wcs)) as Hb by done.
  rewrite (add_special_balanced _ _ Hb). simpl.
  rewrite (add_special_balanced _ _ (with_special_balanced "<s>" _ Hb)). simpl.
  rewrite (add_special_balanced _ _
    (with_special_balanced "</s>" _ (with_special_balanced "<s>" _ Hb))).
  simpl. fold (with_specials (itw, w2c, wcs)).
  destruct (with_specials (itw, w2c, wcs)) as [[itw3 w2c3] wcs3]. simpl.
  fold (with_oos itw3 oos).
  split.
  - intros H. inv_ok H. injection H as <-. eauto 10.
  - intros (_ & n & classes & Hscan & Hnorm & ->).
    rewrite Hscan. simpl. by rewrite Hnorm.
Qed.

Lemma scan_special_spec itw wcs n m :
  scan_special itw wcs n = Ok m →
  m ≤ n
  ∧ (∀ j, m ≤ j < n → ∃ wc, wcs !! j = Some (Some wc) ∧ special_class itw wc)
  ∧ (m = 0 ∨ ∃ wc, wcs !! (m - 1) = Some (Some wc) ∧ ¬ special_class itw wc).
Proof.
  revert m. induction n as [|index IH]; intros m; simpl.
  { intros [= <-]. split; [lia|]. split; [intros; lia | by left]. }
  intros H. inv_ok H. apply py_index_Ok in Hstep.
  destruct a as [wc|]; [|done].
  assert (¬ special_class itw wc →
          m = S index → m ≤ S index
          ∧ (∀ j, m ≤ j < S index →
               ∃ wc, wcs !! j = Some (Some wc) ∧ special_class itw wc)
          ∧ (m = 0 ∨ ∃ wc, wcs !! (m - 1) = Some (Some wc)
                           ∧ ¬ special_class itw wc)) as Hstop.
  { intros Hns ->. split; [lia|]. split; [intros; lia|].
    right. exists wc. by rewrite Nat.sub_1_r. }
  unfold WordClass.len, WordClass.iter in H.
  case_bool_decide as Hlen.
  - destruct (WordClass.probs wc) as [|[word_id prob] [|? ?]] eqn:Hprobs;
      simpl in *; try done.
    inv_ok H. apply py_index_Ok in Hstep0.
    destruct (String.prefix "<" a) eqn:Hprefix.
    + destruct (IH _ H) as (Hle & Hall & Hlast).
      split; [lia|]. split; [|done].
      intros j Hj. destruct (decide (j = index)) as [->|].
      * exists wc. split; [done|]. by exists word_id, prob, a.
      * apply Hall. lia.
    + injection H as <-. apply Hstop; [|done].
      intros (w' & p' & word' & Hp' & Hw & Hp).
      rewrite Hprobs in Hp'. injection Hp' as <- <-. congruence.
  - injection H as <-. apply Hstop; [|done].
    intros (w' & p' & word' & Hp & _). rewrite Hp in Hlen. done.
Qed.

Lemma normalize_probs_ids wc :
  (WordClass.probs (WordClass.normalize_probs wc)).*1 = (WordClass.probs wc).*1.
Proof.
  unfold WordClass.normalize_probs. case_decide; simpl;
    rewrite <-list_fmap_compose; by apply list_fmap_ext.
Qed.

Lemma normalize_probs_length wc :
  WordClass.len (WordClass.normalize_probs wc) = WordClass.len wc.
Proof.
  unfold WordClass.len.
  rewrite <-(length_fmap fst), normalize_probs_ids. apply length_fmap.
Qed.

Lemma special_class_normalize itw wc :
  special_class itw (WordClass.normalize_probs wc) ↔ special_class itw wc.
Proof.
  assert (∀ wc1 wc2, (WordClass.probs wc1).*1 = (WordClass.probs wc2).*1 →
                     special_class itw wc1 → special_class itw wc2) as Himp.
  { intros wc1 wc2 Hids (word_id & prob & word & Hp & Hw & Hpre).
    rewrite Hp in Hids.
    destruct (WordClass.probs wc2) as [|[w p] [|? ?]] eqn:Hp2; try done.
    injection Hids as <-. by exists word_id, p, word. }
  split; apply Himp; by rewrite normalize_probs_ids.
Qed.

Lemma normalize_slots_lookup wcs classes j :
  mapM normalize_slot wcs = Ok classes →
  j < length wcs →
  ∃ wc, wcs !! j = Some (Some wc)
        ∧ classes !! j = Some (WordClass.normalize_probs wc).
Proof.
  intros Hnorm Hj.
  pose proof (mapM_Ok_length _ _ _ Hnorm) as Hlen.
  destruct (lookup_lt_is_Some_2 classes j) as [c Hc]; [lia|].
  destruct (mapM_Ok_lookup _ _ _ _ _ Hnorm Hc) as ([wc|] & Hwc & Hn); [|done].
  injection Hn as <-. eauto.
Qed.

Lemma example_vocabulary_init :
  Vocabulary_init ["the"; "<x>"; "dog"] [0; 1; 0] example_classes (Some ["cat"; "dog"])
  = Ok example_vocabulary.
Proof. by_eval. Qed.

(** C5: after the raw-list constructor has run, [num_normal_classes] is
    [i + 1], where [i] (possibly [-1]) is the index at which the backward scan
    from the last class stops: every class above [i] has exactly one member
    whose word starts with [<], and the class at [i], if there is one, is not
    of that shape. *)
Theorem num_normal_classes_backward_scan itw w2c wcs oos v :
  Vocabulary_init itw w2c wcs oos = Ok v →
  ∃ i : Z,
    (-1 ≤ i < Z.of_nat (num_classes v))%Z
    ∧ Z.of_nat (num_normal_classes v) = (i + 1)%Z
    ∧ (∀ j : nat, (i < Z.of_nat j)%Z → j < num_classes v →
         ∃ wc, _word_classes v !! j = Some wc
               ∧ special_class (id_to_word v) wc)
    ∧ (i = (-1)%Z
       ∨ ∃ wc, _word_classes v !! Z.to_nat i = Some wc
               ∧ ¬ special_class (id_to_word v) wc).
Proof.
  rewrite Vocabulary_init_Ok.
  intros (_ & n & classes & Hscan & Hnorm & ->).
  destruct (with_specials (itw, w2c, wcs)) as [[itw3 w2c3] wcs3].
  unfold num_classes. simpl in *.
  pose proof (mapM_Ok_length _ _ _ Hnorm) as Hlen.
  destruct (scan_special_spec _ _ _ _ Hscan) as (Hle & Hall & Hlast).
  exists (Z.of_nat n - 1)%Z. split; [lia|]. split; [lia|]. split.
  - intros j Hij Hj.
    destruct (Hall j) as (wc & Hwc & Hsp); [lia|].
    destruct (normalize_slots_lookup _ _ j Hnorm) as (wc' & Hwc' & Hc); [lia|].
    exists (WordClass.normalize_probs wc'). split; [done|].
    apply special_class_normalize. congruence.
  - destruct Hlast as [->|(wc & Hwc & Hns)]; [by left|].
    right. replace (Z.to_nat (Z.of_nat n - 1)) with (n - 1) by lia.
    assert (n - 1 < length wcs3) as Hn by (by eapply lookup_lt_Some).
    destruct (normalize_slots_lookup _ _ _ Hnorm Hn) as (wc' & Hwc' & Hc).
    exists (WordClass.normalize_probs wc'). split; [done|].
    rewrite special_class_normalize. congruence.
Qed.

Lemma num_normal_classes_backward_scan_witness :
  ∃ i : Z,
    (-1 ≤ i < Z.of_nat (num_classes example_vocabulary))%Z
    ∧ Z.of_nat (num_normal_classes example_vocabulary) = (i + 1)%Z
    ∧ (∀ j : nat, (i < Z.of_nat j)%Z → j < num_classes example_vocabulary →
         ∃ wc, _word_classes example_vocabulary !! j = Some wc
               ∧ special_class (id_to_word example_vocabulary) wc)
    ∧ (i = (-1)%Z
       ∨ ∃ wc, _word_classes example_vocabulary !! Z.to_nat i = Some wc
               ∧ ¬ special_class (id_to_word example_vocabulary) wc).
Proof.
  apply (num_normal_classes_backward_scan
           ["the"; "<x>"; "dog"] [0; 1; 0] example_classes (Some ["cat"; "dog"])).
  apply (bool_decide_unpack _). vm_compute. reflexivity.
Defined.

(** ** The word-to-ID dictionary *)

Lemma make_word_to_id_snoc l w :
  make_word_to_id (l ++ [w]) = <[w := length l]> (make_word_to_id l).
Proof.
  unfold make_word_to_id. rewrite imap_app, foldl_app. simpl.
  by rewrite Nat.add_0_r.
Qed.

Lemma make_word_to_id_is_Some l w :
  is_Some (make_word_to_id l !! w) ↔ w ∈ l.
Proof.
  induction l as [|x l IH] using rev_ind.
  - unfold make_word_to_id. simpl. rewrite lookup_empty.
    split; [by intros [? ?] | by intros ?%elem_of_nil].
  - rewrite make_word_to_id_snoc, elem_of_app, list_elem_of_singleton.
    destruct (decide (x = w)) as [->|Hne].
    + rewrite lookup_insert_eq. naive_solver.
    + rewrite lookup_insert_ne by done. rewrite IH. naive_solver.
Qed.

Lemma make_word_to_id_lookup l w i :
  make_word_to_id l !! w = Some i → l !! i = Some w.
Proof.
  revert i. induction l as [|x l IH] using rev_ind; intros i.
  - unfold make_word_to_id. simpl. by rewrite lookup_empty.
  - rewrite make_word_to_id_snoc.
    destruct (decide (x = w)) as [->|Hne].
    + rewrite lookup_insert_eq. intros [= <-].
      by rewrite lookup_app_r, Nat.sub_diag.
    + rewrite lookup_insert_ne by done. intros Hi.
      apply lookup_app_l_Some. by apply IH.
Qed.

Lemma with_specials_elem st token :
  token ∈ special_tokens → token ∈ (with_specials st).1.1.
Proof.
  unfold special_tokens, with_specials. intros Htoken.
  pose proof (with_special_elem "<s>" st) as H1.
  pose proof (with_special_prefix "</s>" (with_special "<s>" st)) as (P2 & _).
  pose proof (with_special_elem "</s>" (with_special "<s>" st)) as H2.
  pose proof (with_special_prefix "<unk>"
                (with_special "</s>" (with_special "<s>" st))) as (P3 & _).
  pose proof (with_special_elem "<unk>"
                (with_special "</s>" (with_special "<s>" st))) as H3.
  apply elem_of_cons in Htoken as [->|Htoken].
  { eapply elem_of_prefix; [|exact P3].
    eapply elem_of_prefix; [|exact P2]. exact H1. }
  apply elem_of_cons in Htoken as [->|Htoken].
  { eapply elem_of_prefix; [|exact P3]. exact H2. }
  apply list_elem_of_singleton in Htoken as ->. exact H3.
Qed.

Lemma Vocabulary_init_word_to_id itw w2c wcs oos v :
  Vocabulary_init itw w2c wcs oos = Ok v →
  word_to_id v = make_word_to_id (id_to_word v)
  ∧ ∀ token, token ∈ special_tokens → token ∈ id_to_word v.
Proof.
  rewrite Vocabulary_init_Ok. intros (_ & n & classes & _ & _ & ->). simpl.
  split; [done|]. intros token Htoken.
  eapply elem_of_prefix; [|apply with_oos_prefix].
  by apply with_specials_elem.
Qed.

Lemma compute_probs_words v word_counts update v' :
  compute_probs v word_counts update = Ok v' →
  id_to_word v' = id_to_word v
  ∧ word_id_to_class_id v' = word_id_to_class_id v
  ∧ word_to_id v' = word_to_id v.
Proof.
  unfold compute_probs. intros H. inv_ok H.
  destruct update; simpl in H.
  - inv_ok H. by injection H as <-.
  - by injection H as <-.
Qed.

Lemma from_state_Ok state v :
  from_state state = Ok v ↔
  ∃ g words classes probs m wcs v0,
    h5_vocabulary state = Some g
    ∧ h5_words g = Some words ∧ h5_classes g = Some classes
    ∧ h5_probs g = Some probs
    ∧ np_max classes = Ok m
    ∧ foldlM (restore_word classes) (replicate (m + 1) None) (imap pair probs)
      = Ok wcs
    ∧ Vocabulary_init words classes wcs None = Ok v0
    ∧ v = match h5_unigram_probs g with
          | Some u => set_unigram_probs v0 u
          | None => v0
          end.
Proof.
  unfold from_state.
  destruct (h5_vocabulary state) as [g|] eqn:Hg; cycle 1.
  { split; [done|]. by intros (? & ? & ? & ? & ? & ? & ? & ? & _). }
  destruct (h5_words g) as [words|] eqn:Hwords; cycle 1.
  { split; [done|]. intros (? & ? & ? & ? & ? & ? & ? & [= <-] & ? & _).
    congruence. }
  destruct (h5_classes g) as [classes|] eqn:Hclasses; cycle 1.
  { split; [done|]. intros (? & ? & ? & ? & ? & ? & ? & [= <-] & ? & ? & _).
    congruence. }
  destruct (h5_probs g) as [probs|] eqn:Hprobs; cycle 1.
  { split; [done|].
    intros (? & ? & ? & ? & ? & ? & ? & [= <-] & ? & ? & ? & _). congruence. }
  split.
  - intros H. inv_ok H. exists g, words, classes, probs, a, a0, a1.
    repeat (split; [done|]).
    by destruct (h5_unigram_probs g); injection H as <-.
  - intros (g' & ? & ? & ? & m & wcs & v0 & [= <-] & Hw & Hc & Hp
            & Hm & Hwcs & Hinit & ->).
    rewrite Hwords in Hw. rewrite Hclasses in Hc. rewrite Hprobs in Hp.
    injection Hw as <-. injection Hc as <-. injection Hp as <-.
    rewrite Hm. simpl. rewrite Hwcs. simpl. rewrite Hinit. simpl.
    by destruct (h5_unigram_probs g).
Qed.

(** Every constructed vocabulary maps its words to their IDs and holds the
    three special tokens. *)
Lemma constructed_word_to_id v :
  constructed v →
  word_to_id v = make_word_to_id (id_to_word v)
  ∧ ∀ token, token ∈ special_tokens → token ∈ id_to_word v.
Proof.
  induction 1 as [itw w2c wcs oos v H | pi pf f fmt oos v H | wc n v H
                  | state v H | v wc b v' _ IH H].
  - by eapply Vocabulary_init_word_to_id.
  - unfold from_file in H. inv_ok H. by eapply Vocabulary_init_word_to_id.
  - unfold from_word_counts in H. inv_ok H.
    by eapply Vocabulary_init_word_to_id.
  - apply from_state_Ok in H
      as (g & ? & ? & ? & ? & ? & v0 & _ & _ & _ & _ & _ & _ & Hinit & ->).
    apply Vocabulary_init_word_to_id in Hinit.
    by destruct (h5_unigram_probs g).
  - apply compute_probs_words in H as (-> & _ & ->). done.
Qed.

Lemma constructed_special_id v token :
  constructed v → token ∈ special_tokens →
  ∃ word_id, word_to_id v !! token = Some word_id
             ∧ id_to_word v !! word_id = Some token.
Proof.
  intros [Hmap Hin]%constructed_word_to_id Htoken.
  destruct (proj2 (make_word_to_id_is_Some (id_to_word v) token)) as [i Hi];
    [by apply Hin|].
  exists i. rewrite Hmap. split; [done|]. by apply make_word_to_id_lookup.
Qed.

(** C6: [words_to_ids] is total on every constructed vocabulary: it returns
    one ID per input string; a string in [word_to_id] gets its own ID and
    every other string gets the ID of [<unk>], which exists. *)
Theorem words_to_ids_total v (words : list string) :
  constructed v →
  ∃ unk_id ids,
    word_to_id v !! "<unk>" = Some unk_id
    ∧ words_to_ids v words = Ok ids
    ∧ length ids = length words
    ∧ ∀ i word, words !! i = Some word →
        ids !! i = Some (match word_to_id v !! word with
                         | Some word_id => word_id
                         | None => unk_id
                         end).
Proof.
  intros Hv.
  destruct (constructed_special_id v "<unk>" Hv) as (unk_id & Hunk & _).
  { unfold special_tokens. set_solver. }
  exists unk_id. eexists. split; [done|].
  unfold words_to_ids, py_getitem. rewrite Hunk. simpl.
  split; [done|]. split; [by rewrite length_fmap|].
  intros i word Hi. rewrite list_lookup_fmap, Hi. simpl.
  by destruct (word_to_id v !! word).
Qed.

Lemma words_to_ids_total_witness :
  ∃ unk_id ids,
    word_to_id example_vocabulary !! "<unk>" = Some unk_id
    ∧ words_to_ids example_vocabulary ["dog"; "bird"; "<s>"] = Ok ids
    ∧ length ids = 3
    ∧ ∀ i word, ["dog"; "bird"; "<s>"] !! i = Some word →
        ids !! i = Some (match word_to_id example_vocabulary !! word with
                         | Some word_id => word_id
                         | None => unk_id
                         end).
Proof.
  apply (words_to_ids_total example_vocabulary ["dog"; "bird"; "<s>"]).
  apply (constructed_init ["the"; "<x>"; "dog"] [0; 1; 0] example_classes
                          (Some ["cat"; "dog"])).
  apply (bool_decide_unpack _). vm_compute. reflexivity.
Defined.

(** ** Construction from word counts *)

Lemma insert_by_count_perm x l : insert_by_count x l ≡ₚ x :: l.
Proof.
  induction l as [|y l IH]; simpl; [done|].
  case_decide; [done|]. rewrite IH. apply perm_swap.
Qed.

Lemma sorted_by_count_perm d : sorted_by_count d ≡ₚ d.
Proof.
  induction d as [|x d IH]; simpl; [done|].
  rewrite insert_by_count_perm. by f_equiv.
Qed.

Lemma insert_by_count_sorted x l :
  StronglySorted by_count l → StronglySorted by_count (insert_by_count x l).
Proof.
  induction 1 as [|y l Hl IH Hy]; simpl.
  { repeat constructor. }
  case_decide as Hxy.
  - constructor; [by constructor|]. constructor; [done|].
    eapply Forall_impl; [exact Hy|]. unfold by_count. intros; simpl in *. lia.
  - constructor; [done|].
    rewrite insert_by_count_perm. constructor; [|done].
    unfold by_count. lia.
Qed.

Lemma sorted_by_count_sorted d : StronglySorted by_count (sorted_by_count d).
Proof.
  induction d as [|x d IH]; simpl; [constructor|].
  by apply insert_by_count_sorted.
Qed.

Lemma py_del_elem key d w :
  w ∈ (py_del key d).*1 ↔ w ∈ d.*1 ∧ w ≠ key.
Proof.
  unfold py_del. rewrite !list_elem_of_fmap. split.
  - intros ([w' c] & -> & [? ?]%list_elem_of_filter). simpl in *.
    split; [|done]. by exists (w', c).
  - intros [([w' c] & -> & ?) ?]. exists (w', c). split; [done|].
    by apply list_elem_of_filter.
Qed.

Lemma strip_special_elem d w :
  w ∈ (strip_special d).*1 ↔ w ∈ d.*1 ∧ w ∉ special_tokens.
Proof.
  unfold strip_special, special_tokens. rewrite !py_del_elem.
  rewrite !not_elem_of_cons. pose proof (not_elem_of_nil w). naive_solver.
Qed.

Lemma round_robin_init N :
  round_robin N 0 {| b_id_to_word := []; b_word_id_to_class_id := [];
                     b_word_classes := []; b_class_id := 0 |}.
Proof.
  split; simpl; try done; try (intros; lia).
  by rewrite Nat.Div0.mod_0_l.
Qed.

Local Arguments Nat.min : simpl never.
Local Arguments Nat.modulo : simpl never.

Lemma assign_word_round_robin N k b item :
  N ≠ 0 → round_robin N k b →
  ∃ b', assign_word N b item = Ok b'
        ∧ round_robin N (S k) b'
        ∧ b_id_to_word b' = b_id_to_word b ++ [item.1].
Proof.
  intros HN [Hw Hids Hidsl Hcid Hcl Hmem Hass].
  assert (k `mod` N < N) as Hmod by (by apply Nat.mod_upper_bound).
  assert ((k `mod` N + 1) `mod` N = S k `mod` N) as Hnext.
  { rewrite Nat.Div0.add_mod_idemp_l. f_equal. lia. }
  unfold assign_word. rewrite Hw, Hidsl, Hcid, Hcl.
  rewrite (bool_decide_eq_true_2 (k = k)) by done.
  destruct (decide (k `mod` N < k `min` N)) as [Hlt|Hge].
  - (* the class exists already *)
    assert (N ≤ k) as HNk.
    { destruct (decide (N ≤ k)); [done|].
      rewrite Nat.mod_small in Hlt by lia. lia. }
    destruct (lookup_lt_is_Some_2 (b_word_classes b) (k `mod` N))
      as [wc Hwc]; [lia|].
    rewrite (proj2 (py_index_Ok _ _ _) Hwc). simpl.
    assert (WordClass.mem k wc = false) as Hfresh.
    { unfold WordClass.mem. apply bool_decide_eq_false.
      intros ([j p] & -> & Hin)%list_elem_of_fmap. simpl in *.
      destruct (Hmem _ _ _ _ Hwc Hin). lia. }
    unfold WordClass.add. rewrite Hfresh. simpl.
    rewrite decide_False by done. eexists. split; [done|].
    split; [|done]. split; simpl.
    + rewrite length_app. simpl. lia.
    + intros j Hj. destruct (decide (j = k)) as [->|].
      * by rewrite lookup_app_r, Hidsl, Nat.sub_diag by lia.
      * rewrite lookup_app_l by lia. apply Hids. lia.
    + rewrite length_app. simpl. lia.
    + done.
    + rewrite length_insert. lia.
    + intros c wc' j p Hc Hin.
      destruct (decide (c = k `mod` N)) as [->|Hne].
      * rewrite list_lookup_insert_eq in Hc by lia. injection Hc as <-.
        simpl in Hin. apply elem_of_app in Hin as [Hin|Hin].
        -- destruct (Hmem _ _ _ _ Hwc Hin) as (? & ? & ?). split; [lia|done].
        -- apply list_elem_of_singleton in Hin. injection Hin as -> ->.
           split; [lia|done].
      * rewrite list_lookup_insert_ne in Hc by done.
        destruct (Hmem _ _ _ _ Hc Hin) as (? & ? & ?). split; [lia|done].
    + intros j Hj.
      destruct (decide (j `mod` N = k `mod` N)) as [Heq|Hne].
      * rewrite Heq. rewrite list_lookup_insert_eq by lia.
        eexists. split; [done|]. simpl. apply elem_of_app.
        destruct (decide (j = k)) as [->|].
        -- right. by apply list_elem_of_singleton.
        -- left. destruct (Hass j) as (wc' & Hwc' & Hin); [lia|].
           rewrite Heq, Hwc in Hwc'. by injection Hwc' as <-.
      * rewrite list_lookup_insert_ne by done. apply Hass.
        destruct (decide (j = k)) as [->|]; [done|lia].
  - (* a new class *)
    assert (k < N) as HkN.
    { destruct (decide (k < N)); [done|]. lia. }
    rewrite Nat.mod_small in * by done.
    rewrite Nat.min_l by lia.
    rewrite (bool_decide_eq_true_2 (k = k)) by done. simpl.
    rewrite decide_False by done. eexists. split; [done|].
    split; [|done]. split; simpl.
    + rewrite length_app. simpl. lia.
    + intros j Hj. destruct (decide (j = k)) as [->|].
      * rewrite lookup_app_r, Hidsl, Nat.sub_diag by lia.
        simpl. by rewrite Nat.mod_small.
      * rewrite lookup_app_l by lia. apply Hids. lia.
    + rewrite length_app. simpl. lia.
    + f_equal. lia.
    + rewrite length_app. simpl. lia.
    + intros c wc' j p Hc Hin.
      destruct (decide (c = k)) as [->|Hne].
      * rewrite lookup_app_r, Hcl in Hc by lia.
        rewrite Nat.min_l, Nat.sub_diag in Hc by lia. injection Hc as <-.
        apply list_elem_of_singleton in Hin. injection Hin as -> ->.
        split; [lia|]. split; [done|]. by apply Nat.mod_small.
      * assert (c < k) as Hck.
        { apply lookup_lt_Some in Hc. rewrite length_app in Hc.
          simpl in Hc. lia. }
        rewrite lookup_app_l in Hc by lia.
        destruct (Hmem _ _ _ _ Hc Hin) as (? & ? & ?). split; [lia|done].
    + intros j Hj. destruct (decide (j = k)) as [->|].
      * rewrite Nat.mod_small by done.
        rewrite lookup_app_r, Hcl by lia.
        rewrite Nat.min_l, Nat.sub_diag by lia.
        eexists. split; [done|]. by apply list_elem_of_singleton.
      * destruct (Hass j) as (wc' & Hwc' & Hin); [lia|].
        exists wc'. split; [|done].
        apply lookup_app_l_Some. done.
Qed.

Lemma with_specials_prefix st :
  st.1.1 `prefix_of` (with_specials st).1.1
  ∧ st.1.2 `prefix_of` (with_specials st).1.2
  ∧ st.2 `prefix_of` (with_specials st).2.
Proof.
  unfold with_specials.
  destruct (with_special_prefix "<s>" st) as (P1 & Q1 & R1).
  destruct (with_special_prefix "</s>" (with_special "<s>" st))
    as (P2 & Q2 & R2).
  destruct (with_special_prefix "<unk>"
              (with_special "</s>" (with_special "<s>" st)))
    as (P3 & Q3 & R3).
  repeat split; by do 2 (etrans; [eassumption|]).
Qed.

Lemma Vocabulary_init_prefix itw w2c wcs oos v :
  Vocabulary_init itw w2c wcs oos = Ok v →
  itw `prefix_of` id_to_word v ∧ w2c `prefix_of` word_id_to_class_id v.
Proof.
  rewrite Vocabulary_init_Ok. intros (_ & n & classes & _ & _ & ->). simpl.
  destruct (with_specials_prefix (itw, w2c, wcs)) as (P & Q & _).
  split; [|done]. etrans; [exact P|]. apply with_oos_prefix.
Qed.

(** ** Totality of the constructor *)

Lemma with_special_valid token st :
  lists_valid st → lists_valid (with_special token st).
Proof.
  intros [Hb Hslots]. split; [by apply with_special_balanced|].
  destruct st as [[itw w2c] wcs]. unfold with_special. simpl in *.
  case_bool_decide; simpl; [done|].
  intros slot [Hslot|Hslot]%elem_of_app.
  - destruct (Hslots slot Hslot) as (wc & -> & Hwc).
    exists wc. split; [done|]. intros j p Hin.
    rewrite length_app. specialize (Hwc j p Hin). lia.
  - apply list_elem_of_singleton in Hslot as ->.
    eexists. split; [done|]. simpl. intros j p Hin.
    apply list_elem_of_singleton in Hin. injection Hin as -> ->.
    rewrite length_app. simpl. lia.
Qed.

Lemma scan_special_total itw wcs n :
  (∀ slot, slot ∈ wcs →
     ∃ wc, slot = Some wc
           ∧ ∀ j p, (j, p) ∈ WordClass.probs wc → j < length itw) →
  n ≤ length wcs →
  is_ok (scan_special itw wcs n).
Proof.
  intros Hslots. induction n as [|index IH]; intros Hn; simpl.
  { apply is_ok_Ok. }
  destruct (lookup_lt_is_Some_2 wcs index) as [slot Hslot]; [lia|].
  rewrite (proj2 (py_index_Ok _ _ _) Hslot). simpl.
  destruct (Hslots slot) as (wc & -> & Hwc).
  { by eapply list_elem_of_lookup_2. }
  unfold WordClass.len, WordClass.iter.
  case_bool_decide; [|apply is_ok_Ok].
  destruct (WordClass.probs wc) as [|[word_id prob] ?] eqn:Hp; [done|].
  simpl.
  destruct (lookup_lt_is_Some_2 itw word_id) as [word Hword].
  { apply (Hwc word_id prob). by left. }
  rewrite (proj2 (py_index_Ok _ _ _) Hword). simpl.
  destruct (String.prefix "<" word); [|apply is_ok_Ok].
  apply IH. lia.
Qed.

Lemma Vocabulary_init_total itw w2c wcs oos :
  lists_valid (itw, w2c, wcs) → is_ok (Vocabulary_init itw w2c wcs oos).
Proof.
  intros Hvalid.
  assert (lists_valid (with_specials (itw, w2c, wcs))) as [Hb Hslots].
  { unfold with_specials. by do 3 apply with_special_valid. }
  destruct Hvalid as [Hlen _].
  destruct (scan_special_total
              (with_oos (with_specials (itw, w2c, wcs)).1.1 oos)
              (with_specials (itw, w2c, wcs)).2
              (length (with_specials (itw, w2c, wcs)).2)) as [n Hn]; [|done|].
  { intros slot Hslot. destruct (Hslots slot Hslot) as (wc & -> & Hwc).
    exists wc. split; [done|]. intros j p Hin.
    pose proof (prefix_length _ _
      (with_oos_prefix (with_specials (itw, w2c, wcs)).1.1 oos)).
    specialize (Hwc j p Hin). lia. }
  destruct (mapM_total normalize_slot (with_specials (itw, w2c, wcs)).2)
    as [classes Hclasses].
  { apply Forall_forall. intros slot Hslot.
    destruct (Hslots slot Hslot) as (wc & -> & _). apply is_ok_Ok. }
  eexists. apply Vocabulary_init_Ok. split; [done|].
  exists n, classes. done.
Qed.

Lemma assign_words_round_robin N k b items :
  N ≠ 0 → round_robin N k b →
  ∃ b', foldlM (assign_word N) b items = Ok b'
        ∧ round_robin N (k + length items) b'
        ∧ b_id_to_word b' = b_id_to_word b ++ items.*1.
Proof.
  intros HN. revert k b. induction items as [|item items IH]; intros k b Hrr.
  - exists b. simpl. by rewrite Nat.add_0_r, app_nil_r.
  - destruct (assign_word_round_robin N k b item HN Hrr) as (b1 & H1 & Hrr1 & Hw1).
    destruct (IH (S k) b1 Hrr1) as (b' & H' & Hrr' & Hw').
    exists b'. simpl. rewrite H1. simpl. split; [done|]. split.
    + by replace (k + S (length items)) with (S k + length items) by lia.
    + by rewrite Hw', Hw1, <-app_assoc.
Qed.

Lemma round_robin_valid N k b :
  round_robin N k b →
  lists_valid (b_id_to_word b, b_word_id_to_class_id b,
               Some <$> b_word_classes b).
Proof.
  intros [Hw _ Hidsl _ _ Hmem _]. split; [unfold lists_balanced; simpl; lia|].
  simpl. intros slot (wc & -> & Hwc)%list_elem_of_fmap.
  exists wc. split; [done|]. intros j p Hin.
  apply list_elem_of_lookup in Hwc as [c Hc].
  destruct (Hmem _ _ _ _ Hc Hin). lia.
Qed.

Lemma strip_special_filter d :
  strip_special d = filter (λ kv, kv.1 ∉ special_tokens) d.
Proof.
  unfold strip_special, py_del, special_tokens.
  rewrite !list_filter_filter. apply list_filter_iff. intros [w c]. simpl.
  rewrite !not_elem_of_cons. pose proof (not_elem_of_nil w). naive_solver.
Qed.

(** C4: [from_word_counts] removes the three special tokens from the count
    map, orders the remaining words by ascending count and assigns the word at
    position [k] of that order to class [k mod N], where [N] defaults to the
    number of remaining words; each word enters its class with probability
    1.0 before the constructor normalises. *)
Theorem from_word_counts_round_robin word_counts num_classes :
  let remaining := strip_special word_counts in
  let order := sorted_by_count remaining in
  let N := default (length remaining) num_classes in
  (remaining ≠ [] → N ≠ 0) →
  remaining = filter (λ kv, kv.1 ∉ special_tokens) word_counts
  ∧ StronglySorted by_count order
  ∧ order ≡ₚ remaining
  ∧ ∃ b v,
      build_classes word_counts num_classes = Ok b
      ∧ from_word_counts word_counts num_classes = Ok v
      ∧ ∀ k item, order !! k = Some item →
          id_to_word v !! k = Some item.1
          ∧ word_id_to_class_id v !! k = Some (k `mod` N)
          ∧ ∃ wc, b_word_classes b !! (k `mod` N) = Some wc
                  ∧ (k, 1%Qc) ∈ WordClass.probs wc.
Proof.
  intros remaining order N HN.
  split; [apply strip_special_filter|].
  split; [apply sorted_by_count_sorted|].
  split; [apply sorted_by_count_perm|].
  assert (∃ b, build_classes word_counts num_classes = Ok b
               ∧ round_robin N (length order) b
               ∧ b_id_to_word b = order.*1) as (b & Hb & Hrr & Hwords).
  { unfold build_classes. fold remaining. fold N. fold order.
    destruct (decide (remaining = [])) as [Hnil|Hne].
    - assert (order = []) as ->.
      { apply Permutation_nil_r. unfold order. rewrite Hnil. done. }
      eexists. split; [done|]. split; [apply round_robin_init|done].
    - destruct (assign_words_round_robin N 0 _ order (HN Hne)
                  (round_robin_init N)) as (b & ? & ? & ?).
      by exists b. }
  destruct (Vocabulary_init_total _ _ _ None (round_robin_valid _ _ _ Hrr))
    as [v Hv].
  exists b, v. split; [done|].
  split; [unfold from_word_counts; by rewrite Hb|].
  intros k item Hk.
  assert (k < length order) as Hlt by (by eapply lookup_lt_Some).
  pose proof Hv as Hv'.
  apply Vocabulary_init_prefix in Hv' as [P Q].
  split; [|split].
  - eapply prefix_lookup_Some; [|exact P].
    by rewrite Hwords, list_lookup_fmap, Hk.
  - eapply prefix_lookup_Some; [|exact Q].
    by apply (rr_class_ids _ _ _ Hrr).
  - by apply (rr_assigned _ _ _ Hrr).
Qed.

Lemma from_word_counts_round_robin_witness :
  let remaining := strip_special example_counts in
  let order := sorted_by_count remaining in
  remaining = filter (λ kv, kv.1 ∉ special_tokens) example_counts
  ∧ StronglySorted by_count order
  ∧ order ≡ₚ remaining
  ∧ ∃ b v,
      build_classes example_counts (Some 2) = Ok b
      ∧ from_word_counts example_counts (Some 2) = Ok v
      ∧ ∀ k item, order !! k = Some item →
          id_to_word v !! k = Some item.1
          ∧ word_id_to_class_id v !! k = Some (k `mod` 2)
          ∧ ∃ wc, b_word_classes b !! (k `mod` 2) = Some wc
                  ∧ (k, 1%Qc) ∈ WordClass.probs wc.
Proof.
  apply (from_word_counts_round_robin example_counts (Some 2)).
  simpl. lia.
Defined.

(** The scenario of the specification: [dog] and [cat] land in class 0 and
    [bird] in class 1. *)
Example from_word_counts_scenario :
  ∃ v, from_word_counts example_counts (Some 2) = Ok v
       ∧ id_to_word v = ["dog"; "bird"; "cat"; "<s>"; "</s>"; "<unk>"]
       ∧ word_id_to_class_id v = [0; 1; 0; 2; 3; 4]
       ∧ get_word_prob v 0 = Ok (1 / 2)%Qc
       ∧ get_word_prob v 1 = Ok 1%Qc
       ∧ get_word_prob v 2 = Ok (1 / 2)%Qc.
Proof.
  destruct (from_word_counts example_counts (Some 2)) as [v|] eqn:Hv;
    [|by vm_compute in Hv].
  exists v. split; [done|].
  assert (Ok v = from_word_counts example_counts (Some 2)) as Hv' by done.
  repeat split.
  - change (id_to_word v) with
      (match Ok v with Ok v => id_to_word v | Raise _ => [] end).
    rewrite Hv'. by vm_compute.
  - change (word_id_to_class_id v) with
      (match Ok v with Ok v => word_id_to_class_id v | Raise _ => [] end).
    rewrite Hv'. by vm_compute.
  - change (get_word_prob v 0) with
      (match Ok v with Ok v => get_word_prob v 0 | Raise e => Raise e end).
    rewrite Hv'. by_eval.
  - change (get_word_prob v 1) with
      (match Ok v with Ok v => get_word_prob v 1 | Raise e => Raise e end).
    rewrite Hv'. by_eval.
  - change (get_word_prob v 2) with
      (match Ok v with Ok v => get_word_prob v 2 | Raise e => Raise e end).
    rewrite Hv'. by_eval.
Qed.

(** ** Construction from a vocabulary file *)

Section from_file_errors.

Variable py_int : string → option Z.
Variable py_float : string → option Qc.
Variable input_format : string.

Local Abbreviation parse := (parse_fields py_int py_float input_format).
Local Abbreviation read := (read_line py_int py_float input_format).
Local Abbreviation read_all := (read_lines py_int py_float input_format).
Local Abbreviation word_of := (line_word py_int py_float input_format).

Lemma parse_fields_mismatch fields line :
  ¬ matches_format input_format fields →
  parse fields line = Raise (fields_error fields line).
Proof.
  unfold matches_format, parse_fields. intros Hno.
  destruct fields as [|f0 [|f1 [|f2 [|f3 fields]]]]; try done;
    case_decide; try done; exfalso; apply Hno; simpl; auto.
Qed.

Lemma parse_fields_Ok fields line word fid prob :
  parse fields line = Ok (word, fid, prob) →
  matches_format input_format fields ∧ word ∈ fields.
Proof.
  unfold matches_format, parse_fields.
  destruct fields as [|f0 [|f1 [|f2 [|f3 fields]]]]; try done;
    case_decide; try done.
  - intros [= <- <- <-]. split; [auto|]. set_solver.
  - destruct (py_int f1); [|done]. intros [= <- <- <-].
    split; [auto|]. set_solver.
  - destruct (py_float f1); [|done]. intros [= <- <- <-].
    split; [auto|]. set_solver.
Qed.

Lemma read_line_blank r line :
  line_fields line = [] → read r line = Ok r.
Proof.
  unfold read_line, line_fields. intros ->.
  by rewrite decide_True.
Qed.

Lemma read_line_mismatch r line :
  line_fields line ≠ [] →
  ¬ matches_format input_format (line_fields line) →
  read r line = Raise (fields_error (line_fields line) (py_strip line)).
Proof.
  unfold read_line, line_fields. intros Hne Hno.
  rewrite decide_False by done. by rewrite parse_fields_mismatch.
Qed.

Lemma read_line_duplicate r line word :
  word_of line = Some word → word ∈ r_words r →
  read r line = Raise (duplicate_error word).
Proof.
  unfold line_word, read_line, line_fields.
  intros Hword Hin.
  destruct (parse_fields _ _ _ _ _) as [[[w fid] prob]|]; [|done].
  case_decide; [done|]. injection Hword as ->. simpl.
  by rewrite decide_True.
Qed.

(** A line that is read adds its word, which was not seen before. *)
Lemma read_line_Ok r line r' :
  read r line = Ok r' →
  (line_fields line = [] ∧ r' = r)
  ∨ ∃ word, word_of line = Some word
            ∧ word ∈ line_fields line
            ∧ word ∉ r_words r
            ∧ r_words r' = {[word]} ∪ r_words r
            ∧ r_id_to_word r' = r_id_to_word r ++ [word].
Proof.
  unfold line_word, read_line, line_fields.
  case_decide as Hblank; [intros [= <-]; by left|].
  intros H. right. inv_ok H. destruct a as [[word fid] prob].
  rewrite Hstep. apply parse_fields_Ok in Hstep as [_ Hin].
  case_decide as Hdup; [done|].
  inv_ok H. destruct a as [[class_id wcs] fids]. inv_ok H.
  injection H as <-. exists word. simpl. done.
Qed.

(** The words seen so far are the words of the lines read so far. *)
Lemma read_lines_words lines r :
  read_all lines = Ok r →
  ∀ word, word ∈ r_words r ↔ ∃ line, line ∈ lines ∧ word_of line = Some word.
Proof.
  unfold read_lines. revert r.
  induction lines as [|line lines IH] using rev_ind; intros r.
  - intros [= <-] word. simpl. split; [set_solver|].
    by intros (? & ?%elem_of_nil & _).
  - rewrite foldlM_snoc. intros H. inv_ok H. intros word.
    specialize (IH _ Hstep word).
    apply read_line_Ok in H as [[Hblank ->]|(w & Hw & _ & Hfresh & Hws & _)].
    + rewrite IH. split.
      * intros (l & Hl & Hlw). exists l. split; [|done].
        apply elem_of_app. by left.
      * intros (l & [Hl|Hl]%elem_of_app & Hlw); [by exists l|].
        apply list_elem_of_singleton in Hl as ->.
        unfold line_word in Hlw. rewrite Hblank in Hlw.
        by destruct (parse_fields _ _ _ _ _) as [[[??]?]|].
    + rewrite Hws, elem_of_union, elem_of_singleton, IH. split.
      * intros [->|(l & Hl & Hlw)].
        -- exists line. split; [|done]. apply elem_of_app. right.
           by apply list_elem_of_singleton.
        -- exists l. split; [|done]. apply elem_of_app. by left.
      * intros (l & [Hl|Hl]%elem_of_app & Hlw); [right; by exists l|].
        apply list_elem_of_singleton in Hl as ->. left. congruence.
Qed.

Lemma read_lines_id_to_word lines r :
  read_all lines = Ok r →
  ∀ word, word ∈ r_id_to_word r →
    ∃ line, line ∈ lines ∧ word ∈ line_fields line.
Proof.
  unfold read_lines. revert r.
  induction lines as [|line lines IH] using rev_ind; intros r.
  - intros [= <-] word. simpl. by intros ?%elem_of_nil.
  - rewrite foldlM_snoc. intros H. inv_ok H. intros word.
    specialize (IH _ Hstep word).
    apply read_line_Ok in H as [[Hblank ->]|(w & _ & Hw & _ & _ & ->)].
    + intros (l & ? & ?)%IH. exists l. split; [|done].
      apply elem_of_app. by left.
    + intros [(l & ? & ?)%IH| ->%list_elem_of_singleton]%elem_of_app.
      * exists l. split; [|done]. apply elem_of_app. by left.
      * exists line. split; [|done]. apply elem_of_app. right.
        by apply list_elem_of_singleton.
Qed.

Lemma read_lines_cons_blank line lines r :
  line_fields line = [] →
  foldlM read r (line :: lines) = foldlM read r lines.
Proof. intros Hblank. simpl. by rewrite read_line_blank. Qed.

End from_file_errors.

Lemma foldlM_app_Ok {A S} (f : S → A → result S) s l1 l2 r :
  foldlM f s (l1 ++ l2) = Ok r →
  ∃ s', foldlM f s l1 = Ok s' ∧ foldlM f s' l2 = Ok r.
Proof. rewrite foldlM_app. intros H. inv_ok H. eauto. Qed.

(** C7: in [from_file], a non-blank line whose field count does not fit the
    declared format raises the input error that cites the field count and the
    stripped line; a word that an earlier line already contributed raises the
    duplicate-word error; a blank line is skipped; and in the two error
    cases no vocabulary is returned, whatever the rest of the file holds. *)
Theorem from_file_rejects py_int py_float input_format oos_words
    (before : list string) (line : string) (after : list string) :
  let fields := line_fields line in
  let load := from_file py_int py_float (before ++ line :: after)
                        input_format oos_words in
  (fields ≠ [] → ¬ matches_format input_format fields →
     ¬ is_ok load
     ∧ (is_ok (read_lines py_int py_float input_format before) →
        load = Raise (InputError
                 (pretty (length fields)
                  +:+ " fields on one line of vocabulary file: "
                  +:+ py_strip line))))
  ∧ (∀ word earlier,
       earlier ∈ before →
       line_word py_int py_float input_format earlier = Some word →
       line_word py_int py_float input_format line = Some word →
       ¬ is_ok load
       ∧ (is_ok (read_lines py_int py_float input_format before) →
          load = Raise (InputError
                   ("Word `" +:+ word
                    +:+ "' appears more than once in the vocabulary file."))))
  ∧ (fields = [] →
       load = from_file py_int py_float (before ++ after)
                        input_format oos_words).
Proof.
  intros fields load. unfold load, from_file, read_lines.
  split; [|split].
  - intros Hne Hno. split.
    + intros [v Hv]. inv_ok Hv.
      apply foldlM_app_Ok in Hstep as (r & _ & Hr). simpl in Hr.
      by rewrite read_line_mismatch in Hr.
    + intros [r Hr]. rewrite foldlM_app, Hr. simpl.
      by rewrite read_line_mismatch.
  - intros word earlier Hearlier Hword_earlier Hword.
    assert (∀ r, foldlM (read_line py_int py_float input_format)
                        reader_init before = Ok r →
                 read_line py_int py_float input_format r line
                 = Raise (duplicate_error word)) as Hdup.
    { intros r Hr. apply read_line_duplicate; [done|].
      apply (read_lines_words _ _ _ _ _ Hr). eauto. }
    split.
    + intros [v Hv]. inv_ok Hv.
      apply foldlM_app_Ok in Hstep as (r & Hr & Hr'). simpl in Hr'.
      by rewrite (Hdup r Hr) in Hr'.
    + intros [r Hr]. rewrite foldlM_app, Hr. simpl.
      by rewrite (Hdup r Hr).
  - intros Hblank. rewrite !foldlM_app.
    destruct (foldlM _ reader_init before) as [r|]; [|done].
    simpl. by rewrite read_line_blank.
Qed.

Lemma from_file_rejects_witness :
  from_file decimal_int decimal_float ["the 0"; "a 0"; "dog 1 3"; "cat 1"]
            "classes" None
  = Raise (InputError "3 fields on one line of vocabulary file: dog 1 3")
  ∧ from_file decimal_int decimal_float ["the 0"; "a 0"; " the 1 "]
              "classes" None
    = Raise (InputError
               "Word `the' appears more than once in the vocabulary file.")
  ∧ from_file decimal_int decimal_float ["the 0"; "a 0"; "  "; "dog 1"]
              "classes" None
    = from_file decimal_int decimal_float ["the 0"; "a 0"; "dog 1"]
                "classes" None.
Proof.
  split; [|split].
  - destruct (from_file_rejects decimal_int decimal_float "classes" None
                ["the 0"; "a 0"] "dog 1 3" ["cat 1"]) as (H & _ & _).
    apply H.
    + vm_compute. discriminate.
    + vm_compute. intros [[? ?]|[[? ?]|[? ?]]]; discriminate.
    + eexists. vm_compute. reflexivity.
  - destruct (from_file_rejects decimal_int decimal_float "classes" None
                ["the 0"; "a 0"] " the 1 " []) as (_ & H & _).
    apply (H "the" "the 0").
    + vm_compute. left.
    + vm_compute. reflexivity.
    + vm_compute. reflexivity.
    + eexists. vm_compute. reflexivity.
  - destruct (from_file_rejects decimal_int decimal_float "classes" None
                ["the 0"; "a 0"] "  " ["dog 1"]) as (_ & _ & H).
    apply H. vm_compute. reflexivity.
Defined.

(** Lines are stripped and split at Unicode whitespace too: a no-break space
    (U+00A0) separates two fields, a next-line character (U+0085) at the end
    of a line is stripped, and a line that holds an ideographic space
    (U+3000) only is empty. *)
Example line_fields_unicode :
  line_fields ("the" +:+ utf8 160 +:+ "0") = ["the"; "0"]
  ∧ line_fields (utf8 160 +:+ "a 0" +:+ utf8 133) = ["a"; "0"]
  ∧ line_fields (utf8 12288) = [].
Proof. by vm_compute. Qed.

Example from_file_unicode :
  ∃ v,
    from_file decimal_int decimal_float
              ["the" +:+ utf8 160 +:+ "0"; utf8 12288;
               utf8 160 +:+ "a 0" +:+ utf8 133]
              "classes" None = Ok v
    ∧ id_to_word v = ["the"; "a"; "<s>"; "</s>"; "<unk>"]
    ∧ word_id_to_class_id v = [0; 0; 1; 2; 3].
Proof.
  destruct (from_file _ _ _ _ _) as [v|e] eqn:Hv; [|by vm_compute in Hv].
  exists v. split; [done|].
  assert (Ok v ≫= (λ v, Ok (id_to_word v, word_id_to_class_id v))
          = Ok (["the"; "a"; "<s>"; "</s>"; "<unk>"], [0; 0; 1; 2; 3]))
    as Heval.
  { rewrite <-Hv. by_eval. }
  by injection Heval as -> ->.
Qed.

(** ** Loading a persisted state *)

Lemma imap_pair_ids {A} (l : list A) : (imap pair l).*1 = seq 0 (length l).
Proof.
  rewrite fmap_imap. rewrite (imap_ext _ (λ i _, i)) by done.
  by rewrite imap_seq_0, list_fmap_id.
Qed.

Lemma restored_slot_snoc c members j p :
  restored_slot c (members ++ [(j, p)])
  = Some (WordClass.mk c (members ++ [(j, p)])).
Proof. by destruct members. Qed.

Lemma restore_words_spec classes num done items slots :
  NoDup (done ++ items).*1 →
  (∀ j p, (j, p) ∈ items → ∃ c, classes !! j = Some c ∧ c < num) →
  length slots = num →
  (∀ c, c < num →
     slots !! c = Some (restored_slot c (class_members classes done c))) →
  ∃ slots',
    foldlM (restore_word classes) slots items = Ok slots'
    ∧ length slots' = num
    ∧ ∀ c, c < num →
        slots' !! c
        = Some (restored_slot c (class_members classes (done ++ items) c)).
Proof.
  revert done slots.
  induction items as [|[j p] items IH]; intros done slots Hnodup Hcls Hlen Hinv.
  { exists slots. rewrite app_nil_r. done. }
  destruct (Hcls j p) as (cj & Hcj & Hlt); [by left|].
  assert (class_members classes (done ++ [(j, p)]) cj
          = class_members classes done cj ++ [(j, p)]) as Hmine.
  { unfold class_members. rewrite filter_app, filter_cons. simpl.
    by rewrite decide_True. }
  assert (∀ c, c ≠ cj → class_members classes (done ++ [(j, p)]) c
                        = class_members classes done c) as Hother.
  { intros c Hne. unfold class_members. rewrite filter_app, filter_cons. simpl.
    rewrite decide_False by congruence. apply app_nil_r. }
  assert (j ∉ done.*1) as Hfresh.
  { rewrite fmap_app in Hnodup. simpl in Hnodup.
    apply NoDup_app in Hnodup as (_ & Hdisj & _).
    intros Hin. apply (Hdisj j Hin). by left. }
  assert (∃ slots1,
            restore_word classes slots (j, p) = Ok slots1
            ∧ slots1 = <[cj := restored_slot cj
                                 (class_members classes (done ++ [(j, p)]) cj)]>
                         slots) as (slots1 & Hstep & ->).
  { unfold restore_word. rewrite (proj2 (py_index_Ok _ _ _) Hcj). simpl.
    rewrite (proj2 (py_index_Ok _ _ _) (Hinv cj Hlt)). simpl.
    rewrite Hmine, restored_slot_snoc.
    destruct (class_members classes done cj) as [|m ms] eqn:Hms; simpl.
    { eexists. done. }
    unfold WordClass.add, WordClass.mem. simpl.
    rewrite bool_decide_eq_false_2; [eexists; done|].
    intros Hin. apply Hfresh.
    change (j ∈ (m :: ms).*1) in Hin.
    rewrite <-Hms in Hin. unfold class_members in Hin.
    apply list_elem_of_fmap in Hin as (jp & -> & Hjp).
    apply list_elem_of_filter in Hjp as [_ Hjp].
    apply list_elem_of_fmap. by exists jp. }
  destruct (IH (done ++ [(j, p)])
               (<[cj := restored_slot cj
                         (class_members classes (done ++ [(j, p)]) cj)]> slots))
    as (slots' & Hloop & Hlen' & Hinv').
  - by rewrite <-app_assoc.
  - intros j' p' Hin. apply (Hcls j' p'). by right.
  - by rewrite length_insert.
  - intros c Hc. destruct (decide (c = cj)) as [->|Hne].
    + by rewrite list_lookup_insert_eq by lia.
    + rewrite list_lookup_insert_ne by done. rewrite Hother by done.
      by apply Hinv.
  - exists slots'. cbn [foldlM]. rewrite Hstep. simpl.
    rewrite <-app_assoc in Hinv'. done.
Qed.

Lemma np_max_Ok l m :
  np_max l = Ok m → m ∈ l ∧ ∀ c, c ∈ l → c ≤ m.
Proof.
  destruct l as [|x l]; [done|]. simpl. intros [= <-].
  revert x. induction l as [|y l IH]; intros x; simpl.
  { split; [by left|]. by intros c ->%list_elem_of_singleton. }
  destruct (IH (x `max` y)) as [Hin Hmax]. split.
  - apply elem_of_cons in Hin as [Hin|Hin]; [|by do 2 right].
    rewrite Hin. destruct (Nat.max_spec x y) as [[_ ->]|[_ ->]];
      [right; left | left].
  - intros c [->|[->|Hc]%elem_of_cons]%elem_of_cons.
    + etrans; [|apply Hmax; by left]. lia.
    + etrans; [|apply Hmax; by left]. lia.
    + apply Hmax. by right.
Qed.

Lemma assoc_get_fmap (f : Qc → Qc) l j :
  WordClass.assoc_get ((λ wp, (wp.1, f wp.2)) <$> l) j
  = f <$> WordClass.assoc_get l j.
Proof.
  induction l as [|[w p] l IH]; [done|]. csimpl.
  by case_decide.
Qed.

Lemma assoc_get_NoDup l j p :
  NoDup l.*1 → (j, p) ∈ l → WordClass.assoc_get l j = Some p.
Proof.
  induction l as [|[w q] l IH]; [by intros _ ?%elem_of_nil|].
  csimpl. intros [Hw Hnd]%NoDup_cons [Heq|Hin]%elem_of_cons.
  - injection Heq as <- <-. by rewrite decide_True.
  - rewrite decide_False; [by apply IH|].
    intros ->. apply Hw. apply list_elem_of_fmap. by exists (j, p).
Qed.

Lemma assoc_get_Some l j p :
  WordClass.assoc_get l j = Some p → (j, p) ∈ l.
Proof.
  induction l as [|[w q] l IH]; [done|]. simpl.
  case_decide as Hw; [intros [= <-]; subst; by left|].
  intros ?%IH. by right.
Qed.

Lemma get_prob_normalize wc j p :
  WordClass.assoc_get (WordClass.probs wc) j = Some p →
  WordClass.get_prob (WordClass.normalize_probs wc) j
  = Ok (if decide (WordClass.total wc = 0%Qc)
        then (1 / Qc_of_nat (WordClass.len wc))%Qc
        else (p / WordClass.total wc)%Qc).
Proof.
  intros Hget. unfold WordClass.get_prob, WordClass.normalize_probs.
  case_decide; simpl.
  - rewrite (assoc_get_fmap (λ _, (1 / Qc_of_nat (WordClass.len wc))%Qc)).
    by rewrite Hget.
  - rewrite (assoc_get_fmap (λ q, (q / WordClass.total wc)%Qc)).
    by rewrite Hget.
Qed.

Lemma class_members_get classes (probs : list Qc) c j p :
  classes !! j = Some c → probs !! j = Some p →
  WordClass.assoc_get (class_members classes (imap pair probs) c) j = Some p.
Proof.
  intros Hc Hp. apply assoc_get_NoDup.
  - eapply sublist_NoDup; [apply (NoDup_seq 0 (length probs))|].
    rewrite <-imap_pair_ids. apply fmap_sublist, sublist_filter.
  - apply list_elem_of_filter. split; [done|].
    apply list_elem_of_lookup. exists j.
    by rewrite list_lookup_imap, Hp.
Qed.

(** What [from_state] hands to the constructor for a state whose arrays
    have equal lengths and whose class IDs leave no gap. *)
Lemma restore_state classes (probs : list Qc) m :
  np_max classes = Ok m →
  length probs = length classes →
  ∃ slots,
    foldlM (restore_word classes) (replicate (m + 1) None) (imap pair probs)
    = Ok slots
    ∧ length slots = m + 1
    ∧ ∀ c, c ≤ m →
        slots !! c
        = Some (restored_slot c (class_members classes (imap pair probs) c)).
Proof.
  intros Hm Hlen. apply np_max_Ok in Hm as [_ Hmax].
  destruct (restore_words_spec classes (m + 1) [] (imap pair probs)
              (replicate (m + 1) None)) as (slots & Hloop & Hslots & Hinv).
  - simpl. rewrite imap_pair_ids. apply NoDup_seq.
  - intros j p Hin. apply list_elem_of_lookup in Hin as [i Hi].
    rewrite list_lookup_imap in Hi.
    destruct (probs !! i) as [q|] eqn:Hq; [|done]. injection Hi as <- <-.
    destruct (lookup_lt_is_Some_2 classes i) as [c Hc].
    { apply lookup_lt_Some in Hq. lia. }
    exists c. split; [done|].
    assert (c ≤ m); [|lia]. apply Hmax. by eapply list_elem_of_lookup_2.
  - apply length_replicate.
  - intros c Hc. simpl. by rewrite lookup_replicate_2.
  - exists slots. split; [done|]. split; [done|].
    intros c Hc. apply Hinv. lia.
Qed.

Lemma Vocabulary_init_class itw w2c wcs oos v c wc :
  Vocabulary_init itw w2c wcs oos = Ok v →
  wcs !! c = Some (Some wc) →
  _word_classes v !! c = Some (WordClass.normalize_probs wc).
Proof.
  rewrite Vocabulary_init_Ok. intros (_ & n & classes & _ & Hnorm & ->) Hc.
  simpl. destruct (with_specials_prefix (itw, w2c, wcs)) as (_ & _ & P).
  simpl in P. pose proof (prefix_lookup_Some _ _ _ _ Hc P) as Hc'.
  destruct (normalize_slots_lookup _ _ c Hnorm) as (wc' & Hwc' & Hcls).
  { by eapply lookup_lt_Some. }
  congruence.
Qed.

Lemma get_word_prob_set_unigram_probs v u word_id :
  get_word_prob (set_unigram_probs v u) word_id = get_word_prob v word_id.
Proof. done. Qed.

(** The probabilities a well-formed state yields: the constructor at the end
    of [from_state] divides every stored probability by the stored total of
    its class. *)
Lemma from_state_class_probs state g words classes probs :
  h5_vocabulary state = Some g →
  h5_words g = Some words →
  h5_classes g = Some classes →
  h5_probs g = Some probs →
  length words = length classes →
  length probs = length classes →
  classes ≠ [] →
  (∀ c c', c' ∈ classes → c ≤ c' → c ∈ classes) →
  ∃ v, from_state state = Ok v
       ∧ ∀ word_id c p,
           classes !! word_id = Some c → probs !! word_id = Some p →
           let stored := (class_members classes (imap pair probs) c).*2 in
           get_word_prob v word_id
           = Ok (if decide (sum_Qc stored = 0%Qc)
                 then (1 / Qc_of_nat (length stored))%Qc
                 else (p / sum_Qc stored)%Qc).
Proof.
  intros Hg Hwords Hclasses Hprobs Hlenw Hlenp Hne Hgaps.
  destruct (np_max classes) as [m|] eqn:Hm; [|by destruct classes].
  destruct (restore_state classes probs m Hm Hlenp)
    as (slots & Hloop & Hslots & Hinv).
  pose proof (np_max_Ok _ _ Hm) as [Hmin Hmax].
  (* every class has a stored member *)
  assert (∀ c, c ≤ m →
            ∃ j p, (j, p) ∈ class_members classes (imap pair probs) c)
    as Hfull.
  { intros c Hc.
    destruct (proj1 (list_elem_of_lookup _ _) (Hgaps c m Hmin Hc)) as [j Hj].
    destruct (lookup_lt_is_Some_2 probs j) as [p Hp].
    { apply lookup_lt_Some in Hj. lia. }
    exists j, p. apply list_elem_of_filter. split; [done|].
    apply list_elem_of_lookup. exists j. by rewrite list_lookup_imap, Hp. }
  assert (∀ c, c ≤ m →
            slots !! c
            = Some (Some (WordClass.mk c
                            (class_members classes (imap pair probs) c))))
    as Hinv'.
  { intros c Hc. rewrite (Hinv c Hc). destruct (Hfull c Hc) as (j & p & Hin).
    by destruct (class_members classes (imap pair probs) c);
      [apply elem_of_nil in Hin|]. }
  destruct (Vocabulary_init_total words classes slots None) as [v0 Hv0].
  { split; [done|]. simpl. intros slot Hslot.
    apply list_elem_of_lookup in Hslot as [c Hc].
    assert (c ≤ m) as Hcm by (apply lookup_lt_Some in Hc; lia).
    rewrite (Hinv' c Hcm) in Hc. injection Hc as <-.
    eexists. split; [done|]. simpl. intros j p Hin.
    apply list_elem_of_filter in Hin as [_ Hin].
    apply list_elem_of_lookup in Hin as [i Hi].
    rewrite list_lookup_imap in Hi.
    destruct (probs !! i) as [q|] eqn:Hq; [|done]. injection Hi as <- <-.
    apply lookup_lt_Some in Hq. lia. }
  eexists. split.
  { apply from_state_Ok. exists g, words, classes, probs, m, slots, v0.
    done. }
  intros word_id c p Hc Hp stored.
  assert (get_word_prob v0 word_id
          = Ok (if decide (sum_Qc stored = 0%Qc)
                then (1 / Qc_of_nat (length stored))%Qc
                else (p / sum_Qc stored)%Qc)) as Hget.
  { unfold get_word_prob.
    destruct (Vocabulary_init_prefix _ _ _ _ _ Hv0) as [_ Q].
    rewrite (proj2 (py_index_Ok _ _ _) (prefix_lookup_Some _ _ _ _ Hc Q)).
    simpl.
    assert (c ≤ m) as Hcm by (apply Hmax; by eapply list_elem_of_lookup_2).
    rewrite (proj2 (py_index_Ok _ _ _)
               (Vocabulary_init_class _ _ _ _ _ _ _ Hv0 (Hinv' c Hcm))).
    simpl. rewrite (get_prob_normalize _ _ p).
    - unfold WordClass.total, WordClass.len. simpl. unfold stored.
      by rewrite length_fmap.
    - simpl. by apply class_members_get. }
  by destruct (h5_unigram_probs g).
Qed.


Lemma Qcdiv_fixed (p s : Qc) :
  s ≠ 0%Qc → (p / s)%Qc = p ↔ p = 0%Qc ∨ s = 1%Qc.
Proof.
  intros Hs. split.
  - intros H.
    assert (p * (s - 1) = 0)%Qc as Hzero.
    { transitivity (p / s * s - p)%Qc; [rewrite H; ring|]. by field. }
    apply Qcmult_integral in Hzero as [?|Hone]; [by left|right].
    transitivity (s - 1 + 1)%Qc; [ring|]. rewrite Hone. ring.
  - intros [->| ->]; [by field|]. by rewrite Qcdiv_right_id.
Qed.

(** C2 (amended): [from_state] returns, for a well-formed state, a vocabulary
    in which the probability of each shortlist word is the stored value
    divided by the stored total of the word's class (or [1/size] when that
    total is zero), because the constructor normalises every class.  The
    stored value comes back unchanged whenever the stored probabilities of
    the class sum to 1; when they sum to anything but zero, it comes back
    unchanged exactly if it is zero or they sum to 1. *)
Theorem from_state_normalizes state g words classes probs :
  h5_vocabulary state = Some g →
  h5_words g = Some words →
  h5_classes g = Some classes →
  h5_probs g = Some probs →
  length words = length classes →
  length probs = length classes →
  classes ≠ [] →
  (∀ c c', c' ∈ classes → c ≤ c' → c ∈ classes) →
  ∃ v, from_state state = Ok v
       ∧ ∀ word_id c p,
           classes !! word_id = Some c → probs !! word_id = Some p →
           let stored := (class_members classes (imap pair probs) c).*2 in
           get_word_prob v word_id
           = Ok (if decide (sum_Qc stored = 0%Qc)
                 then (1 / Qc_of_nat (length stored))%Qc
                 else (p / sum_Qc stored)%Qc)
           ∧ (sum_Qc stored = 1%Qc → get_word_prob v word_id = Ok p)
           ∧ (sum_Qc stored ≠ 0%Qc →
              (get_word_prob v word_id = Ok p
               ↔ p = 0%Qc ∨ sum_Qc stored = 1%Qc)).
Proof.
  intros Hg Hwords Hclasses Hprobs Hlenw Hlenp Hne Hgaps.
  destruct (from_state_class_probs state g words classes probs)
    as (v & Hv & Hget); [done..|].
  exists v. split; [done|].
  intros word_id c p Hc Hp stored.
  specialize (Hget word_id c p Hc Hp). fold stored in Hget.
  split; [done|]. split.
  - intros Hone. rewrite Hget, Hone.
    rewrite decide_False by done. f_equal. by rewrite Qcdiv_right_id.
  - intros Hnz. rewrite Hget, decide_False by done.
    rewrite <-(Qcdiv_fixed p (sum_Qc stored) Hnz).
    split; [by intros [= ?]|by intros ->].
Qed.

Lemma from_state_normalizes_witness :
  ∃ v, from_state unnormalized_state = Ok v
       ∧ ∀ word_id c p,
           [0; 0; 1; 2; 3] !! word_id = Some c →
           [1%Qc; Qc_of_Z 3; 1%Qc; 1%Qc; 1%Qc] !! word_id = Some p →
           let stored :=
             (class_members [0; 0; 1; 2; 3]
                            (imap pair [1%Qc; Qc_of_Z 3; 1%Qc; 1%Qc; 1%Qc]) c).*2 in
           get_word_prob v word_id
           = Ok (if decide (sum_Qc stored = 0%Qc)
                 then (1 / Qc_of_nat (length stored))%Qc
                 else (p / sum_Qc stored)%Qc)
           ∧ (sum_Qc stored = 1%Qc → get_word_prob v word_id = Ok p)
           ∧ (sum_Qc stored ≠ 0%Qc →
              (get_word_prob v word_id = Ok p
               ↔ p = 0%Qc ∨ sum_Qc stored = 1%Qc)).
Proof.
  apply (from_state_normalizes unnormalized_state
           {| h5_words := Some ["a"; "b"; "<s>"; "</s>"; "<unk>"];
              h5_classes := Some [0; 0; 1; 2; 3];
              h5_probs := Some [1%Qc; Qc_of_Z 3; 1%Qc; 1%Qc; 1%Qc];
              h5_unigram_probs := None |}
           ["a"; "b"; "<s>"; "</s>"; "<unk>"]); try reflexivity.
  - discriminate.
  - intros c c' Hc' Hle.
    assert (c' < 4) as Hlt.
    { apply list_elem_of_lookup in Hc' as [i Hi].
      do 5 (destruct i as [|i]; [injection Hi as <-; lia|]). done. }
    do 4 (destruct c as [|c]; [set_solver|]). lia.
Defined.

(** C2 as stated fails: the state [unnormalized_state] stores the
    probabilities 1 and 3 for the two words of class 0, and the loaded
    vocabulary returns 1/4 for the first of them. *)
Lemma from_state_unchanged_counterexample :
  ∃ v probs,
    from_state unnormalized_state = Ok v
    ∧ h5_vocabulary unnormalized_state ≫= h5_probs = Some probs
    ∧ probs !! 0 = Some 1%Qc
    ∧ get_word_prob v 0 = Ok (1 / Qc_of_Z 4)%Qc
    ∧ get_word_prob v 0 ≠ Ok 1%Qc.
Proof.
  destruct (from_state unnormalized_state) as [v|] eqn:Hv;
    [|by vm_compute in Hv].
  exists v. eexists. split; [done|]. split; [done|]. split; [done|].
  assert (Ok v ≫= (λ v, get_word_prob v 0) = Ok (1 / Qc_of_Z 4)%Qc) as Hquarter.
  { rewrite <-Hv. by_eval. }
  simpl in Hquarter. split; [done|].
  rewrite Hquarter. by vm_compute.
Qed.

(** ** Persisting and reloading *)

Lemma get_state_fresh v state :
  get_state v fresh_store = Ok state →
  ∃ probs,
    length probs = length (word_id_to_class_id v)
    ∧ state = {| h5_root := h5_empty;
                 h5_vocabulary :=
                   Some {| h5_words := Some (id_to_word v);
                           h5_classes := Some (word_id_to_class_id v);
                           h5_probs := Some probs;
                           h5_unigram_probs := _unigram_probs v |} |}.
Proof.
  unfold get_state, fresh_store. simpl. intros H. inv_ok H.
  apply mapM_Ok_length in Hstep. rewrite length_imap in Hstep.
  exists a. split; [done|].
  destruct (_unigram_probs v); injection Hstep0 as <-; by injection H as <-.
Qed.

(** C1 at the inputs where it fails: a vocabulary with out-of-shortlist words
    that [get_state] has written into an empty store cannot be read back,
    because [from_state] passes all the stored words to the constructor
    together with the shorter list of class IDs. *)
Theorem get_state_from_state_oos v state :
  num_shortlist_words v < num_words v →
  get_state v fresh_store = Ok state →
  from_state state = Raise ValueError.
Proof.
  unfold num_shortlist_words, num_words. intros Hoos Hstate.
  apply get_state_fresh in Hstate as (probs & Hlen & ->).
  unfold from_state. simpl.
  destruct (np_max (word_id_to_class_id v)) as [m|] eqn:Hm; cycle 1.
  { destruct (word_id_to_class_id v); [|done]. by injection Hm as <-. }
  simpl.
  destruct (restore_state _ probs m Hm Hlen) as (slots & -> & _). simpl.
  unfold Vocabulary_init. rewrite bool_decide_eq_true_2 by lia. done.
Qed.

Lemma get_state_from_state_oos_witness :
  ∃ state, get_state example_vocabulary fresh_store = Ok state
           ∧ from_state state = Raise ValueError.
Proof.
  destruct (get_state example_vocabulary fresh_store) as [state|] eqn:Hstate;
    [|by vm_compute in Hstate].
  exists state. split; [done|].
  apply (get_state_from_state_oos example_vocabulary state); [|done].
  vm_compute. lia.
Defined.

(** ** The special tokens *)

Lemma with_special_appended token st :
  token ∉ st.1.1 → lists_balanced st →
  appended_alone token (with_special token st).
Proof.
  destruct st as [[itw w2c] wcs]. unfold lists_balanced, with_special.
  simpl. intros Hfresh Hlen. rewrite bool_decide_eq_false_2 by done.
  exists (length itw), (length wcs). simpl. split; [|split; [|split]].
  - by rewrite lookup_app_r, Nat.sub_diag.
  - intros j Hj. destruct (decide (j < length itw)) as [Hlt|Hge].
    + rewrite lookup_app_l in Hj by done.
      exfalso. apply Hfresh. by eapply list_elem_of_lookup_2.
    + apply lookup_lt_Some in Hj. rewrite length_app in Hj. simpl in Hj. lia.
  - by rewrite Hlen, lookup_app_r, Nat.sub_diag.
  - by rewrite lookup_app_r, Nat.sub_diag.
Qed.

Lemma with_special_not_elem token token' st :
  token ∉ st.1.1 → token' ≠ token → token ∉ (with_special token' st).1.1.
Proof.
  destruct st as [[itw w2c] wcs]. unfold with_special. simpl.
  intros Hfresh Hne. case_bool_decide; simpl; [done|].
  rewrite not_elem_of_app, list_elem_of_singleton. done.
Qed.

Lemma snoc_lookup_unique (itw : list string) token token' word_id :
  itw !! word_id = Some token → token' ≠ token →
  (∀ j, itw !! j = Some token → j = word_id) →
  ∀ j, (itw ++ [token']) !! j = Some token → j = word_id.
Proof.
  intros Hid Hne Huniq j Hj.
  destruct (decide (j < length itw)) as [Hlt|Hge].
  - rewrite lookup_app_l in Hj by done. by apply Huniq.
  - rewrite lookup_app_r in Hj by lia.
    apply list_lookup_singleton_Some in Hj as [_ ?]. done.
Qed.

Lemma with_special_keeps_appended token token' st :
  appended_alone token st → appended_alone token (with_special token' st).
Proof.
  destruct st as [[itw w2c] wcs]. unfold with_special.
  intros (word_id & class_id & Hid & Huniq & Hcls & Hwc). simpl in *.
  case_bool_decide as Hin; [by exists word_id, class_id|].
  exists word_id, class_id. simpl.
  split; [by apply lookup_app_l_Some|].
  split; [|split; by apply lookup_app_l_Some].
  apply snoc_lookup_unique; [done| |done].
  intros ->. apply Hin. by eapply list_elem_of_lookup_2.
Qed.

Lemma add_oos_words_keeps_unique itw ws token word_id :
  itw !! word_id = Some token →
  (∀ j, itw !! j = Some token → j = word_id) →
  ∀ j, add_oos_words itw ws !! j = Some token → j = word_id.
Proof.
  revert itw. induction ws as [|w ws IH]; intros itw Hid Huniq; [done|].
  simpl. case_bool_decide as Hin; [by apply IH|].
  apply IH; [by apply lookup_app_l_Some|].
  apply snoc_lookup_unique; [done| |done].
  intros ->. apply Hin. by eapply list_elem_of_lookup_2.
Qed.

Lemma with_specials_appended token st :
  token ∈ special_tokens → token ∉ st.1.1 → lists_balanced st →
  appended_alone token (with_specials st).
Proof.
  unfold special_tokens, with_specials. intros Htoken Hfresh Hb.
  apply elem_of_cons in Htoken as [->|Htoken].
  { do 2 apply with_special_keeps_appended.
    by apply with_special_appended. }
  apply elem_of_cons in Htoken as [->|Htoken].
  { apply with_special_keeps_appended. apply with_special_appended.
    - by apply with_special_not_elem.
    - by apply with_special_balanced. }
  apply list_elem_of_singleton in Htoken as ->.
  apply with_special_appended.
  - by do 2 (apply with_special_not_elem; [|done]).
  - by do 2 apply with_special_balanced.
Qed.

Lemma normalize_init class_id word_id :
  WordClass.normalize_probs (WordClass.init class_id word_id 1%Qc)
  = WordClass.init class_id word_id 1%Qc.
Proof.
  unfold WordClass.normalize_probs, WordClass.total, WordClass.init. simpl.
  by replace (1 / (1 + Q2Qc 0))%Qc with 1%Qc by (symmetry; by_eval).
Qed.

(** What the constructor guarantees for the three special tokens. *)
Lemma Vocabulary_init_special itw w2c wcs oos v token :
  Vocabulary_init itw w2c wcs oos = Ok v →
  token ∈ special_tokens →
  token ∈ id_to_word v ∧ (token ∉ itw → special_alone v token).
Proof.
  intros Hv Htoken.
  split; [by apply (Vocabulary_init_word_to_id _ _ _ _ _ Hv)|].
  intros Hfresh. pose proof Hv as Hv'.
  apply Vocabulary_init_Ok in Hv' as (Hlen & n & classes & _ & Hnorm & Heq).
  destruct (with_specials_appended token (itw, w2c, wcs) Htoken Hfresh Hlen)
    as (word_id & class_id & Hid & Huniq & Hcls & Hwc).
  pose proof (with_specials_prefix (itw, w2c, wcs)) as (_ & _ & P).
  destruct (with_specials (itw, w2c, wcs)) as [[itw3 w2c3] wcs3] eqn:Hst.
  simpl in *.
  assert (with_oos itw3 oos !! word_id = Some token) as Hid'.
  { eapply prefix_lookup_Some; [done|apply with_oos_prefix]. }
  assert (∀ j, with_oos itw3 oos !! j = Some token → j = word_id) as Huniq'.
  { destruct oos as [ws|]; [|done]. by apply add_oos_words_keeps_unique. }
  assert (_word_classes v !! class_id
          = Some (WordClass.init class_id word_id 1%Qc)) as Hclass.
  { destruct (normalize_slots_lookup _ _ class_id Hnorm)
      as (wc & Hwc' & Hc); [by eapply lookup_lt_Some|].
    rewrite Hwc in Hwc'. injection Hwc' as <-.
    rewrite normalize_init in Hc. by rewrite Heq. }
  exists word_id, class_id, (WordClass.init class_id word_id 1%Qc).
  rewrite Heq in *. simpl in *.
  split; [|split; [done|split; [done|split; [done|split; [done|]]]]].
  - destruct (proj2 (make_word_to_id_is_Some (with_oos itw3 oos) token))
      as [i Hi]; [by eapply list_elem_of_lookup_2|].
    rewrite Hi. f_equal. apply Huniq'. by apply make_word_to_id_lookup.
  - unfold get_word_prob. simpl.
    rewrite (proj2 (py_index_Ok _ _ _) Hcls). simpl.
    rewrite (proj2 (py_index_Ok _ _ _) Hclass). simpl.
    unfold WordClass.get_prob. simpl. by rewrite decide_True.
Qed.

Lemma read_lines_id_to_word_word py_int py_float input_format lines r :
  read_lines py_int py_float input_format lines = Ok r →
  ∀ word, word ∈ r_id_to_word r →
    ∃ line, line ∈ lines
            ∧ line_word py_int py_float input_format line = Some word.
Proof.
  unfold read_lines. revert r.
  induction lines as [|line lines IH] using rev_ind; intros r.
  - intros [= <-] word. simpl. by intros ?%elem_of_nil.
  - rewrite foldlM_snoc. intros H. inv_ok H. intros word.
    specialize (IH _ Hstep word).
    apply read_line_Ok in H as [[Hblank ->]|(w & Hw & _ & _ & _ & ->)].
    + intros (l & ? & ?)%IH. exists l. split; [|done].
      apply elem_of_app. by left.
    + intros [(l & ? & ?)%IH| ->%list_elem_of_singleton]%elem_of_app.
      * exists l. split; [|done]. apply elem_of_app. by left.
      * exists line. split; [|done]. apply elem_of_app. right.
        by apply list_elem_of_singleton.
Qed.

Lemma assign_words_id_to_word N b items b' :
  foldlM (assign_word N) b items = Ok b' →
  b_id_to_word b' = b_id_to_word b ++ items.*1.
Proof.
  revert b. induction items as [|item items IH]; intros b.
  { intros [= <-]. by rewrite app_nil_r. }
  cbn [foldlM]. intros H. inv_ok H. rewrite (IH _ H).
  unfold assign_word in Hstep. inv_ok Hstep.
  case_decide; [done|]. injection Hstep as <-. simpl.
  by rewrite <-app_assoc.
Qed.

Lemma special_alone_set_unigram_probs v u token :
  special_alone v token → special_alone (set_unigram_probs v u) token.
Proof. done. Qed.

(** The out-of-shortlist words that the constructor adds are new. *)
Lemma add_oos_words_shape itw ws :
  ∃ ext, add_oos_words itw ws = itw ++ ext
         ∧ NoDup ext
         ∧ ∀ w, w ∈ ext → w ∉ itw ∧ w ∈ ws.
Proof.
  unfold add_oos_words. revert itw.
  induction ws as [|w ws IH]; intros itw; simpl.
  - exists []. rewrite app_nil_r. split; [done|]. split; [constructor|].
    by intros w ?%elem_of_nil.
  - case_bool_decide as Hin.
    + destruct (IH itw) as (ext & -> & Hnd & Hext).
      exists ext. split; [done|]. split; [done|].
      intros x Hx. destruct (Hext x Hx). split; [done|]. by right.
    + destruct (IH (itw ++ [w])) as (ext & -> & Hnd & Hext).
      exists (w :: ext). rewrite <-app_assoc. split; [done|]. split.
      * constructor; [|done]. intros Hw. apply Hext in Hw as [Hw _].
        apply Hw. set_solver.
      * intros x [->|Hx]%elem_of_cons; [split; [done|by left]|].
        destruct (Hext x Hx) as [Hni ?]. split; [set_solver|by right].
Qed.

Lemma with_special_lookup_given w token st i :
  w ∈ st.1.1 →
  (with_special token st).1.1 !! i = Some w → st.1.1 !! i = Some w.
Proof.
  destruct st as [[itw w2c] wcs]. unfold with_special. simpl.
  case_bool_decide as Hin; simpl; [done|]. intros Hw Hi.
  apply lookup_app_Some in Hi as [Hi|[_ Hi]]; [done|].
  apply list_lookup_singleton_Some in Hi as [_ ->]. done.
Qed.

(** A word that is among the given words is not added again, and a given
    word keeps the class ID it was given; its probability is the given one
    divided by the total of its class. *)
Lemma Vocabulary_init_given itw w2c wcs oos v :
  Vocabulary_init itw w2c wcs oos = Ok v →
  (∀ w i, w ∈ itw → id_to_word v !! i = Some w → itw !! i = Some w)
  ∧ ∀ i c wc p,
      w2c !! i = Some c → wcs !! c = Some (Some wc) →
      WordClass.get_prob wc i = Ok p →
      word_id_to_class_id v !! i = Some c
      ∧ get_word_prob v i
        = Ok (if decide (WordClass.total wc = 0%Qc)
              then (1 / Qc_of_nat (WordClass.len wc))%Qc
              else (p / WordClass.total wc)%Qc).
Proof.
  intros Hv. split.
  - intros w i Hw Hi.
    apply Vocabulary_init_Ok in Hv as (_ & n & classes & _ & _ & ->).
    simpl in Hi.
    destruct (with_special_prefix "<s>" (itw, w2c, wcs)) as ([k1 P1] & _).
    destruct (with_special_prefix "</s>" (with_special "<s>" (itw, w2c, wcs)))
      as ([k2 P2] & _).
    destruct (with_special_prefix "<unk>"
                (with_special "</s>" (with_special "<s>" (itw, w2c, wcs))))
      as ([k3 P3] & _).
    simpl in P1.
    assert (w ∈ (with_special "<s>" (itw, w2c, wcs)).1.1) as Hw1.
    { rewrite P1. apply elem_of_app. by left. }
    assert (w ∈ (with_special "</s>"
                   (with_special "<s>" (itw, w2c, wcs))).1.1) as Hw2.
    { rewrite P2. apply elem_of_app. by left. }
    assert (w ∈ (with_specials (itw, w2c, wcs)).1.1) as Hw3.
    { unfold with_specials. rewrite P3. apply elem_of_app. by left. }
    assert ((with_specials (itw, w2c, wcs)).1.1 !! i = Some w) as Hi'.
    { destruct oos as [ws|]; [|done]. simpl in Hi.
      destruct (add_oos_words_shape (with_specials (itw, w2c, wcs)).1.1 ws)
        as (ext & Heq & _ & Hext).
      rewrite Heq in Hi. apply lookup_app_Some in Hi as [Hi|[_ Hi]]; [done|].
      apply list_elem_of_lookup_2 in Hi. by destruct (Hext w Hi). }
    unfold with_specials in Hi'.
    apply with_special_lookup_given in Hi'; [|done].
    apply with_special_lookup_given in Hi'; [|done].
    by apply with_special_lookup_given in Hi'.
  - intros i c wc p Hc Hwc Hp.
    destruct (Vocabulary_init_prefix _ _ _ _ _ Hv) as [_ Q].
    pose proof (prefix_lookup_Some _ _ _ _ Hc Q) as Hc'.
    split; [done|]. unfold get_word_prob.
    rewrite (proj2 (py_index_Ok _ _ _) Hc'). simpl.
    rewrite (proj2 (py_index_Ok _ _ _)
               (Vocabulary_init_class _ _ _ _ _ _ _ Hv Hwc)). simpl.
    apply get_prob_normalize. unfold WordClass.get_prob in Hp.
    destruct (WordClass.assoc_get (WordClass.probs wc) i); [|done].
    by injection Hp as ->.
Qed.

(** C3 (amended): after construction by any of the four strategies each of
    [<s>], [</s>] and [<unk>] is in [id_to_word]; a token that was absent from
    the words given to the strategy (always so for [from_word_counts], which
    strips the three tokens) is the sole member of a class of its own, with
    probability 1.0.  A token that is in the word list given to the
    constructor is not added again: it occurs only where that list has it,
    keeps the class ID given for it, and its probability is the one given
    for it divided by the total of its class ([1/size] if that total is
    zero), which need not be 1.0. *)
Theorem special_tokens_after_construction token :
  token ∈ special_tokens →
  (∀ itw w2c wcs oos v,
     Vocabulary_init itw w2c wcs oos = Ok v →
     token ∈ id_to_word v ∧ (token ∉ itw → special_alone v token))
  ∧ (∀ py_int py_float input_file input_format oos v,
       from_file py_int py_float input_file input_format oos = Ok v →
       token ∈ id_to_word v
       ∧ ((∀ line, line ∈ input_file →
             line_word py_int py_float input_format line ≠ Some token) →
          special_alone v token))
  ∧ (∀ word_counts num_classes v,
       from_word_counts word_counts num_classes = Ok v →
       token ∈ id_to_word v ∧ special_alone v token)
  ∧ (∀ state v,
       from_state state = Ok v →
       token ∈ id_to_word v
       ∧ ((∀ g words, h5_vocabulary state = Some g →
                      h5_words g = Some words → token ∉ words) →
          special_alone v token))
  ∧ (∀ itw w2c wcs oos v,
       Vocabulary_init itw w2c wcs oos = Ok v →
       token ∈ itw →
       (∀ i, id_to_word v !! i = Some token → itw !! i = Some token)
       ∧ ∀ i c wc p,
           itw !! i = Some token →
           w2c !! i = Some c → wcs !! c = Some (Some wc) →
           WordClass.get_prob wc i = Ok p →
           word_id_to_class_id v !! i = Some c
           ∧ get_word_prob v i
             = Ok (if decide (WordClass.total wc = 0%Qc)
                   then (1 / Qc_of_nat (WordClass.len wc))%Qc
                   else (p / WordClass.total wc)%Qc)).
Proof.
  intros Htoken. split; [|split; [|split; [|split]]].
  - intros itw w2c wcs oos v Hv. by apply (Vocabulary_init_special _ _ _ _ _ _ Hv).
  - intros py_int py_float input_file input_format oos v Hv.
    unfold from_file in Hv. inv_ok Hv.
    destruct (Vocabulary_init_special _ _ _ _ _ _ Hv Htoken) as [Hin Halone].
    split; [done|]. intros Habsent. apply Halone.
    intros (line & Hline & Hword)%(read_lines_id_to_word_word _ _ _ _ _ Hstep).
    by apply (Habsent line).
  - intros word_counts num_classes v Hv.
    unfold from_word_counts in Hv. inv_ok Hv.
    destruct (Vocabulary_init_special _ _ _ _ _ _ Hv Htoken) as [Hin Halone].
    split; [done|]. apply Halone.
    unfold build_classes in Hstep.
    rewrite (assign_words_id_to_word _ _ _ _ Hstep). simpl.
    rewrite sorted_by_count_perm. rewrite strip_special_elem. tauto.
  - intros state v Hv.
    apply from_state_Ok in Hv
      as (g & words & classes & probs & m & wcs & v0
          & Hg & Hwords & _ & _ & _ & _ & Hv0 & ->).
    destruct (Vocabulary_init_special _ _ _ _ _ _ Hv0 Htoken) as [Hin Halone].
    split; [by destruct (h5_unigram_probs g)|].
    intros Habsent. specialize (Halone (Habsent g words Hg Hwords)).
    by destruct (h5_unigram_probs g).
  - intros itw w2c wcs oos v Hv Hin.
    destruct (Vocabulary_init_given _ _ _ _ _ Hv) as [Hold Hclass].
    split; [intros i; by apply Hold|].
    intros i c wc p _. apply Hclass.
Qed.

Lemma special_tokens_after_construction_witness :
  ∃ v,
    from_file decimal_int decimal_float ["the 0"; "a 0"; "dog 1"] "classes"
              None = Ok v
    ∧ "<unk>" ∈ id_to_word v
    ∧ special_alone v "<unk>".
Proof.
  destruct (from_file decimal_int decimal_float ["the 0"; "a 0"; "dog 1"]
                      "classes" None) as [v|] eqn:Hv; [|by vm_compute in Hv].
  exists v. split; [done|].
  destruct (special_tokens_after_construction "<unk>") as (_ & Hfile & _).
  { unfold special_tokens. set_solver. }
  destruct (Hfile _ _ _ _ _ _ Hv) as [Hin Halone].
  split; [done|]. apply Halone.
  intros line Hline.
  repeat (apply elem_of_cons in Hline as [->|Hline]; [by vm_compute|]).
  by apply elem_of_nil in Hline.
Defined.

(** C3 as stated fails: in the "classes" file [shared_class_file] the token
    [<s>] shares class 0 with the word [a]; after construction its class has
    two members and its probability is 1/2. *)
Lemma special_tokens_singleton_counterexample :
  ∃ v wc,
    from_file decimal_int decimal_float shared_class_file "classes" None = Ok v
    ∧ word_to_id v !! "<s>" = Some 0
    ∧ word_id_to_class_id v !! 0 = Some 0
    ∧ _word_classes v !! 0 = Some wc
    ∧ WordClass.len wc = 2
    ∧ get_word_prob v 0 = Ok (1 / 2)%Qc
    ∧ get_word_prob v 0 ≠ Ok 1%Qc.
Proof.
  exists {| id_to_word := ["<s>"; "a"; "</s>"; "<unk>"];
            word_id_to_class_id := [0; 0; 1; 2];
            _word_classes :=
              [WordClass.mk 0 [(0, (1 / 2)%Qc); (1, (1 / 2)%Qc)];
               WordClass.mk 1 [(2, 1%Qc)]; WordClass.mk 2 [(3, 1%Qc)]];
            word_to_id :=
              list_to_map [("<s>", 0); ("a", 1); ("</s>", 2); ("<unk>", 3)];
            num_normal_classes := 1;
            _unigram_probs := None |}.
  eexists. split; [by_eval|]. split; [by vm_compute|].
  split; [done|]. split; [done|]. split; [done|].
  split; [by_eval|]. by vm_compute.
Qed.

(** ** Counting words *)

Lemma wrap64_small z : in_int64 z → wrap64 z = z.
Proof.
  unfold in_int64, wrap64. intros Hz.
  rewrite Z.mod_small by lia. lia.
Qed.

Lemma sum_Z_app l1 l2 : sum_Z (l1 ++ l2) = (sum_Z l1 + sum_Z l2)%Z.
Proof. induction l1 as [|x l1 IH]; simpl; lia. Qed.

Lemma sum_Z_insert l i x y :
  l !! i = Some x → sum_Z (<[i := y]> l) = (sum_Z l - x + y)%Z.
Proof.
  revert i. induction l as [|z l IH]; intros [|i]; simpl; try done.
  - intros [= ->]. lia.
  - intros Hi. rewrite (IH _ Hi). lia.
Qed.

Lemma sum_Z_replicate_0 n : sum_Z (replicate n 0%Z) = 0%Z.
Proof. induction n; simpl; lia. Qed.

Lemma sum_Z_nonneg l : Forall (λ x, 0 ≤ x)%Z l → (0 ≤ sum_Z l)%Z.
Proof. induction 1; simpl; lia. Qed.

Lemma sum_Z_elem_le l x :
  Forall (λ x, 0 ≤ x)%Z l → x ∈ l → (x ≤ sum_Z l)%Z.
Proof.
  induction 1 as [|y l Hy Hl IH]; [by intros ?%elem_of_nil|].
  pose proof (sum_Z_nonneg l Hl). simpl.
  intros [->|Hin]%elem_of_cons; [lia|]. specialize (IH Hin). lia.
Qed.

Lemma sum_Z_zero l :
  Forall (λ x, 0 ≤ x)%Z l → sum_Z l = 0%Z → Forall (λ x, x = 0%Z) l.
Proof.
  induction 1 as [|y l Hy Hl IH]; [constructor|].
  pose proof (sum_Z_nonneg l Hl). simpl. intros Hsum.
  constructor; [lia|]. apply IH. lia.
Qed.

Lemma count_of_snoc_eq done word count :
  word ∉ done.*1 → count_of (done ++ [(word, count)]) word = count.
Proof.
  intros Hfresh. unfold count_of. rewrite list_to_map_app, lookup_union.
  rewrite (not_elem_of_list_to_map_1 _ _ Hfresh). simpl.
  by rewrite insert_empty, lookup_singleton_eq.
Qed.

Lemma count_of_snoc_ne done word count word' :
  word' ≠ word → count_of (done ++ [(word, count)]) word' = count_of done word'.
Proof.
  intros Hne. unfold count_of. rewrite list_to_map_app, lookup_union.
  simpl. rewrite insert_empty, lookup_singleton_ne by done.
  by destruct (list_to_map done !! word').
Qed.

Lemma count_of_elem word_counts word count :
  NoDup word_counts.*1 → (word, count) ∈ word_counts →
  count_of word_counts word = count.
Proof.
  intros Hnd Hin. unfold count_of.
  by rewrite (elem_of_list_to_map_1 _ _ _ Hnd Hin).
Qed.

Lemma count_of_nonzero word_counts word :
  count_of word_counts word ≠ 0%Z →
  (word, count_of word_counts word) ∈ word_counts.
Proof.
  unfold count_of. intros Hne.
  destruct (list_to_map word_counts !! word) as [c|] eqn:Hc; [|done].
  simpl. by apply elem_of_list_to_map_2.
Qed.

Section count_words.

Variable v : Vocabulary.
Hypothesis Hmap : word_to_id v = make_word_to_id (id_to_word v).

Lemma word_to_id_lookup word i :
  word_to_id v !! word = Some i →
  id_to_word v !! i = Some word ∧ i < num_words v.
Proof.
  rewrite Hmap. intros Hi%make_word_to_id_lookup. split; [done|].
  by eapply lookup_lt_Some.
Qed.

Lemma dense_count_snoc_None done word count i :
  word_to_id v !! word = None →
  dense_count v (done ++ [(word, count)]) i = dense_count v done i.
Proof.
  intros Hnone. unfold dense_count.
  destruct (id_to_word v !! i) as [w|]; [|done].
  case_decide as Hw; [|done]. apply count_of_snoc_ne. congruence.
Qed.

Lemma dense_count_snoc_eq done word count i :
  word ∉ done.*1 → word_to_id v !! word = Some i →
  dense_count v (done ++ [(word, count)]) i = count.
Proof.
  intros Hfresh Hi. unfold dense_count.
  destruct (word_to_id_lookup _ _ Hi) as [-> _].
  rewrite decide_True by done. by apply count_of_snoc_eq.
Qed.

Lemma dense_count_snoc_ne done word count i i' :
  word_to_id v !! word = Some i → i' ≠ i →
  dense_count v (done ++ [(word, count)]) i' = dense_count v done i'.
Proof.
  intros Hi Hne. unfold dense_count.
  destruct (id_to_word v !! i') as [w|]; [|done].
  case_decide as Hw; [|done]. apply count_of_snoc_ne. congruence.
Qed.

Lemma store_counts_spec done items counts :
  NoDup (done ++ items).*1 →
  Forall (λ item, in_int64 item.2) items →
  length counts = num_words v →
  (∀ i, i < num_words v → counts !! i = Some (dense_count v done i)) →
  ∃ counts',
    foldlM (store_count v) counts items = Ok counts'
    ∧ length counts' = num_words v
    ∧ ∀ i, i < num_words v →
        counts' !! i = Some (dense_count v (done ++ items) i).
Proof.
  revert done counts.
  induction items as [|[word count] items IH];
    intros done counts Hnd Hfit Hlen Hinv.
  { exists counts. by rewrite app_nil_r. }
  apply Forall_cons in Hfit as [Hcount Hfit].
  assert (word ∉ done.*1) as Hfresh.
  { rewrite fmap_app in Hnd. apply NoDup_app in Hnd as (_ & Hdisj & _).
    intros Hin. apply (Hdisj _ Hin). by left. }
  assert (∃ counts1,
            store_count v counts (word, count) = Ok counts1
            ∧ length counts1 = num_words v
            ∧ ∀ i, i < num_words v →
                counts1 !! i
                = Some (dense_count v (done ++ [(word, count)]) i))
    as (counts1 & Hstep & Hlen1 & Hinv1).
  { unfold store_count.
    destruct (word_to_id v !! word) as [i|] eqn:Hi.
    - destruct (word_to_id_lookup _ _ Hi) as [_ Hlt].
      rewrite decide_True by lia. rewrite decide_True by done.
      eexists. split; [done|]. split; [by rewrite length_insert|].
      intros i' Hi'. destruct (decide (i' = i)) as [->|Hne].
      + rewrite list_lookup_insert_eq by lia.
        by rewrite dense_count_snoc_eq.
      + rewrite list_lookup_insert_ne by done.
        rewrite (dense_count_snoc_ne _ _ _ i) by done. by apply Hinv.
    - exists counts. split; [done|]. split; [done|].
      intros i' Hi'. rewrite dense_count_snoc_None by done. by apply Hinv. }
  destruct (IH (done ++ [(word, count)]) counts1) as (counts' & ? & ? & Hinv');
    [by rewrite <-app_assoc|done..|].
  exists counts'. cbn [foldlM]. rewrite Hstep. simpl.
  rewrite <-app_assoc in Hinv'. done.
Qed.

Lemma store_counts_bound items counts counts' :
  Forall (λ item, 0 ≤ item.2)%Z items →
  Forall (λ x, 0 ≤ x)%Z counts →
  foldlM (store_count v) counts items = Ok counts' →
  Forall (λ x, 0 ≤ x)%Z counts'
  ∧ (sum_Z counts' ≤ sum_Z counts + sum_Z items.*2)%Z.
Proof.
  revert counts. induction items as [|[word count] items IH];
    intros counts Hitems Hcounts.
  { intros [= <-]. simpl. split; [done|lia]. }
  apply Forall_cons in Hitems as [Hcount Hitems]. simpl in Hcount.
  cbn [foldlM]. intros H. inv_ok H.
  assert (Forall (λ x, 0 ≤ x)%Z a ∧ (sum_Z a ≤ sum_Z counts + count)%Z)
    as [Ha Hsum].
  { unfold store_count in Hstep.
    destruct (word_to_id v !! word) as [i|]; cycle 1.
    { injection Hstep as <-. split; [done|lia]. }
    case_decide as Hi; cycle 1.
    { injection Hstep as <-. split; [done|lia]. }
    case_decide; [|done]. injection Hstep as <-.
    destruct (lookup_lt_is_Some_2 counts i Hi) as [x Hx].
    split.
    - apply Forall_insert; done.
    - rewrite (sum_Z_insert _ _ _ _ Hx).
      pose proof (Forall_lookup_1 _ _ _ _ Hcounts Hx). simpl in *. lia. }
  destruct (IH a Hitems Ha H) as [? ?]. split; [done|].
  csimpl. lia.
Qed.

End count_words.

(** ** Unigram probabilities *)

Lemma np_sum_Finite_from (a : Qc) (l : list Qc) :
  foldl np_add (Finite a) (Finite <$> l) = Finite (a + sum_Qc l)%Qc.
Proof.
  revert a. induction l as [|x l IH]; intros a; simpl.
  { by rewrite Qcplus_0_r. }
  rewrite IH. by rewrite Qcplus_assoc.
Qed.

Lemma np_sum_Finite (l : list Qc) : np_sum (Finite <$> l) = Finite (sum_Qc l).
Proof. unfold np_sum. by rewrite np_sum_Finite_from, Qcplus_0_l. Qed.

Lemma sum_Qc_div (l : list Z) (s : Qc) :
  sum_Qc ((λ c, Qc_of_Z c / s)%Qc <$> l) = (Qc_of_Z (sum_Z l) / s)%Qc.
Proof.
  induction l as [|x l IH]; csimpl.
  { rewrite Z2Qc_inj_0. unfold Qcdiv. by rewrite Qcmult_0_l. }
  rewrite IH, Z2Qc_inj_add. unfold Qcdiv. by rewrite Qcmult_plus_distr_l.
Qed.

Lemma unigram_of_counts_nonzero counts :
  sum_int64 counts ≠ 0%Z →
  unigram_of_counts counts
  = Finite <$> ((λ c, Qc_of_Z c / Qc_of_Z (sum_int64 counts))%Qc <$> counts).
Proof.
  intros Hne. unfold unigram_of_counts. rewrite <-list_fmap_compose.
  apply list_fmap_ext. intros _ c _. simpl.
  rewrite decide_False; [done|]. rewrite <-Z2Qc_inj_0. by intros ?%Z2Qc_inj.
Qed.

Lemma unigram_of_counts_zero counts :
  Forall (λ x, x = 0%Z) counts → sum_int64 counts = 0%Z →
  unigram_of_counts counts = replicate (length counts) NaN.
Proof.
  intros Hzero Hsum. unfold unigram_of_counts. rewrite Hsum. clear Hsum.
  induction Hzero as [|c counts -> _ IH]; [done|].
  rewrite fmap_cons, IH. done.
Qed.

Lemma count_words_valid v word_counts :
  word_to_id v = make_word_to_id (id_to_word v) →
  counts_valid word_counts →
  ∃ counts,
    count_words v word_counts = Ok counts
    ∧ length counts = num_words v
    ∧ (∀ i, i < num_words v → counts !! i = Some (dense_count v word_counts i))
    ∧ Forall (λ x, 0 ≤ x)%Z counts
    ∧ (sum_Z counts ≤ sum_Z word_counts.*2)%Z.
Proof.
  intros Hmap (Hnd & Hpos & Hsum).
  destruct (store_counts_spec v Hmap [] word_counts
              (replicate (num_words v) 0%Z)) as (counts & Hc & Hlen & Hinv).
  - done.
  - apply Forall_forall. intros item Hitem.
    pose proof (proj1 (Forall_forall _ _) Hpos item Hitem) as Hitem0.
    assert (item.2 ≤ sum_Z word_counts.*2)%Z.
    { apply sum_Z_elem_le.
      - by apply Forall_fmap.
      - apply list_elem_of_fmap. by exists item. }
    unfold in_int64. simpl in *. lia.
  - apply length_replicate.
  - intros i Hi. rewrite lookup_replicate_2 by done. f_equal.
    unfold dense_count, count_of. simpl.
    destruct (id_to_word v !! i); [|done]. by case_decide.
  - exists counts. split; [done|]. split; [done|]. split; [done|].
    destruct (store_counts_bound v word_counts
                (replicate (num_words v) 0%Z) counts Hpos) as [Hnn Hle];
      [|done|].
    { apply Forall_replicate. lia. }
    split; [done|].
    rewrite sum_Z_replicate_0 in Hle. lia.
Qed.

(** C10: [compute_probs] divides the count array by its sum with no guard.
    For word counts a corpus can produce, the divisor is nonzero if and only
    if some word of [word_counts] is in the vocabulary with a positive count;
    then the unigram probabilities are finite and sum to 1.  Otherwise the
    division by zero is carried out: the call still returns, and every
    unigram probability is [nan]. *)
Theorem compute_probs_unigram_division v word_counts :
  constructed v →
  counts_valid word_counts →
  ∃ counts,
    count_words v word_counts = Ok counts
    ∧ (sum_int64 counts ≠ 0%Z
       ↔ ∃ word count, (word, count) ∈ word_counts
                       ∧ is_Some (word_to_id v !! word)
                       ∧ (0 < count)%Z)
    ∧ (∃ v', compute_probs v word_counts false = Ok v')
    ∧ (∀ update v', compute_probs v word_counts update = Ok v' →
         _unigram_probs v' = Some (unigram_of_counts counts))
    ∧ (sum_int64 counts ≠ 0%Z →
         Forall is_finite (unigram_of_counts counts)
         ∧ np_sum (unigram_of_counts counts) = Finite 1)
    ∧ (sum_int64 counts = 0%Z →
         unigram_of_counts counts = replicate (num_words v) NaN).
Proof.
  intros [Hmap _]%constructed_word_to_id Hvalid.
  destruct (count_words_valid v word_counts Hmap Hvalid)
    as (counts & Hc & Hlen & Hdense & Hnn & Hle).
  destruct Hvalid as (Hnd & Hpos & Hsum).
  pose proof (sum_Z_nonneg _ Hnn) as Hsum0.
  assert (sum_int64 counts = sum_Z counts) as Hwrap.
  { apply wrap64_small. unfold in_int64. lia. }
  exists counts. split; [done|]. split; [|split; [|split; [|split]]].
  - rewrite Hwrap. split.
    + intros Hne.
      destruct (decide (Forall (λ x, x = 0%Z) counts)) as [Hall|Hsome].
      { exfalso. apply Hne. clear -Hall. induction Hall; simpl; lia. }
      apply not_Forall_Exists in Hsome; [|apply _].
      apply Exists_exists in Hsome as (x & Hx & Hx0). simpl in Hx0.
      apply list_elem_of_lookup in Hx as [i Hi].
      assert (i < num_words v) as Hlt by (apply lookup_lt_Some in Hi; lia).
      rewrite (Hdense i Hlt) in Hi. injection Hi as Hi.
      unfold dense_count in Hi.
      destruct (id_to_word v !! i) as [word|]; [|congruence].
      case_decide as Hid; [|congruence].
      exists word, (count_of word_counts word). rewrite Hi in *.
      assert ((word, x) ∈ word_counts) as Hin.
      { rewrite <-Hi. apply count_of_nonzero. congruence. }
      split; [done|]. split; [by eexists|].
      pose proof (proj1 (Forall_forall _ _) Hpos _ Hin). simpl in *. lia.
    + intros (word & count & Hin & [i Hi] & Hcount).
      destruct (word_to_id_lookup v Hmap _ _ Hi) as [Hword Hlt].
      assert (counts !! i = Some count) as Hci.
      { rewrite (Hdense i Hlt). unfold dense_count. rewrite Hword.
        rewrite decide_True by done. f_equal. by apply count_of_elem. }
      pose proof (sum_Z_elem_le _ _ Hnn (list_elem_of_lookup_2 _ _ _ Hci)).
      lia.
  - unfold compute_probs. rewrite Hc. simpl. eauto.
  - intros update v'. unfold compute_probs. rewrite Hc. simpl.
    destruct update; simpl; intros H.
    + inv_ok H. by injection H as <-.
    + by injection H as <-.
  - intros Hne. rewrite unigram_of_counts_nonzero by done. split.
    + apply Forall_fmap, Forall_true. done.
    + rewrite np_sum_Finite, sum_Qc_div, Hwrap. f_equal.
      unfold Qcdiv. apply Qcmult_inv_r.
      rewrite <-Z2Qc_inj_0. intros ?%Z2Qc_inj. lia.
  - intros Hzero. rewrite <-Hlen. apply unigram_of_counts_zero; [|done].
    apply sum_Z_zero; [done|]. lia.
Qed.

Lemma example_vocabulary_constructed : constructed example_vocabulary.
Proof.
  apply (constructed_init ["the"; "<x>"; "dog"] [0; 1; 0] example_classes
                          (Some ["cat"; "dog"])).
  by_eval.
Qed.

Lemma example_word_counts_valid : counts_valid example_word_counts.
Proof.
  split; [|split].
  - apply (bool_decide_unpack _). by vm_compute.
  - unfold example_word_counts. repeat constructor; simpl; lia.
  - by vm_compute.
Qed.

Lemma compute_probs_unigram_division_witness :
  ∃ counts,
    count_words example_vocabulary example_word_counts = Ok counts
    ∧ (sum_int64 counts ≠ 0%Z
       ↔ ∃ word count, (word, count) ∈ example_word_counts
                       ∧ is_Some (word_to_id example_vocabulary !! word)
                       ∧ (0 < count)%Z)
    ∧ (∃ v', compute_probs example_vocabulary example_word_counts false = Ok v')
    ∧ (∀ update v',
         compute_probs example_vocabulary example_word_counts update = Ok v' →
         _unigram_probs v' = Some (unigram_of_counts counts))
    ∧ (sum_int64 counts ≠ 0%Z →
         Forall is_finite (unigram_of_counts counts)
         ∧ np_sum (unigram_of_counts counts) = Finite 1)
    ∧ (sum_int64 counts = 0%Z →
         unigram_of_counts counts
         = replicate (num_words example_vocabulary) NaN).
Proof.
  apply (compute_probs_unigram_division example_vocabulary example_word_counts).
  - apply (constructed_init ["the"; "<x>"; "dog"] [0; 1; 0] example_classes
                            (Some ["cat"; "dog"])).
    apply (bool_decide_unpack _). vm_compute. reflexivity.
  - split; [|split].
    + apply (bool_decide_unpack _). vm_compute. reflexivity.
    + unfold example_word_counts. repeat constructor; simpl; lia.
    + vm_compute. reflexivity.
Defined.

(** ** Class probabilities from counts *)

Lemma at_least_one_spec counts i :
  i < length counts → Forall (λ x, 0 ≤ x)%Z counts →
  ∃ counts',
    at_least_one counts i = Ok counts'
    ∧ length counts' = length counts
    ∧ Forall (λ x, 0 ≤ x)%Z counts'
    ∧ (sum_Z counts' ≤ sum_Z counts + 1)%Z
    ∧ ∀ j, count_at counts' j
           = if decide (j = i) then Z.max (count_at counts j) 1
             else count_at counts j.
Proof.
  intros Hi Hnn. destruct (lookup_lt_is_Some_2 counts i Hi) as [c Hc].
  pose proof (Forall_lookup_1 _ _ _ _ Hnn Hc) as Hc0. simpl in Hc0.
  exists (<[i := Z.max c 1]> counts). unfold at_least_one.
  rewrite (proj2 (py_index_Ok _ _ _) Hc). simpl.
  split; [done|]. split; [apply length_insert|]. split; [|split].
  - apply Forall_insert; [done|lia].
  - rewrite (sum_Z_insert _ _ _ _ Hc). lia.
  - intros j. unfold count_at. case_decide as Hj.
    + subst j. by rewrite list_lookup_insert_eq, Hc by done.
    + by rewrite list_lookup_insert_ne by done.
Qed.

Lemma count_at_raised special_ids counts j :
  count_at (raised special_ids counts) j
  = if decide (j ∈ special_ids) then
      match counts !! j with Some c => Z.max c 1 | None => 0%Z end
    else count_at counts j.
Proof.
  unfold count_at, raised. rewrite list_lookup_imap.
  destruct (counts !! j); simpl; by case_decide.
Qed.

Lemma count_at_eq counts counts' :
  length counts = length counts' →
  (∀ j, count_at counts j = count_at counts' j) → counts = counts'.
Proof.
  intros Hlen Hat. apply list_eq. intros j.
  specialize (Hat j). unfold count_at in Hat.
  destruct (counts !! j) as [x|] eqn:Hx, (counts' !! j) as [y|] eqn:Hy;
    simpl in *; [by subst| | |done].
  - apply lookup_lt_Some in Hx. apply lookup_ge_None in Hy. lia.
  - apply lookup_lt_Some in Hy. apply lookup_ge_None in Hx. lia.
Qed.

Lemma special_counts_spec v counts sos_id eos_id unk_id :
  word_to_id v !! "<s>" = Some sos_id →
  word_to_id v !! "</s>" = Some eos_id →
  word_to_id v !! "<unk>" = Some unk_id →
  sos_id < length counts → eos_id < length counts → unk_id < length counts →
  Forall (λ x, 0 ≤ x)%Z counts →
  special_counts v counts = Ok (raised [sos_id; eos_id; unk_id] counts)
  ∧ Forall (λ x, 0 ≤ x)%Z (raised [sos_id; eos_id; unk_id] counts)
  ∧ (sum_Z (raised [sos_id; eos_id; unk_id] counts) ≤ sum_Z counts + 3)%Z.
Proof.
  intros Hsos Heos Hunk Hs He Hu Hnn.
  destruct (at_least_one_spec counts sos_id Hs Hnn)
    as (c1 & H1 & L1 & N1 & S1 & A1).
  destruct (at_least_one_spec c1 eos_id) as (c2 & H2 & L2 & N2 & S2 & A2);
    [lia|done|].
  destruct (at_least_one_spec c2 unk_id) as (c3 & H3 & L3 & N3 & S3 & A3);
    [lia|done|].
  assert (c3 = raised [sos_id; eos_id; unk_id] counts) as <-.
  { apply count_at_eq.
    - unfold raised. rewrite length_imap. lia.
    - intros j. rewrite count_at_raised, A3, A2, A1.
      unfold count_at.
      destruct (counts !! j) as [c|] eqn:Hc; simpl.
      + repeat case_decide; subst; try lia; exfalso; set_solver.
      + apply lookup_ge_None in Hc.
        rewrite !decide_False by lia. rewrite decide_False; [done|].
        rewrite !elem_of_cons, elem_of_nil. lia. }
  split; [|split; [done|lia]].
  unfold special_counts, py_getitem. rewrite Hsos, Heos, Hunk. simpl.
  rewrite H1. simpl. rewrite H2. simpl. done.
Qed.

Lemma sum_members_le counts ids :
  NoDup ids → Forall (λ j, j < length counts) ids →
  Forall (λ x, 0 ≤ x)%Z counts →
  (0 ≤ sum_Z (count_at counts <$> ids) ≤ sum_Z counts)%Z.
Proof.
  intros Hnd. revert counts.
  induction Hnd as [|j ids Hj Hnd IH]; intros counts Hids Hnn.
  { simpl. pose proof (sum_Z_nonneg _ Hnn). lia. }
  apply Forall_cons in Hids as [Hlt Hids].
  destruct (lookup_lt_is_Some_2 counts j Hlt) as [c Hc].
  pose proof (Forall_lookup_1 _ _ _ _ Hnn Hc) as Hc0. simpl in Hc0.
  destruct (IH (<[j := 0%Z]> counts)) as [Hlo Hhi].
  - by rewrite length_insert.
  - by apply Forall_insert.
  - rewrite (sum_Z_insert _ _ _ _ Hc) in Hhi.
    assert (count_at (<[j := 0%Z]> counts) <$> ids = count_at counts <$> ids)
      as Hsame.
    { apply list_fmap_ext. intros i r Hr. unfold count_at.
      rewrite list_lookup_insert_ne; [done|].
      intros ->. apply Hj. by eapply list_elem_of_lookup_2. }
    rewrite Hsame in Hlo, Hhi. csimpl.
    assert (count_at counts j = c) as -> by (unfold count_at; by rewrite Hc).
    lia.
Qed.

Lemma assoc_set_middle l1 j p l2 q :
  j ∉ l1.*1 →
  WordClass.assoc_set (l1 ++ (j, p) :: l2) j q = l1 ++ (j, q) :: l2.
Proof.
  induction l1 as [|[w r] l1 IH]; csimpl.
  { intros _. by rewrite decide_True. }
  intros [Hne Hl1]%not_elem_of_cons.
  rewrite decide_False by done. by rewrite IH.
Qed.

Lemma set_probs_from class_id l1 l2 new :
  NoDup (l1 ++ l2).*1 → new.*1 = l2.*1 →
  set_probs (WordClass.mk class_id (l1 ++ l2)) new
  = Ok (WordClass.mk class_id (l1 ++ new)).
Proof.
  revert l1 l2. induction new as [|[j q] new IH]; intros l1 l2 Hnd Hids.
  { destruct l2; [done|discriminate]. }
  destruct l2 as [|[j' p] l2]; [discriminate|].
  injection Hids as <- Hids.
  assert (j ∉ l1.*1) as Hfresh.
  { rewrite fmap_app in Hnd. apply NoDup_app in Hnd as (_ & Hdisj & _).
    intros Hin. apply (Hdisj _ Hin). by left. }
  unfold set_probs. cbn [foldlM]. unfold WordClass.set_prob, WordClass.mem.
  simpl. rewrite bool_decide_eq_true_2; cycle 1.
  { rewrite fmap_app. apply elem_of_app. right. by left. }
  simpl. rewrite assoc_set_middle by done.
  replace (l1 ++ (j, q) :: l2) with ((l1 ++ [(j, q)]) ++ l2)
    by (by rewrite <-app_assoc).
  replace (l1 ++ (j, q) :: new) with ((l1 ++ [(j, q)]) ++ new)
    by (by rewrite <-app_assoc).
  apply IH; [|done].
  rewrite <-app_assoc. simpl.
  by replace ((l1 ++ (j, q) :: l2).*1) with ((l1 ++ (j, p) :: l2).*1)
    by (by rewrite !fmap_app).
Qed.

Lemma set_probs_all cls new :
  NoDup (WordClass.probs cls).*1 → new.*1 = (WordClass.probs cls).*1 →
  set_probs cls new = Ok (WordClass.mk (WordClass.id cls) new).
Proof.
  destruct cls as [class_id probs]. simpl. intros Hnd Hids.
  by apply (set_probs_from class_id [] probs new).
Qed.

(** What the body of the loop over the classes computes. *)
Lemma update_class_spec counts cls :
  WordClass.probs cls ≠ [] →
  NoDup (WordClass.probs cls).*1 →
  Forall (λ j, j < length counts) (WordClass.probs cls).*1 →
  Forall (λ x, 0 ≤ x)%Z counts →
  (sum_Z counts < 2 ^ 63)%Z →
  ∃ cls',
    update_class counts cls = Ok cls'
    ∧ (WordClass.probs cls').*1 = (WordClass.probs cls).*1
    ∧ ∀ j, j ∈ (WordClass.probs cls).*1 →
        WordClass.get_prob cls' j
        = Ok (if decide (class_total counts cls = 0%Z)
              then (1 / Qc_of_nat (WordClass.len cls))%Qc
              else (Qc_of_Z (count_at counts j)
                    / Qc_of_Z (class_total counts cls))%Qc).
Proof.
  intros Hne Hnd Hids Hnn Hsum.
  destruct (sum_members_le counts _ Hnd Hids Hnn) as [Hlo Hhi].
  fold (class_total counts cls) in Hlo, Hhi.
  assert (mapM (λ wp : nat * Qc, c ← py_index counts wp.1; Ok (wp.1, c))
               (WordClass.iter cls)
          = Ok ((λ wp, (wp.1, count_at counts wp.1)) <$> WordClass.probs cls))
    as Hcounts.
  { apply mapM_Ok_Forall2. unfold WordClass.iter.
    apply Forall2_fmap_r, Forall_Forall2_diag.
    apply Forall_forall. intros [j p] Hin. simpl.
    assert (j < length counts) as Hlt.
    { apply (proj1 (Forall_forall _ _) Hids). apply list_elem_of_fmap.
      by exists (j, p). }
    destruct (lookup_lt_is_Some_2 counts j Hlt) as [c Hc].
    rewrite (proj2 (py_index_Ok _ _ _) Hc). simpl.
    unfold count_at. by rewrite Hc. }
  assert (((λ wp : nat * Qc, (wp.1, count_at counts wp.1))
             <$> WordClass.probs cls).*2
          = count_at counts <$> (WordClass.probs cls).*1) as Hsnd.
  { rewrite <-!list_fmap_compose. by apply list_fmap_ext. }
  unfold update_class. rewrite Hcounts. simpl. rewrite Hsnd.
  fold (class_total counts cls).
  assert (sum_int64 (count_at counts <$> (WordClass.probs cls).*1)
          = class_total counts cls) as ->.
  { apply wrap64_small. unfold in_int64, class_total in *. lia. }
  destruct (decide (0 < class_total counts cls)%Z) as [Hpos|Hzero].
  - rewrite set_probs_all; [|done|]; cycle 1.
    { rewrite <-!list_fmap_compose. by apply list_fmap_ext. }
    eexists. split; [done|]. simpl. split.
    { rewrite <-!list_fmap_compose. by apply list_fmap_ext. }
    intros j Hj. rewrite decide_False by lia.
    unfold WordClass.get_prob. simpl.
    rewrite (assoc_get_NoDup _ j
               (Qc_of_Z (count_at counts j) / Qc_of_Z (class_total counts cls))%Qc);
      [done| |].
    + rewrite <-!list_fmap_compose.
      by replace ((WordClass.probs cls).*1) with
        ((fst ∘ (λ wc : nat * Z, (wc.1, (Qc_of_Z wc.2
              / Qc_of_Z (class_total counts cls))%Qc))
          ∘ (λ wp : nat * Qc, (wp.1, count_at counts wp.1)))
         <$> WordClass.probs cls) in Hnd by (by apply list_fmap_ext).
    + apply list_elem_of_fmap in Hj as ([j' p] & -> & Hin).
      rewrite <-list_fmap_compose. apply list_elem_of_fmap.
      by exists (j', p).
  - assert (WordClass.len cls ≠ 0) as Hlen.
    { unfold WordClass.len. by destruct (WordClass.probs cls). }
    rewrite decide_False by done. unfold WordClass.iter.
    rewrite set_probs_all; [|done|]; cycle 1.
    { rewrite <-!list_fmap_compose. by apply list_fmap_ext. }
    eexists. split; [done|]. simpl. split.
    { rewrite <-!list_fmap_compose. by apply list_fmap_ext. }
    intros j Hj. rewrite decide_True by lia.
    unfold WordClass.get_prob. simpl.
    rewrite (assoc_get_NoDup _ j (1 / Qc_of_nat (WordClass.len cls))%Qc);
      [done| |].
    + rewrite <-!list_fmap_compose.
      by replace ((WordClass.probs cls).*1) with
        ((fst ∘ (λ wp : nat * Qc,
                   (wp.1, (1 / Qc_of_nat (WordClass.len cls))%Qc)))
         <$> WordClass.probs cls) in Hnd by (by apply list_fmap_ext).
    + apply list_elem_of_fmap in Hj as ([j' p] & -> & Hin).
      apply list_elem_of_fmap. by exists (j', p).
Qed.

Lemma mapM_Forall2 {A B} (f : A → result B) (R : A → B → Prop) l :
  Forall (λ x, ∃ y, f x = Ok y ∧ R x y) l →
  ∃ l', mapM f l = Ok l' ∧ Forall2 R l l'.
Proof.
  induction 1 as [|x l (y & Hy & HR) _ (l' & Hl' & HR')].
  { exists []. split; [done|constructor]. }
  exists (y :: l'). simpl. rewrite Hy. simpl. rewrite Hl'. simpl.
  split; [done|]. by constructor.
Qed.



(** The scenario of the specification continued: with the counts of the
    corpus, [dog] and [cat] share class 0 in the ratio 1 to 5. *)
Example compute_probs_scenario :
  (v ← from_word_counts example_counts (Some 2);
   v' ← compute_probs v example_counts true;
   p0 ← get_word_prob v' 0; p1 ← get_word_prob v' 1; p2 ← get_word_prob v' 2;
   Ok [p0; p1; p2])
  = Ok [(1 / Qc_of_Z 6)%Qc; 1%Qc; (Qc_of_Z 5 / Qc_of_Z 6)%Qc].
Proof. by_eval. Qed.

(** ** Out-of-shortlist log probabilities *)

Lemma Q2R_Qc_plus (a b : Qc) : Q2R (a + b)%Qc = (Q2R a + Q2R b)%R.
Proof.
  rewrite <-Q2R_plus. apply Qeq_eqR. simpl. apply Qred_correct.
Qed.

Lemma Q2R_Qc_0 : Q2R 0%Qc = 0%R.
Proof. unfold Q2R. simpl. lra. Qed.

Lemma Q2R_Qc_1 : Q2R 1%Qc = 1%R.
Proof. unfold Q2R. simpl. lra. Qed.

Lemma Q2R_Qc_pos (q : Qc) : (0 < q)%Qc → (0 < Q2R q)%R.
Proof. intros Hq. rewrite <-Q2R_Qc_0. by apply Qlt_Rlt. Qed.

Lemma np_log_one : np_log (Finite 1) = XFinite 0.
Proof.
  unfold np_log. rewrite decide_True by done.
  by rewrite Q2R_Qc_1, ln_1.
Qed.

(** [exp (log x)] gives [x] back for a finite [x >= 0], also at 0, where the
    logarithm is minus infinity. *)
Lemma np_exp_log (q : Qc) :
  (0 ≤ q)%Qc → np_exp (np_log (Finite q)) = XFinite (Q2R q).
Proof.
  intros Hq. unfold np_log. case_decide as Hpos; simpl.
  - f_equal. apply exp_ln. by apply Q2R_Qc_pos.
  - assert (q = 0%Qc) as ->.
    { apply Qcle_antisym; [|done]. by apply Qcnot_lt_le. }
    rewrite decide_True by done. by rewrite Q2R_Qc_0.
Qed.

Lemma x_sum_Finite_from (a : R) (l : list R) :
  foldl x_add (XFinite a) (XFinite <$> l)
  = XFinite (a + foldr Rplus 0%R l)%R.
Proof.
  revert a. induction l as [|x l IH]; intros a; simpl.
  { f_equal. lra. }
  rewrite IH. f_equal. lra.
Qed.

Lemma sum_Q2R (l : list Qc) :
  foldr Rplus 0%R ((λ q : Qc, Q2R q) <$> l) = Q2R (sum_Qc l).
Proof.
  induction l as [|q l IH].
  { symmetry. apply Q2R_Qc_0. }
  change (sum_Qc (q :: l)) with (q + sum_Qc l)%Qc.
  rewrite Q2R_Qc_plus, <-IH, fmap_cons. done.
Qed.

Lemma sum_Qc_div_total (l : list Qc) (s : Qc) :
  sum_Qc ((λ q, q / s)%Qc <$> l) = (sum_Qc l / s)%Qc.
Proof.
  induction l as [|x l IH]; csimpl.
  { unfold Qcdiv. by rewrite Qcmult_0_l. }
  rewrite IH. unfold Qcdiv. by rewrite Qcmult_plus_distr_l.
Qed.

Lemma Qcdiv_nonneg (q s : Qc) : (0 ≤ q)%Qc → (0 < s)%Qc → (0 ≤ q / s)%Qc.
Proof.
  intros Hq Hs. unfold Qcdiv.
  apply Qcmult_nonneg_nonneg; [done|]. by apply Qclt_le_weak, Qcinv_pos.
Qed.

Lemma np_div_Finite (oos : list Qc) (total : Qc) :
  total ≠ 0%Qc →
  (λ p, np_div p (Finite total)) <$> (Finite <$> oos)
  = Finite <$> ((λ q, q / total)%Qc <$> oos).
Proof.
  intros Hne. rewrite <-!list_fmap_compose. apply list_fmap_ext.
  intros _ q _. simpl. by rewrite decide_False.
Qed.

Lemma np_exp_log_all (qs : list Qc) :
  Forall (λ q, 0 ≤ q)%Qc qs →
  np_exp <$> (np_log <$> (Finite <$> qs)) = XFinite <$> ((λ q : Qc, Q2R q) <$> qs).
Proof.
  induction 1 as [|q qs Hq _ IH]; [done|].
  rewrite !fmap_cons, IH. f_equal. by apply np_exp_log.
Qed.

(** C9 (amended): when the unigram probabilities are present,
    [get_oos_logprobs] returns an array with 0.0 at every index below
    [num_shortlist_words()]; and when the unigram probabilities of the
    out-of-shortlist words are finite, not negative and of positive total,
    the exponential of each of their entries is the word's unigram
    probability divided by that total, and these exponentials sum to 1. *)
Theorem get_oos_logprobs_spec v :
  has_unigram_probs v = true →
  let n := num_shortlist_words v in
  ∃ unigram_probs logprobs,
    _unigram_probs v = Some unigram_probs
    ∧ get_oos_logprobs v = Ok logprobs
    ∧ length logprobs = length unigram_probs
    ∧ (∀ i, i < n → i < length unigram_probs →
            logprobs !! i = Some (XFinite 0))
    ∧ ∀ oos total,
        drop n unigram_probs = Finite <$> oos →
        Forall (λ q, 0 ≤ q)%Qc oos →
        total = sum_Qc oos →
        (0 < total)%Qc →
        (∀ i q, oos !! i = Some q →
           np_exp <$> logprobs !! (n + i)
           = Some (XFinite (Q2R (q / total)%Qc)))
        ∧ x_sum (np_exp <$> drop n logprobs) = XFinite 1.
Proof.
  intros Hhas n. unfold has_unigram_probs in Hhas.
  apply bool_decide_eq_true in Hhas.
  destruct (_unigram_probs v) as [unigram_probs|] eqn:Hu; [|done].
  exists unigram_probs. eexists. split; [done|].
  unfold get_oos_logprobs, oos_probs. rewrite Hu. simpl. fold n.
  split; [done|]. split; [|split].
  - rewrite length_fmap, length_app, length_replicate, length_fmap, length_drop.
    lia.
  - intros i Hi Hlen. rewrite list_lookup_fmap, lookup_app_l; cycle 1.
    { rewrite length_replicate. lia. }
    rewrite lookup_replicate_2 by lia.
    change (Some (np_log (Finite 1)) = Some (XFinite 0)).
    by rewrite np_log_one.
  - intros oos total Hoos Hnn -> Hpos.
    assert (sum_Qc oos ≠ 0%Qc) as Hne.
    { intros Hz. rewrite Hz in Hpos. by apply (Qclt_not_eq 0 0). }
    assert (n `min` length unigram_probs = n) as ->.
    { destruct (decide (n ≤ length unigram_probs)); [lia|].
      rewrite drop_ge in Hoos by lia. destruct oos; [done|discriminate]. }
    rewrite Hoos, np_sum_Finite, np_div_Finite by done.
    assert (Forall (λ q, 0 ≤ q)%Qc ((λ q, q / sum_Qc oos)%Qc <$> oos)) as Hnn'.
    { apply Forall_fmap. eapply Forall_impl; [exact Hnn|].
      intros q Hq. simpl. by apply Qcdiv_nonneg. }
    split.
    + intros i q Hq. rewrite list_lookup_fmap, lookup_app_r; cycle 1.
      { rewrite length_replicate. lia. }
      rewrite length_replicate.
      replace (n + i - n) with i by lia.
      rewrite !list_lookup_fmap, Hq.
      change (Some (np_exp (np_log (Finite (q / sum_Qc oos)%Qc)))
              = Some (XFinite (Q2R (q / sum_Qc oos)%Qc))).
      f_equal. apply np_exp_log. apply Qcdiv_nonneg; [|done].
      by apply (Forall_lookup_1 _ _ _ _ Hnn Hq).
    + rewrite fmap_app, drop_app_length'; cycle 1.
      { by rewrite length_fmap, length_replicate. }
      rewrite np_exp_log_all by done.
      unfold x_sum. rewrite x_sum_Finite_from, sum_Q2R, sum_Qc_div_total.
      f_equal. unfold Qcdiv. rewrite Qcmult_inv_r by done.
      rewrite Q2R_Qc_1. lra.
Qed.

Lemma get_oos_logprobs_spec_witness :
  let n := num_shortlist_words example_with_probs in
  ∃ logprobs,
    get_oos_logprobs example_with_probs = Ok logprobs
    ∧ n < num_words example_with_probs
    ∧ logprobs !! 0 = Some (XFinite 0)
    ∧ x_sum (np_exp <$> drop n logprobs) = XFinite 1.
Proof.
  intros n.
  destruct (get_oos_logprobs_spec example_with_probs)
    as (unigram_probs & logprobs & Hu & Hlog & Hlen & Hzero & Hoos).
  { vm_compute. reflexivity. }
  assert (unigram_probs
          = [Finite 0; Finite 0; Finite (Qc_of_Z 2 / Qc_of_Z 3); Finite 0;
             Finite 0; Finite 0; Finite (1 / Qc_of_Z 3)]%Qc) as ->.
  { assert (_unigram_probs example_with_probs
            = Some [Finite 0; Finite 0; Finite (Qc_of_Z 2 / Qc_of_Z 3);
                    Finite 0; Finite 0; Finite 0;
                    Finite (1 / Qc_of_Z 3)]%Qc) as Hu'.
    { apply (bool_decide_unpack _). vm_compute. reflexivity. }
    congruence. }
  exists logprobs. split; [done|]. split; [vm_compute; lia|].
  split.
  - apply Hzero; vm_compute; lia.
  - apply (Hoos [(1 / Qc_of_Z 3)%Qc] (1 / Qc_of_Z 3)%Qc).
    + apply (bool_decide_unpack _). vm_compute. reflexivity.
    + repeat constructor. vm_compute. discriminate.
    + apply (bool_decide_unpack _). vm_compute. reflexivity.
    + vm_compute. reflexivity.
Defined.

(** C9 as stated fails: [example_vocabulary] has the out-of-shortlist word
    [cat]; after [compute_probs] with counts in which [cat] does not occur
    the out-of-shortlist mass is zero, the entry of [cat] is [log(0/0)], and
    the exponentials of the out-of-shortlist entries do not sum to 1. *)
Lemma get_oos_logprobs_sum_counterexample :
  ∃ v logprobs,
    compute_probs example_vocabulary shortlist_only_counts true = Ok v
    ∧ has_unigram_probs v = true
    ∧ num_shortlist_words v < num_words v
    ∧ get_oos_logprobs v = Ok logprobs
    ∧ drop (num_shortlist_words v) logprobs = [XNaN]
    ∧ x_sum (np_exp <$> drop (num_shortlist_words v) logprobs) = XNaN
    ∧ XNaN ≠ XFinite 1.
Proof.
  destruct (compute_probs example_vocabulary shortlist_only_counts true)
    as [v|] eqn:Hv; [|by vm_compute in Hv].
  assert (Ok v ≫= (λ v, p ← oos_probs v;
                        Ok (p, num_shortlist_words v, num_words v,
                            has_unigram_probs v))
          = Ok ([Finite 1; Finite 1; Finite 1; Finite 1; Finite 1; Finite 1;
                 NaN]%Qc, 6, 7, true)) as Heval.
  { rewrite <-Hv. by_eval. }
  simpl in Heval. inv_ok Heval.
  injection Heval as -> Hn Hwords Hhas.
  exists v. eexists. split; [done|]. split; [done|]. split; [lia|].
  split; [unfold get_oos_logprobs; rewrite Hstep; reflexivity|].
  rewrite Hn. split; [reflexivity|]. split; [reflexivity|discriminate].
Qed.

(** ** The round trip without out-of-shortlist words *)

Lemma sum_Qc_perm (l k : list Qc) : l ≡ₚ k → sum_Qc l = sum_Qc k.
Proof.
  induction 1 as [|x l k _ IH|x y l|l k m _ IH1 _ IH2]; simpl.
  - done.
  - by rewrite IH.
  - rewrite !Qcplus_assoc. by rewrite (Qcplus_comm y x).
  - by rewrite IH1.
Qed.

Lemma with_special_elem_id token st :
  token ∈ st.1.1 → with_special token st = st.
Proof.
  destruct st as [[itw w2c] wcs]. unfold with_special. simpl. intros Hin.
  by rewrite bool_decide_eq_true_2.
Qed.

Lemma with_specials_elem_id st :
  (∀ token, token ∈ special_tokens → token ∈ st.1.1) →
  with_specials st = st.
Proof.
  unfold special_tokens, with_specials. intros Hin.
  rewrite (with_special_elem_id "<s>") by set_solver.
  rewrite (with_special_elem_id "</s>") by set_solver.
  rewrite (with_special_elem_id "<unk>") by set_solver. done.
Qed.

(** The probabilities that [get_state] writes. *)
Lemma get_state_probs v :
  classes_valid v → classes_consistent v →
  ∃ probs,
    mapM (λ wc : nat * nat, word_class ← py_index (_word_classes v) wc.2;
                            WordClass.get_prob word_class wc.1)
         (imap pair (word_id_to_class_id v)) = Ok probs
    ∧ length probs = num_shortlist_words v
    ∧ ∀ j p, probs !! j = Some p →
        get_word_prob v j = Ok p
        ∧ ∃ c cls, word_id_to_class_id v !! j = Some c
                   ∧ _word_classes v !! c = Some cls
                   ∧ (j, p) ∈ WordClass.probs cls.
Proof.
  intros Hvalid [_ Hclass].
  destruct (mapM_Forall2
    (λ wc : nat * nat, word_class ← py_index (_word_classes v) wc.2;
                       WordClass.get_prob word_class wc.1)
    (λ wc p, word_id_to_class_id v !! wc.1 = Some wc.2
             ∧ get_word_prob v wc.1 = Ok p
             ∧ ∃ cls, _word_classes v !! wc.2 = Some cls
                      ∧ (wc.1, p) ∈ WordClass.probs cls)
    (imap pair (word_id_to_class_id v))) as (probs & Hprobs & Hall).
  { apply Forall_forall. intros [j c] Hin.
    apply list_elem_of_lookup in Hin as [i Hi].
    rewrite list_lookup_imap in Hi.
    destruct (word_id_to_class_id v !! i) as [c'|] eqn:Hc; [|done].
    injection Hi as <- <-. simpl.
    destruct (Hclass i c' Hc) as (cls & Hcls & Hmem).
    apply list_elem_of_fmap in Hmem as ([j p] & -> & Hmem). simpl in *.
    assert (NoDup (WordClass.probs cls).*1) as Hnd.
    { apply (proj1 (Forall_forall _ _) Hvalid cls).
      by eapply list_elem_of_lookup_2. }
    pose proof (assoc_get_NoDup _ _ _ Hnd Hmem) as Hget.
    exists p. unfold get_word_prob.
    rewrite (proj2 (py_index_Ok _ _ _) Hc). simpl.
    rewrite (proj2 (py_index_Ok _ _ _) Hcls). simpl.
    unfold WordClass.get_prob. rewrite Hget. eauto 10. }
  exists probs. split; [done|]. split.
  { apply Forall2_length in Hall. rewrite length_imap in Hall.
    unfold num_shortlist_words. lia. }
  intros j p Hp.
  destruct (Forall2_lookup_r _ _ _ _ _ Hall Hp) as ([j' c] & Hjc & Hc & Hget & Hcls).
  rewrite list_lookup_imap in Hjc.
  destruct (word_id_to_class_id v !! j) as [c'|] eqn:Hc'; [|done].
  injection Hjc as <- <-. simpl in *. split; [done|].
  destruct Hcls as (cls & ? & ?). eauto 10.
Qed.

(** Without out-of-shortlist words the round trip holds: a vocabulary whose
    classes are consistent and normalised is written by [get_state] into an
    empty store and read back by [from_state] with the same words, class IDs
    and class-membership probabilities. *)
Lemma get_state_from_state_shortlist v :
  constructed v →
  classes_valid v → classes_consistent v → classes_normalized v →
  num_words v = num_shortlist_words v →
  ∃ state v',
    get_state v fresh_store = Ok state
    ∧ from_state state = Ok v'
    ∧ id_to_word v' = id_to_word v
    ∧ word_id_to_class_id v' = word_id_to_class_id v
    ∧ ∀ j, j < num_shortlist_words v →
        ∃ p, get_word_prob v j = Ok p ∧ get_word_prob v' j = Ok p.
Proof.
  intros Hv Hvalid Hcons Hnorm Hshort.
  destruct (get_state_probs v Hvalid Hcons) as (probs & Hprobs & Hlen & Hget).
  destruct (constructed_word_to_id v Hv) as [_ Hspecial].
  set (g := {| h5_words := Some (id_to_word v);
               h5_classes := Some (word_id_to_class_id v);
               h5_probs := Some probs;
               h5_unigram_probs := _unigram_probs v |}).
  set (state := {| h5_root := h5_empty; h5_vocabulary := Some g |}).
  assert (get_state v fresh_store = Ok state) as Hstate.
  { unfold get_state, fresh_store. simpl. rewrite Hprobs. simpl.
    by destruct (_unigram_probs v). }
  unfold num_words, num_shortlist_words in *.
  destruct Hcons as [Hmember Hclass].
  assert (∀ c, c < length (_word_classes v) → c ∈ word_id_to_class_id v)
    as Hused.
  { intros c Hc. destruct (lookup_lt_is_Some_2 _ c Hc) as [cls Hcls].
    destruct (proj1 (Forall_forall _ _) Hvalid cls) as (Hne & _ & _).
    { by eapply list_elem_of_lookup_2. }
    destruct (WordClass.probs cls) as [|[j p] ?] eqn:Hp; [done|].
    eapply list_elem_of_lookup_2. apply (Hmember c cls j Hcls).
    rewrite Hp. by left. }
  destruct (from_state_class_probs state g (id_to_word v)
              (word_id_to_class_id v) probs) as (v' & Hv' & Hprob');
    [done..|lia| | |].
  { assert ("<unk>" ∈ id_to_word v) as Hunk.
    { apply Hspecial. unfold special_tokens. set_solver. }
    intros Hnil. rewrite Hnil in Hshort.
    destruct (id_to_word v); [by apply elem_of_nil in Hunk|done]. }
  { intros c c' Hc' Hle. apply Hused.
    apply list_elem_of_lookup in Hc' as [j Hj].
    destruct (Hclass j c' Hj) as (cls & Hcls & _).
    apply lookup_lt_Some in Hcls. lia. }
  exists state, v'. split; [done|]. split; [done|].
  assert (id_to_word v' = id_to_word v
          ∧ word_id_to_class_id v' = word_id_to_class_id v) as [Hw Hc].
  { apply from_state_Ok in Hv'
      as (g' & words & classes & probs' & m & wcs & v0
          & [= <-] & [= <-] & [= <-] & _ & _ & _ & Hv0 & ->).
    apply Vocabulary_init_Ok in Hv0 as (_ & n & cs & _ & _ & ->).
    rewrite with_specials_elem_id by done. simpl.
    by destruct (_unigram_probs v). }
  split; [done|]. split; [done|].
  intros j Hj.
  destruct (lookup_lt_is_Some_2 probs j) as [p Hp]; [lia|].
  destruct (Hget j p Hp) as (Hgetj & c & cls & Hc' & Hcls & Hin).
  exists p. split; [done|].
  rewrite (Hprob' j c p Hc' Hp).
  assert (class_members (word_id_to_class_id v) (imap pair probs) c
          ≡ₚ WordClass.probs cls) as Hperm.
  { destruct (proj1 (Forall_forall _ _) Hvalid cls) as (_ & Hnd & _).
    { by eapply list_elem_of_lookup_2. }
    apply NoDup_Permutation.
    - apply NoDup_filter. apply (NoDup_fmap_1 fst).
      rewrite imap_pair_ids. apply NoDup_seq.
    - by apply (NoDup_fmap_1 fst).
    - intros [i q]. unfold class_members.
      rewrite list_elem_of_filter. simpl. split.
      + intros [Hci Hiq]. apply list_elem_of_lookup in Hiq as [i' Hi'].
        rewrite list_lookup_imap in Hi'.
        destruct (probs !! i') as [q'|] eqn:Hq'; [|done].
        injection Hi' as <- <-.
        destruct (Hget _ _ Hq') as (_ & c2 & cls2 & Hc2 & Hcls2 & Hin2).
        congruence.
      + intros Hiq.
        assert (word_id_to_class_id v !! i = Some c) as Hci.
        { apply (Hmember c cls i Hcls). apply list_elem_of_fmap.
          by exists (i, q). }
        split; [done|].
        destruct (lookup_lt_is_Some_2 probs i) as [q' Hq'].
        { apply lookup_lt_Some in Hci. lia. }
        destruct (Hget _ _ Hq') as (_ & c2 & cls2 & Hc2 & Hcls2 & Hin2).
        assert (cls2 = cls) as -> by congruence.
        pose proof (assoc_get_NoDup _ _ _ Hnd Hiq) as G1.
        pose proof (assoc_get_NoDup _ _ _ Hnd Hin2) as G2.
        assert (q' = q) as -> by congruence.
        apply list_elem_of_lookup. exists i.
        by rewrite list_lookup_imap, Hq'. }
  assert (sum_Qc (class_members (word_id_to_class_id v) (imap pair probs) c).*2
          = 1%Qc) as ->.
  { rewrite (sum_Qc_perm _ ((WordClass.probs cls).*2)) by (by f_equiv).
    apply (proj1 (Forall_forall _ _) Hnorm cls).
    by eapply list_elem_of_lookup_2. }
  rewrite decide_False by done. f_equal. by rewrite Qcdiv_right_id.
Qed.

Example get_state_from_state_shortlist_example :
  ∃ state v',
    get_state shortlist_vocabulary fresh_store = Ok state
    ∧ from_state state = Ok v'
    ∧ id_to_word v' = id_to_word shortlist_vocabulary
    ∧ word_id_to_class_id v' = word_id_to_class_id shortlist_vocabulary
    ∧ ∀ j, j < num_shortlist_words shortlist_vocabulary →
        ∃ p, get_word_prob shortlist_vocabulary j = Ok p
             ∧ get_word_prob v' j = Ok p.
Proof.
  apply get_state_from_state_shortlist.
  - apply (constructed_init ["the"; "<x>"; "dog"] [0; 1; 0] example_classes
                            None).
    by_eval.
  - apply (bool_decide_unpack _). by vm_compute.
  - split.
    + intros c cls j Hcls Hj.
      do 5 (destruct c as [|c];
            [injection Hcls as <-; simpl in Hj; set_solver|]).
      done.
    + intros j c Hc.
      do 6 (destruct j as [|j];
            [injection Hc as <-; eexists; split; [done|]; simpl; set_solver|]).
      done.
  - unfold classes_normalized, shortlist_vocabulary. simpl.
    repeat constructor; by_eval.
  - done.
Qed.

(** ** Well-formed vocabularies from the builders *)











Lemma Qc_of_nat_S n : Qc_of_nat (S n) = (1 + Qc_of_nat n)%Qc.
Proof.
  unfold Qc_of_nat. rewrite Nat2Z.inj_succ, <-Z.add_1_l, Z2Qc_inj_add.
  by rewrite Z2Qc_inj_1.
Qed.

Lemma sum_Qc_const {A} (l : list A) (q : Qc) :
  sum_Qc ((λ _, q) <$> l) = (Qc_of_nat (length l) * q)%Qc.
Proof.
  induction l as [|x l IH].
  { change (Qc_of_nat (length (@nil A))) with (Qc_of_Z 0).
    by rewrite Z2Qc_inj_0, Qcmult_0_l. }
  rewrite fmap_cons. change (sum_Qc (q :: ((λ _, q) <$> l)))
    with (q + sum_Qc ((λ _ : A, q) <$> l))%Qc.
  rewrite IH. cbn [length]. rewrite Qc_of_nat_S. ring.
Qed.

(** After [normalize_probs] the probabilities of a class with members sum
    to 1, also when they summed to zero before. *)
Lemma normalize_total cls :
  WordClass.probs cls ≠ [] →
  WordClass.total (WordClass.normalize_probs cls) = 1%Qc.
Proof.
  intros Hne. unfold WordClass.normalize_probs, WordClass.total.
  case_decide as Hzero; simpl; rewrite <-list_fmap_compose.
  - replace (_ <$> WordClass.probs cls)
      with ((λ _, (1 / Qc_of_nat (WordClass.len cls))%Qc)
            <$> WordClass.probs cls) by (by apply list_fmap_ext).
    rewrite sum_Qc_const. unfold WordClass.len.
    unfold Qcdiv. rewrite Qcmult_1_l. apply Qcmult_inv_r.
    unfold Qc_of_nat. rewrite <-Z2Qc_inj_0. intros Heq%Z2Qc_inj.
    destruct (WordClass.probs cls); [done|]. simpl in Heq. lia.
  - replace (_ <$> WordClass.probs cls)
      with (((λ q, (q / sum_Qc (WordClass.probs cls).*2)%Qc) ∘ snd)
            <$> WordClass.probs cls) by (by apply list_fmap_ext).
    rewrite list_fmap_compose, sum_Qc_div_total.
    unfold Qcdiv. by apply Qcmult_inv_r.
Qed.




(** Writing a second time into the same store fails: for a dataset that
    exists in the group [vocabulary], [get_state] assigns to the dataset of
    that name under the root of the file (lines 355, 363, 371, 377), which
    does not exist. *)
Example get_state_twice :
  ∃ state,
    get_state shortlist_vocabulary fresh_store = Ok state
    ∧ get_state shortlist_vocabulary state = Raise KeyError.
Proof.
  destruct (get_state shortlist_vocabulary fresh_store) as [state|] eqn:Hstate;
    [|by vm_compute in Hstate].
  exists state. split; [done|].
  change (Ok state ≫= get_state shortlist_vocabulary = Raise KeyError).
  rewrite <-Hstate. by_eval.
Qed.

(** ** The shape of a constructed vocabulary *)

Lemma with_specials_balanced st :
  lists_balanced st → lists_balanced (with_specials st).
Proof. intros. unfold with_specials. by do 3 apply with_special_balanced. Qed.

(** What the constructor establishes about the two word lists. *)
Lemma Vocabulary_init_shape itw w2c wcs oos v :
  Vocabulary_init itw w2c wcs oos = Ok v →
  ∃ shortlist ext,
    id_to_word v = shortlist ++ ext
    ∧ length shortlist = num_shortlist_words v
    ∧ itw `prefix_of` shortlist
    ∧ (∀ token, token ∈ special_tokens → token ∈ shortlist)
    ∧ NoDup ext
    ∧ (∀ w, w ∈ ext → w ∉ shortlist ∧ ∃ ws, oos = Some ws ∧ w ∈ ws)
    ∧ (∀ ws w, oos = Some ws → w ∈ ws → w ∈ shortlist ++ ext).
Proof.
  intros (Hlen & n & classes & Hscan & Hnorm & ->)%Vocabulary_init_Ok.
  simpl in *. unfold num_shortlist_words. simpl.
  set (st := with_specials (itw, w2c, wcs)) in *.
  assert (lists_balanced st) as Hbal by by apply with_specials_balanced.
  assert (∃ ext, with_oos st.1.1 oos = st.1.1 ++ ext ∧ NoDup ext
                 ∧ (∀ w, w ∈ ext → w ∉ st.1.1 ∧ ∃ ws, oos = Some ws ∧ w ∈ ws)
                 ∧ (∀ ws w, oos = Some ws → w ∈ ws → w ∈ st.1.1 ++ ext))
    as (ext & Hext & Hnd & Hnew & Hall).
  { destruct oos as [ws|]; simpl.
    - destruct (add_oos_words_shape st.1.1 ws) as (ext & Heq & ? & Hnew).
      exists ext. split; [done|]. split; [done|]. split.
      + intros w Hw. destruct (Hnew w Hw). eauto.
      + intros ws' w [= <-] Hw. rewrite <-Heq. apply add_oos_words_elem. by right.
    - exists []. rewrite app_nil_r. split; [done|]. split; [constructor|].
      split; [by intros w ?%elem_of_nil|done]. }
  exists st.1.1, ext. split; [done|]. split; [done|]. split.
  { apply (with_specials_prefix (itw, w2c, wcs)). }
  split; [|done]. intros token Htoken. by apply with_specials_elem.
Qed.

(** The vocabularies that differ from a freshly constructed one in their
    probabilities only. *)
Lemma constructed_inv v :
  constructed v →
  ∃ itw w2c wcs oos v0,
    Vocabulary_init itw w2c wcs oos = Ok v0
    ∧ id_to_word v = id_to_word v0
    ∧ word_id_to_class_id v = word_id_to_class_id v0
    ∧ word_to_id v = word_to_id v0
    ∧ num_normal_classes v = num_normal_classes v0
    ∧ length (_word_classes v) = length (_word_classes v0).
Proof.
  induction 1 as [itw w2c wcs oos v H | pi pf f fmt oos v H | wc n v H
                  | state v H | v wc b v' _ IH H].
  - by exists itw, w2c, wcs, oos, v.
  - unfold from_file in H. inv_ok H. by repeat eexists.
  - unfold from_word_counts in H. inv_ok H. by repeat eexists.
  - apply from_state_Ok in H
      as (g & ? & ? & ? & ? & wcs & v0 & _ & _ & _ & _ & _ & _ & Hinit & ->).
    do 4 eexists. exists v0. split; [done|]. by destruct (h5_unigram_probs g).
  - destruct IH as (itw & w2c & wcs & oos & v0 & H0 & ? & ? & ? & ? & ?).
    exists itw, w2c, wcs, oos, v0. split; [done|].
    unfold compute_probs in H. inv_ok H.
    destruct b; simpl in H.
    + inv_ok H. injection H as <-. simpl.
      apply mapM_Ok_length in Hstep1. rewrite Hstep1. done.
    + injection H as <-. done.
Qed.

Lemma constructed_shape v :
  constructed v →
  ∃ shortlist ext,
    id_to_word v = shortlist ++ ext
    ∧ length shortlist = num_shortlist_words v
    ∧ (∀ token, token ∈ special_tokens → token ∈ shortlist)
    ∧ NoDup ext
    ∧ (∀ w, w ∈ ext → w ∉ shortlist)
    ∧ word_to_id v = make_word_to_id (id_to_word v).
Proof.
  intros Hc. pose proof (constructed_word_to_id v Hc) as [Hmap _].
  destruct (constructed_inv v Hc)
    as (itw & w2c & wcs & oos & v0 & H0 & Hitw & Hw2c & _).
  destruct (Vocabulary_init_shape _ _ _ _ _ H0)
    as (shortlist & ext & Heq & Hlen & _ & Hsp & Hnd & Hext & _).
  exists shortlist, ext. rewrite Hitw. unfold num_shortlist_words. rewrite Hw2c.
  split; [done|]. split; [done|]. split; [done|]. split; [done|].
  split; [|by rewrite <-Hitw]. intros w Hw. by destruct (Hext w Hw).
Qed.

(** A word of the shortlist has a shortlist ID, whichever of its occurrences
    [word_to_id] records. *)
Lemma constructed_shortlist_id v w i :
  constructed v →
  word_to_id v !! w = Some i →
  w ∈ take (num_shortlist_words v) (id_to_word v) →
  i < num_shortlist_words v.
Proof.
  intros (shortlist & ext & Heq & Hlen & _ & _ & Hext & Hmap)%constructed_shape.
  rewrite Hmap. intros Hi%make_word_to_id_lookup.
  rewrite Heq, <-Hlen, take_app_length. intros Hw.
  destruct (decide (i < length shortlist)) as [|Hge]; [done|].
  rewrite Heq, lookup_app_r in Hi by lia.
  apply list_elem_of_lookup_2 in Hi. by destruct (Hext w Hi).
Qed.

Lemma constructed_unk_id v :
  constructed v →
  ∃ unk_id, word_to_id v !! "<unk>" = Some unk_id
            ∧ unk_id < num_shortlist_words v.
Proof.
  intros Hc.
  destruct (constructed_special_id v "<unk>" Hc) as (unk_id & Hunk & _).
  { unfold special_tokens. set_solver. }
  exists unk_id. split; [done|].
  apply (constructed_shortlist_id v "<unk>"); [done..|].
  destruct (constructed_shape v Hc) as (shortlist & ext & Heq & Hlen & Hsp & _).
  rewrite Heq, <-Hlen, take_app_length. apply Hsp.
  unfold special_tokens. set_solver.
Qed.

(** ** Shortlist and out-of-shortlist words *)

(** X1: in every constructed vocabulary the shortlist IDs are word IDs, the
    three special tokens have shortlist IDs, and a word with an
    out-of-shortlist ID occurs nowhere else in [id_to_word]. *)
Theorem constructed_shortlist v :
  constructed v →
  num_shortlist_words v ≤ num_words v
  ∧ (∀ token i, token ∈ special_tokens → word_to_id v !! token = Some i →
       in_shortlist v i = true)
  ∧ (∀ i j w, id_to_word v !! i = Some w → id_to_word v !! j = Some w →
       in_shortlist v j = false → i = j).
Proof.
  intros Hc.
  destruct (constructed_shape v Hc)
    as (shortlist & ext & Heq & Hlen & Hsp & Hnd & Hext & Hmap).
  split; [|split].
  - unfold num_words. rewrite Heq, length_app. lia.
  - intros token i Htoken Hi. unfold in_shortlist.
    apply bool_decide_eq_true.
    apply (constructed_shortlist_id v token); [done..|].
    rewrite Heq, <-Hlen, take_app_length. by apply Hsp.
  - intros i j w Hi Hj Hoos. unfold in_shortlist in Hoos.
    apply bool_decide_eq_false in Hoos.
    fold (num_shortlist_words v) in Hoos. rewrite <-Hlen in Hoos.
    rewrite Heq in Hi, Hj. rewrite lookup_app_r in Hj by lia.
    destruct (decide (i < length shortlist)) as [Hlt|Hge].
    + rewrite lookup_app_l in Hi by done.
      apply list_elem_of_lookup_2 in Hi, Hj. by destruct (Hext w Hj).
    + rewrite lookup_app_r in Hi by lia.
      pose proof (NoDup_lookup _ _ _ _ Hnd Hi Hj). lia.
Qed.

Lemma constructed_shortlist_witness :
  num_shortlist_words example_vocabulary ≤ num_words example_vocabulary
  ∧ (∀ token i, token ∈ special_tokens →
       word_to_id example_vocabulary !! token = Some i →
       in_shortlist example_vocabulary i = true)
  ∧ (∀ i j w, id_to_word example_vocabulary !! i = Some w →
       id_to_word example_vocabulary !! j = Some w →
       in_shortlist example_vocabulary j = false → i = j).
Proof.
  apply (constructed_shortlist example_vocabulary).
  apply (constructed_init ["the"; "<x>"; "dog"] [0; 1; 0] example_classes
                          (Some ["cat"; "dog"])).
  apply (bool_decide_unpack _). vm_compute. reflexivity.
Defined.

(** X2: [word in vocabulary] holds exactly for the words of [id_to_word];
    translating any string to an ID and back gives the string itself when the
    vocabulary contains it and [<unk>] when it does not. *)
Theorem contains_words_to_ids v word :
  constructed v →
  (__contains__ v word = true ↔ word ∈ id_to_word v)
  ∧ ∃ i, words_to_ids v [word] = Ok [i]
         ∧ id_to_word v !! i
           = Some (if __contains__ v word then word else "<unk>").
Proof.
  intros Hc. pose proof (constructed_word_to_id v Hc) as [Hmap _].
  destruct (constructed_special_id v "<unk>" Hc) as (unk_id & Hunk & Hunk').
  { unfold special_tokens. set_solver. }
  unfold __contains__. split.
  - rewrite bool_decide_eq_true, Hmap. apply make_word_to_id_is_Some.
  - unfold words_to_ids, py_getitem. rewrite Hunk. simpl.
    case_bool_decide as Hin.
    + destruct Hin as [i Hi]. exists i. rewrite Hi. split; [done|].
      rewrite Hmap in Hi. by apply make_word_to_id_lookup.
    + exists unk_id. destruct (word_to_id v !! word) eqn:Hi; [|done].
      destruct Hin. eauto.
Qed.

Lemma contains_words_to_ids_witness :
  (__contains__ example_vocabulary "bird" = true
   ↔ "bird" ∈ id_to_word example_vocabulary)
  ∧ ∃ i, words_to_ids example_vocabulary ["bird"] = Ok [i]
         ∧ id_to_word example_vocabulary !! i
           = Some (if __contains__ example_vocabulary "bird"
                   then "bird" else "<unk>").
Proof.
  apply (contains_words_to_ids example_vocabulary "bird").
  apply (constructed_init ["the"; "<x>"; "dog"] [0; 1; 0] example_classes
                          (Some ["cat"; "dog"])).
  apply (bool_decide_unpack _). vm_compute. reflexivity.
Defined.

(** ** Class memberships *)

Lemma mapM_zip_Ok {A B C} (f : A → B → result C) a b c :
  length a = length b →
  mapM (λ ab : A * B, f ab.1 ab.2) (zip a b) = Ok c →
  length c = length a
  ∧ ∀ i x y, a !! i = Some x → b !! i = Some y →
      ∃ z, c !! i = Some z ∧ f x y = Ok z.
Proof.
  intros Hlen Hc. pose proof (mapM_Ok_length _ _ _ Hc) as Hlenc.
  rewrite length_zip_with in Hlenc. split; [lia|].
  intros i x y Hx Hy.
  apply mapM_Ok_Forall2 in Hc.
  assert (zip a b !! i = Some (x, y)) as Hxy.
  { apply lookup_zip_with_Some. eauto. }
  destruct (Forall2_lookup_l _ _ _ _ _ Hc Hxy) as (z & Hz & Hf). eauto.
Qed.

Lemma shortlist_id_eq v unk_id word_id :
  (if decide (num_shortlist_words v ≤ word_id) then unk_id else word_id)
  = shortlist_id v unk_id word_id.
Proof.
  unfold shortlist_id, in_shortlist. fold (num_shortlist_words v).
  destruct (decide (num_shortlist_words v ≤ word_id)).
  - by rewrite bool_decide_eq_false_2 by lia.
  - by rewrite bool_decide_eq_true_2 by lia.
Qed.

(** X3: [get_class_memberships] returns two matrices of the shape of its
    argument; the entries for a word ID are the class ID and the membership
    probability of that word if the ID is in the shortlist, and those of
    [<unk>] if it is not. *)
Theorem get_class_memberships_spec v word_ids class_ids probs :
  get_class_memberships v word_ids = Ok (class_ids, probs) →
  ∃ unk_id,
    word_to_id v !! "<unk>" = Some unk_id
    ∧ length class_ids = length word_ids
    ∧ length probs = length word_ids
    ∧ ∀ r row, word_ids !! r = Some row →
        ∃ class_row prob_row,
          class_ids !! r = Some class_row
          ∧ probs !! r = Some prob_row
          ∧ length class_row = length row
          ∧ length prob_row = length row
          ∧ ∀ c word_id, row !! c = Some word_id →
              ∃ class_id prob,
                class_row !! c = Some class_id
                ∧ prob_row !! c = Some prob
                ∧ word_id_to_class_id v !! shortlist_id v unk_id word_id
                  = Some class_id
                ∧ get_word_prob v (shortlist_id v unk_id word_id) = Ok prob.
Proof.
  unfold get_class_memberships. intros H. inv_ok H.
  rename a into unk_id, a0 into cids, a1 into wcs, a2 into ps.
  injection H as <- <-.
  apply py_getitem_Ok in Hstep. exists unk_id. split; [done|].
  unfold np_vectorize2 in Hstep2.
  destruct (decide (concat wcs = [])) as [|_]; [done|].
  pose proof (mapM_Ok_length _ _ _ Hstep0) as Hlen0.
  pose proof (mapM_Ok_length _ _ _ Hstep1) as Hlen1.
  rewrite length_fmap in Hlen0.
  apply (mapM_zip_Ok
           (λ (a : list WordClass.t) (b : list nat),
              mapM (λ ab : WordClass.t * nat, WordClass.get_prob ab.1 ab.2)
                   (zip a b))) in Hstep2 as [Hlen2 Hps];
    [|by rewrite length_fmap; lia].
  split; [done|]. split; [lia|].
  intros r row Hrow.
  set (f := λ word_id, if decide (num_shortlist_words v ≤ word_id)
                       then unk_id else word_id) in *.
  assert ((fmap (M := list) f <$> word_ids) !! r = Some (f <$> row)) as Hrow'.
  { by rewrite list_lookup_fmap, Hrow. }
  apply mapM_Ok_Forall2 in Hstep0, Hstep1.
  destruct (Forall2_lookup_l _ _ _ _ _ Hstep0 Hrow') as (crow & Hcrow & Hc).
  destruct (Forall2_lookup_l _ _ _ _ _ Hstep1 Hcrow) as (wrow & Hwrow & Hw).
  destruct (Hps r wrow (f <$> row) Hwrow Hrow') as (prow & Hprow & Hp).
  pose proof (mapM_Ok_length _ _ _ Hc) as Hlc.
  pose proof (mapM_Ok_length _ _ _ Hw) as Hlw.
  rewrite length_fmap in Hlc.
  apply mapM_zip_Ok in Hp as [Hlp Hp]; [|by rewrite length_fmap; lia].
  exists crow, prow. split; [done|]. split; [done|]. split; [done|].
  split; [lia|].
  intros c word_id Hid.
  assert ((f <$> row) !! c = Some (shortlist_id v unk_id word_id)) as Hid'.
  { rewrite list_lookup_fmap, Hid. simpl. f_equal. apply shortlist_id_eq. }
  apply mapM_Ok_Forall2 in Hc, Hw.
  destruct (Forall2_lookup_l _ _ _ _ _ Hc Hid') as (class_id & Hcid & Hc').
  destruct (Forall2_lookup_l _ _ _ _ _ Hw Hcid) as (wc & Hwc & Hw').
  destruct (Hp c wc _ Hwc Hid') as (prob & Hprob & Hp').
  exists class_id, prob. split; [done|]. split; [done|].
  apply py_index_Ok in Hc'. split; [done|].
  unfold get_word_prob. rewrite (proj2 (py_index_Ok _ _ _) Hc'). simpl.
  rewrite Hw'. done.
Qed.

Lemma get_class_memberships_spec_witness :
  ∃ unk_id,
    word_to_id example_vocabulary !! "<unk>" = Some unk_id
    ∧ length [[0; 4]; [0; 4]] = length [[0; 6]; [2; 9]]
    ∧ length [[(1 / 2)%Qc; 1%Qc]; [(1 / 2)%Qc; 1%Qc]] = length [[0; 6]; [2; 9]]
    ∧ ∀ r row, [[0; 6]; [2; 9]] !! r = Some row →
        ∃ class_row prob_row,
          [[0; 4]; [0; 4]] !! r = Some class_row
          ∧ [[(1 / 2)%Qc; 1%Qc]; [(1 / 2)%Qc; 1%Qc]] !! r = Some prob_row
          ∧ length class_row = length row
          ∧ length prob_row = length row
          ∧ ∀ c word_id, row !! c = Some word_id →
              ∃ class_id prob,
                class_row !! c = Some class_id
                ∧ prob_row !! c = Some prob
                ∧ word_id_to_class_id example_vocabulary
                  !! shortlist_id example_vocabulary unk_id word_id
                  = Some class_id
                ∧ get_word_prob example_vocabulary
                    (shortlist_id example_vocabulary unk_id word_id) = Ok prob.
Proof.
  apply (get_class_memberships_spec example_vocabulary [[0; 6]; [2; 9]]).
  apply (bool_decide_unpack _). vm_compute. reflexivity.
Defined.

Lemma concat_nil_rows {A} (m : list (list A)) :
  concat m = [] → m = replicate (length m) [].
Proof.
  induction m as [|row m IH]; simpl; [done|].
  intros [-> Hm]%app_eq_nil. by rewrite <-IH.
Qed.

Lemma mapM_rows_nil {A B} (f : A → result B) n :
  mapM (mapM f) (replicate n []) = Ok (replicate n []).
Proof. induction n as [|n IH]; simpl; [done|]. by rewrite IH. Qed.

(** X4: on a matrix without entries [get_class_memberships] raises
    [ValueError], whatever the shape. *)
Theorem get_class_memberships_empty v word_ids :
  constructed v → concat word_ids = [] →
  get_class_memberships v word_ids = Raise ValueError.
Proof.
  intros Hc Hnil. destruct (constructed_unk_id v Hc) as (unk_id & Hunk & _).
  unfold get_class_memberships, py_getitem. rewrite Hunk. simpl.
  rewrite (concat_nil_rows _ Hnil), fmap_replicate. simpl.
  rewrite mapM_rows_nil. simpl. rewrite mapM_rows_nil. simpl.
  unfold np_vectorize2. rewrite decide_True; [done|].
  clear. induction (length word_ids); simpl; done.
Qed.

Lemma get_class_memberships_empty_witness :
  get_class_memberships example_vocabulary [[]; []] = Raise ValueError.
Proof.
  apply (get_class_memberships_empty example_vocabulary [[]; []]).
  - apply (constructed_init ["the"; "<x>"; "dog"] [0; 1; 0] example_classes
                            (Some ["cat"; "dog"])).
    apply (bool_decide_unpack _). vm_compute. reflexivity.
  - reflexivity.
Defined.

Lemma assoc_get_is_Some l j :
  j ∈ l.*1 → is_Some (WordClass.assoc_get l j).
Proof.
  induction l as [|[w q] l IH]; simpl.
  - by intros ?%elem_of_nil.
  - intros Hj. destruct (decide (w = j)); [by eexists|].
    apply IH. apply elem_of_cons in Hj as [->|Hj]; done.
Qed.

Lemma concat_nil_shape {A B} (a : list (list A)) (b : list (list B)) :
  length <$> a = length <$> b → concat a = [] → concat b = [].
Proof.
  revert b. induction a as [|x a IH]; intros [|y b]; simpl; try done.
  intros [= Hxy Hab] [-> Ha]%app_eq_nil.
  destruct y; [|done]. simpl. by apply IH.
Qed.

Lemma class_rows_total v (f : nat → nat) :
  (∀ word_id, ∃ c cls p,
     word_id_to_class_id v !! f word_id = Some c
     ∧ _word_classes v !! c = Some cls
     ∧ WordClass.get_prob cls (f word_id) = Ok p) →
  ∀ word_ids : list (list nat),
    ∃ class_ids word_classes probs,
      mapM (mapM (py_index (word_id_to_class_id v)))
           (fmap (M := list) f <$> word_ids) = Ok class_ids
      ∧ mapM (mapM (py_index (_word_classes v))) class_ids = Ok word_classes
      ∧ length <$> word_classes = length <$> word_ids
      ∧ mapM (λ rows : list WordClass.t * list nat,
                mapM (λ ab : WordClass.t * nat, WordClass.get_prob ab.1 ab.2)
                     (zip rows.1 rows.2))
             (zip word_classes (fmap (M := list) f <$> word_ids))
        = Ok probs.
Proof.
  intros Hf.
  assert (∀ row : list nat, ∃ crow wrow prow,
            mapM (py_index (word_id_to_class_id v)) (f <$> row) = Ok crow
            ∧ mapM (py_index (_word_classes v)) crow = Ok wrow
            ∧ length wrow = length row
            ∧ mapM (λ ab : WordClass.t * nat, WordClass.get_prob ab.1 ab.2)
                   (zip wrow (f <$> row)) = Ok prow) as Hrow.
  { induction row as [|word_id row (crow & wrow & prow & Hc1 & Hc2 & Hl & Hc3)].
    - by exists [], [], [].
    - destruct (Hf word_id) as (c & cls & p & Hc' & Hcls & Hp).
      apply py_index_Ok in Hc', Hcls.
      exists (c :: crow), (cls :: wrow), (p :: prow). csimpl.
      rewrite Hc'. csimpl. rewrite Hc1. csimpl.
      rewrite Hcls. csimpl. rewrite Hc2. csimpl.
      rewrite Hp. csimpl. rewrite Hc3. csimpl. split; [done|]. split; [done|].
      split; [by rewrite Hl|done]. }
  induction word_ids as [|row m (cs & ws & ps & H1 & H2 & Hl & H3)].
  - by exists [], [], [].
  - destruct (Hrow row) as (crow & wrow & prow & Hc1 & Hc2 & Hlr & Hc3).
    exists (crow :: cs), (wrow :: ws), (prow :: ps). csimpl.
    rewrite Hc1. csimpl. rewrite H1. csimpl. rewrite Hc2. csimpl.
    rewrite H2. csimpl. rewrite Hc3. csimpl. rewrite H3. csimpl.
    by rewrite Hlr, Hl.
Qed.

(** X5: when the classes agree with [word_id_to_class_id],
    [get_class_memberships] accepts every matrix that has an entry: no word
    ID is too large for it. *)
Theorem get_class_memberships_total v word_ids :
  constructed v → classes_consistent v → concat word_ids ≠ [] →
  is_ok (get_class_memberships v word_ids).
Proof.
  intros Hc [_ Hcons] Hne.
  destruct (constructed_unk_id v Hc) as (unk_id & Hunk & Hlt).
  unfold get_class_memberships, py_getitem. rewrite Hunk. simpl.
  set (f := λ word_id, if decide (num_shortlist_words v ≤ word_id)
                       then unk_id else word_id).
  destruct (class_rows_total v f) with (word_ids := word_ids)
    as (class_ids & word_classes & probs & H1 & H2 & Hl & H3).
  { intros word_id.
    assert (f word_id < num_shortlist_words v) as Hlt'.
    { unfold f. case_decide; lia. }
    apply lookup_lt_is_Some_2 in Hlt' as [c Hc'].
    destruct (Hcons _ _ Hc') as (cls & Hcls & Hmem).
    destruct (assoc_get_is_Some _ _ Hmem) as [q Hq].
    exists c, cls, q. unfold WordClass.get_prob. by rewrite Hq. }
  rewrite H1. simpl. rewrite H2. simpl. unfold np_vectorize2.
  rewrite decide_False.
  - rewrite H3. simpl. apply is_ok_Ok.
  - intros Hnil. apply Hne. by eapply concat_nil_shape.
Qed.

Lemma example_vocabulary_consistent : classes_consistent example_vocabulary.
Proof.
  split.
  - intros c cls j Hcls Hj.
    do 5 (destruct c as [|c]; [injection Hcls as <-; set_solver|]). done.
  - intros j c Hj.
    do 6 (destruct j as [|j];
          [injection Hj as <-; eexists; split; [reflexivity|set_solver]|]).
    done.
Qed.

Lemma get_class_memberships_total_witness :
  is_ok (get_class_memberships example_vocabulary [[0; 6]; [2; 9]]).
Proof.
  apply (get_class_memberships_total example_vocabulary [[0; 6]; [2; 9]]).
  - apply (constructed_init ["the"; "<x>"; "dog"] [0; 1; 0] example_classes
                            (Some ["cat"; "dog"])).
    apply (bool_decide_unpack _). vm_compute. reflexivity.
  - apply example_vocabulary_consistent.
  - discriminate.
Defined.

(** ** What the constructor adds *)

Lemma with_special_lengths token st :
  let n := if bool_decide (token ∈ st.1.1) then 0 else 1 in
  length (with_special token st).1.1 = length st.1.1 + n
  ∧ length (with_special token st).2 = length st.2 + n.
Proof.
  destruct st as [[itw w2c] wcs]. unfold with_special. simpl.
  case_bool_decide; simpl; rewrite ?length_app; simpl; lia.
Qed.

Lemma with_special_elem_inv token st w :
  w ∈ (with_special token st).1.1 ↔ w ∈ st.1.1 ∨ w = token.
Proof.
  destruct st as [[itw w2c] wcs]. unfold with_special. simpl.
  case_bool_decide; simpl; set_solver.
Qed.

Lemma with_specials_elem_inv st w :
  w ∈ (with_specials st).1.1 ↔ w ∈ st.1.1 ∨ w ∈ special_tokens.
Proof.
  unfold with_specials, special_tokens.
  rewrite !with_special_elem_inv. set_solver.
Qed.

Lemma with_specials_lengths st :
  length (with_specials st).1.1
  = length st.1.1 + length (missing_special st.1.1)
  ∧ length (with_specials st).2 = length st.2 + length (missing_special st.1.1).
Proof.
  unfold with_specials.
  destruct (with_special_lengths "<unk>"
              (with_special "</s>" (with_special "<s>" st))) as [-> ->].
  destruct (with_special_lengths "</s>" (with_special "<s>" st)) as [-> ->].
  destruct (with_special_lengths "<s>" st) as [-> ->].
  assert ("</s>" ∈ (with_special "<s>" st).1.1 ↔ "</s>" ∈ st.1.1) as H2.
  { rewrite with_special_elem_inv. naive_solver. }
  assert ("<unk>" ∈ (with_special "</s>" (with_special "<s>" st)).1.1
          ↔ "<unk>" ∈ st.1.1) as H3.
  { rewrite !with_special_elem_inv. naive_solver. }
  rewrite (bool_decide_ext _ _ H2), (bool_decide_ext _ _ H3).
  unfold missing_special, special_tokens.
  rewrite !filter_cons, filter_nil.
  repeat case_bool_decide; repeat case_decide; simpl; try lia; done.
Qed.

Lemma Vocabulary_init_lengths itw w2c wcs oos v :
  Vocabulary_init itw w2c wcs oos = Ok v →
  num_shortlist_words v = length itw + length (missing_special itw)
  ∧ num_classes v = length wcs + length (missing_special itw)
  ∧ (oos = None → num_words v = num_shortlist_words v).
Proof.
  intros (Hlen & n & classes & Hscan & Hnorm & ->)%Vocabulary_init_Ok.
  unfold num_shortlist_words, num_classes, num_words. simpl in *.
  destruct (with_specials_lengths (itw, w2c, wcs)) as [Hl1 Hl2]. simpl in *.
  assert (lists_balanced (with_specials (itw, w2c, wcs))) as Hbal
    by by apply with_specials_balanced.
  unfold lists_balanced in Hbal.
  split; [lia|]. split.
  - apply mapM_Ok_length in Hnorm. lia.
  - by intros ->.
Qed.

(** X6: the constructor keeps the given words and class IDs where they are
    and appends, to the word list, the class-ID list and the list of classes
    alike, one entry for each special token that the word list lacks;
    out-of-shortlist words add no class ID and no class. *)
Theorem Vocabulary_init_sizes itw w2c wcs oos v :
  Vocabulary_init itw w2c wcs oos = Ok v →
  itw `prefix_of` id_to_word v
  ∧ w2c `prefix_of` word_id_to_class_id v
  ∧ num_shortlist_words v = length itw + length (missing_special itw)
  ∧ num_classes v = length wcs + length (missing_special itw)
  ∧ (oos = None → num_words v = num_shortlist_words v).
Proof.
  intros Hinit. pose proof (Vocabulary_init_prefix _ _ _ _ _ Hinit) as [? ?].
  split; [done|]. split; [done|]. by eapply Vocabulary_init_lengths.
Qed.

Lemma Vocabulary_init_sizes_witness :
  ["the"; "<x>"; "dog"] `prefix_of` id_to_word example_vocabulary
  ∧ [0; 1; 0] `prefix_of` word_id_to_class_id example_vocabulary
  ∧ num_shortlist_words example_vocabulary
    = 3 + length (missing_special ["the"; "<x>"; "dog"])
  ∧ num_classes example_vocabulary
    = 2 + length (missing_special ["the"; "<x>"; "dog"])
  ∧ (Some ["cat"; "dog"] = None →
     num_words example_vocabulary = num_shortlist_words example_vocabulary).
Proof.
  apply (Vocabulary_init_sizes ["the"; "<x>"; "dog"] [0; 1; 0] example_classes
                               (Some ["cat"; "dog"]) example_vocabulary).
  apply (bool_decide_unpack _). vm_compute. reflexivity.
Defined.

(** X7: every word of [oos_words] is in the vocabulary afterwards; one that
    is neither among the given words nor a special token gets an ID outside
    the shortlist, and only words of [oos_words] get such IDs. *)
Theorem Vocabulary_init_oos_words itw w2c wcs ws v :
  Vocabulary_init itw w2c wcs (Some ws) = Ok v →
  (∀ w, w ∈ ws → __contains__ v w = true)
  ∧ (∀ w i, w ∈ ws → w ∉ itw → w ∉ special_tokens →
       word_to_id v !! w = Some i → in_shortlist v i = false)
  ∧ (∀ w i, id_to_word v !! i = Some w → in_shortlist v i = false → w ∈ ws).
Proof.
  intros Hinit.
  pose proof (Vocabulary_init_word_to_id _ _ _ _ _ Hinit) as [Hmap _].
  destruct (Vocabulary_init_shape _ _ _ _ _ Hinit)
    as (shortlist & ext & Heq & Hlen & _ & _ & _ & Hext & Hall).
  assert (∀ w, w ∈ shortlist → w ∈ itw ∨ w ∈ special_tokens) as Hshort.
  { apply Vocabulary_init_Ok in Hinit
      as (Hl & n & classes & Hscan & Hnorm & ->). simpl in *.
    destruct (add_oos_words_shape (with_specials (itw, w2c, wcs)).1.1 ws)
      as (ext' & Heq' & _).
    rewrite Heq' in Heq. unfold num_shortlist_words in Hlen. simpl in Hlen.
    assert (lists_balanced (with_specials (itw, w2c, wcs))) as Hbal
      by by apply with_specials_balanced.
    unfold lists_balanced in Hbal.
    apply app_inj_1 in Heq as [<- _]; [|lia].
    intros w Hw. by apply with_specials_elem_inv in Hw. }
  split; [|split].
  - intros w Hw. unfold __contains__. apply bool_decide_eq_true.
    rewrite Hmap. apply make_word_to_id_is_Some. rewrite Heq. by eapply Hall.
  - intros w i Hw Hni Hns Hi. unfold in_shortlist.
    apply bool_decide_eq_false. fold (num_shortlist_words v). rewrite <-Hlen.
    intros Hlt. rewrite Hmap in Hi. apply make_word_to_id_lookup in Hi.
    rewrite Heq, lookup_app_l in Hi by done.
    apply list_elem_of_lookup_2 in Hi. destruct (Hshort w Hi); done.
  - intros w i Hi Hoos. unfold in_shortlist in Hoos.
    apply bool_decide_eq_false in Hoos. fold (num_shortlist_words v) in Hoos.
    rewrite Heq, lookup_app_r in Hi by lia.
    apply list_elem_of_lookup_2 in Hi.
    destruct (Hext w Hi) as (_ & ws' & [= <-] & ?). done.
Qed.

Lemma Vocabulary_init_oos_words_witness :
  (∀ w, w ∈ ["cat"; "dog"] → __contains__ example_vocabulary w = true)
  ∧ (∀ w i, w ∈ ["cat"; "dog"] → w ∉ ["the"; "<x>"; "dog"] →
       w ∉ special_tokens →
       word_to_id example_vocabulary !! w = Some i →
       in_shortlist example_vocabulary i = false)
  ∧ (∀ w i, id_to_word example_vocabulary !! i = Some w →
       in_shortlist example_vocabulary i = false → w ∈ ["cat"; "dog"]).
Proof.
  apply (Vocabulary_init_oos_words ["the"; "<x>"; "dog"] [0; 1; 0]
                                   example_classes ["cat"; "dog"]).
  apply (bool_decide_unpack _). vm_compute. reflexivity.
Defined.

Lemma scan_special_prefix itw itw' wcs n m :
  itw `prefix_of` itw' →
  scan_special itw wcs n = Ok m → scan_special itw' wcs n = Ok m.
Proof.
  intros Hpre. induction n as [|index IH]; simpl; [done|].
  intros H. inv_ok H. rewrite Hstep. simpl.
  destruct a as [word_class|]; [|done].
  case_bool_decide; [|done].
  destruct (head (WordClass.iter word_class)) as [[word_id p]|]; [|done].
  inv_ok H. apply py_index_Ok in Hstep0.
  rewrite (proj2 (py_index_Ok _ _ _)
             (prefix_lookup_Some _ _ _ _ Hstep0 Hpre)). simpl.
  destruct (String.prefix "<" a); [by apply IH|done].
Qed.

Lemma make_word_to_id_app sl ext w :
  w ∉ ext → make_word_to_id (sl ++ ext) !! w = make_word_to_id sl !! w.
Proof.
  induction ext as [|x ext IH] using rev_ind; intros Hw.
  - by rewrite app_nil_r.
  - rewrite app_assoc, make_word_to_id_snoc.
    rewrite lookup_insert_ne by set_solver. apply IH. set_solver.
Qed.

(** X8: out-of-shortlist words change nothing but the end of the word list:
    with them the constructor succeeds whenever it does without them, and
    gives the same class IDs, classes and number of normal classes, the same
    word list extended at its end, and the same ID for every word that was
    there. *)
Theorem Vocabulary_init_oos_extends itw w2c wcs ws v0 :
  Vocabulary_init itw w2c wcs None = Ok v0 →
  ∃ v, Vocabulary_init itw w2c wcs (Some ws) = Ok v
       ∧ id_to_word v0 `prefix_of` id_to_word v
       ∧ word_id_to_class_id v = word_id_to_class_id v0
       ∧ _word_classes v = _word_classes v0
       ∧ num_normal_classes v = num_normal_classes v0
       ∧ ∀ w, w ∈ id_to_word v0 → word_to_id v !! w = word_to_id v0 !! w.
Proof.
  intros (Hlen & n & classes & Hscan & Hnorm & ->)%Vocabulary_init_Ok.
  simpl in *. set (st := with_specials (itw, w2c, wcs)) in *.
  eexists. split.
  { apply Vocabulary_init_Ok. split; [done|]. exists n, classes. simpl.
    fold st. split; [|split; [done|reflexivity]].
    eapply scan_special_prefix; [|exact Hscan]. apply add_oos_words_prefix. }
  simpl. split; [apply add_oos_words_prefix|]. do 3 (split; [done|]).
  intros w Hw.
  destruct (add_oos_words_shape st.1.1 ws) as (ext & -> & _ & Hext).
  apply make_word_to_id_app. intros Hin. by destruct (Hext w Hin).
Qed.

Lemma Vocabulary_init_oos_extends_witness :
  ∃ v, Vocabulary_init ["the"; "<x>"; "dog"] [0; 1; 0] example_classes
                       (Some ["cat"; "dog"]) = Ok v
       ∧ id_to_word shortlist_vocabulary `prefix_of` id_to_word v
       ∧ word_id_to_class_id v = word_id_to_class_id shortlist_vocabulary
       ∧ _word_classes v = _word_classes shortlist_vocabulary
       ∧ num_normal_classes v = num_normal_classes shortlist_vocabulary
       ∧ ∀ w, w ∈ id_to_word shortlist_vocabulary →
           word_to_id v !! w = word_to_id shortlist_vocabulary !! w.
Proof.
  apply (Vocabulary_init_oos_extends ["the"; "<x>"; "dog"] [0; 1; 0]
                                     example_classes ["cat"; "dog"]
                                     shortlist_vocabulary).
  apply (bool_decide_unpack _). vm_compute. reflexivity.
Defined.

(** ** The errors of the constructor *)

Lemma scan_special_Raise itw wcs n e :
  scan_special itw wcs n = Raise e →
  e = IndexError ∨ e = TypeError ∨ e = StopIteration.
Proof.
  induction n as [|index IH]; simpl; [done|].
  unfold py_index.
  destruct (wcs !! index) as [[word_class|]|]; simpl;
    [|intros [= <-]; auto..].
  case_bool_decide; [|done].
  destruct (head (WordClass.iter word_class)) as [[word_id p]|];
    [|intros [= <-]; auto].
  destruct (itw !! word_id) as [word|]; simpl; [|intros [= <-]; auto].
  destruct (String.prefix "<" word); [done|done].
Qed.

Lemma normalize_slots_Raise wcs e :
  mapM normalize_slot wcs = Raise e → e = AttributeError.
Proof.
  induction wcs as [|[wc|] wcs IH]; simpl; [done| |by intros [= <-]].
  destruct (mapM normalize_slot wcs); simpl; [done|]. intros [= <-]. by apply IH.
Qed.

Lemma Vocabulary_init_Raise itw w2c wcs oos e :
  Vocabulary_init itw w2c wcs oos = Raise e →
  (e = ValueError ∧ length itw ≠ length w2c)
  ∨ (length itw = length w2c
     ∧ (e = IndexError ∨ e = TypeError ∨ e = StopIteration
        ∨ e = AttributeError)).
Proof.
  unfold Vocabulary_init. case_bool_decide as Hlen.
  { intros [= <-]. by left. }
  assert (length itw = length w2c) as Hbal
    by (destruct (decide (length itw = length w2c)); done).
  rewrite (add_special_balanced "<s>" (itw, w2c, wcs)) by done. simpl.
  rewrite (add_special_balanced "</s>")
    by by apply with_special_balanced. simpl.
  rewrite (add_special_balanced "<unk>")
    by by do 2 apply with_special_balanced. simpl.
  destruct (with_special "<unk>" _) as [[itw' w2c'] wcs'].
  intros H. right. split; [done|].
  destruct (scan_special _ wcs' (length wcs')) as [n|e'] eqn:Hscan; simpl in H.
  - destruct (mapM normalize_slot wcs') as [classes|e'] eqn:Hnorm;
      simpl in H; [done|].
    injection H as ->. apply normalize_slots_Raise in Hnorm. auto.
  - injection H as ->. apply scan_special_Raise in Hscan. tauto.
Qed.

(** X9: the constructor raises [ValueError] exactly when the word list and
    the class-ID list differ in length, and its assertions never fail. *)
Theorem Vocabulary_init_errors itw w2c wcs oos :
  (Vocabulary_init itw w2c wcs oos = Raise ValueError
   ↔ length itw ≠ length w2c)
  ∧ Vocabulary_init itw w2c wcs oos ≠ Raise AssertionError.
Proof.
  split; [split|].
  - intros [[_ ?]|[_ [?|[?|[?|?]]]]]%Vocabulary_init_Raise; done.
  - intros Hne. unfold Vocabulary_init. by rewrite bool_decide_eq_true_2.
  - intros [[? _]|[_ [?|[?|[?|?]]]]]%Vocabulary_init_Raise; done.
Qed.

(** X10: after construction the membership probabilities of every class
    that has a member sum to 1. *)
Theorem Vocabulary_init_normalized itw w2c wcs oos v :
  Vocabulary_init itw w2c wcs oos = Ok v →
  ∀ c cls, _word_classes v !! c = Some cls →
    WordClass.probs cls ≠ [] → WordClass.total cls = 1%Qc.
Proof.
  intros (Hlen & n & classes & Hscan & Hnorm & ->)%Vocabulary_init_Ok.
  simpl in *. intros c cls Hcls Hne.
  destruct (normalize_slots_lookup _ _ c Hnorm) as (wc & _ & Hwc).
  { apply mapM_Ok_length in Hnorm. apply lookup_lt_Some in Hcls. lia. }
  rewrite Hcls in Hwc. injection Hwc as ->.
  apply normalize_total. intros Hnil. apply Hne.
  pose proof (normalize_probs_length wc) as Hl. unfold WordClass.len in Hl.
  rewrite Hnil in Hl. by destruct (WordClass.probs (WordClass.normalize_probs wc)).
Qed.

Lemma Vocabulary_init_normalized_witness :
  Vocabulary_init ["the"; "<x>"; "dog"] [0; 1; 0] example_classes
                  (Some ["cat"; "dog"]) = Ok example_vocabulary
  ∧ ∀ c cls, _word_classes example_vocabulary !! c = Some cls →
      WordClass.probs cls ≠ [] → WordClass.total cls = 1%Qc.
Proof.
  assert (Vocabulary_init ["the"; "<x>"; "dog"] [0; 1; 0] example_classes
                          (Some ["cat"; "dog"]) = Ok example_vocabulary)
    as Hinit.
  { apply (bool_decide_unpack _). vm_compute. reflexivity. }
  split; [exact Hinit|].
  apply (Vocabulary_init_normalized ["the"; "<x>"; "dog"] [0; 1; 0]
                                    example_classes (Some ["cat"; "dog"])
                                    example_vocabulary Hinit).
Defined.

(** ** Reading a vocabulary file *)

Section from_file_classes.

Variable py_int : string → option Z.
Variable py_float : string → option Qc.
Variable input_format : string.

Local Abbreviation parse' := (parse_fields py_int py_float input_format).
Local Abbreviation read' := (read_line py_int py_float input_format).
Local Abbreviation read_all' := (read_lines py_int py_float input_format).
Local Abbreviation entry_of := (line_entry py_int py_float input_format).

Lemma parse_fields_unkeyed fields line word prob :
  parse' fields line = Ok (word, None, prob) → prob = 1%Qc.
Proof.
  unfold parse_fields.
  destruct fields as [|f0 [|f1 [|f2 [|f3 fields]]]]; try done;
    case_decide; try done.
  - by intros [= _ <-].
  - by destruct (py_int f1).
  - by destruct (py_float f1).
Qed.

Lemma line_entry_blank line : line_fields line = [] → entry_of line = None.
Proof.
  unfold line_entry, line_word. intros ->.
  by destruct (parse_fields _ _ _ _ _) as [[[??]?]|].
Qed.

Lemma line_entry_parse line word fid prob :
  line_fields line ≠ [] →
  parse' (line_fields line) (py_strip line) = Ok (word, fid, prob) →
  entry_of line = Some (word, fid).
Proof.
  unfold line_entry, line_word, line_key. intros Hne ->.
  by rewrite !decide_False by done.
Qed.

Lemma reader_inv_init : reader_inv [] reader_init.
Proof.
  split; simpl; try done.
  - intros w. set_solver.
  - constructor.
Qed.

Lemma read_line_inv entries r line r' :
  reader_inv entries r →
  read' r line = Ok r' →
  reader_inv (entries ++ option_list (entry_of line)) r'.
Proof.
  intros Hinv. unfold read_line. fold (line_fields line).
  case_decide as Hblank.
  { intros [= <-]. rewrite line_entry_blank by done. simpl.
    by rewrite app_nil_r. }
  intros H. inv_ok H. destruct a as [[word fid] prob].
  rewrite (line_entry_parse _ _ _ _ Hblank Hstep). simpl.
  case_decide as Hdup; [done|].
  destruct Hinv as [Hitw Hws Hnd Hlen Hkeyed Hbound Hinj Hplain].
  assert (length (r_id_to_word r) = length entries) as Hlen'.
  { by rewrite Hitw, length_fmap. }
  inv_ok H. destruct a as [[class_id wcs] fids]. inv_ok H.
  injection H as <-.
  assert (NoDup (entries ++ [(word, fid)]).*1) as Hnd'.
  { rewrite fmap_app. simpl. apply NoDup_app. split; [done|]. split.
    - intros w Hw ->%list_elem_of_singleton. by apply Hdup, Hws.
    - apply NoDup_singleton. }
  destruct (fid ≫= (r_file_id_to_class_id r !!.)) as [c|] eqn:Hfid.
  - (* the key has a class already *)
    destruct fid as [k|]; [simpl in Hfid|done].
    inv_ok Hstep0. injection Hstep0 as <- <- <-.
    split; simpl.
    + by rewrite fmap_app, Hitw.
    + intros w. rewrite fmap_app. simpl. set_solver.
    + done.
    + rewrite !length_app. simpl. lia.
    + intros j w k' Hj. apply lookup_app_Some in Hj as [Hj|[Hge Hj]].
      * destruct (Hkeyed _ _ _ Hj) as (c' & ? & Hc'). exists c'.
        split; [done|]. by rewrite lookup_app_l by (by eapply lookup_lt_Some).
      * apply list_lookup_singleton_Some in Hj as [Hj [= <- <-]].
        exists c. split; [done|].
        rewrite lookup_app_r by lia.
        replace (j - length (r_word_id_to_class_id r)) with 0 by lia. done.
    + intros k' c' Hk'. rewrite length_insert. by eapply Hbound.
    + done.
    + intros Hall. apply Forall_app in Hall as [_ Hall].
      by inversion Hall.
  - (* a new class *)
    injection Hstep0 as <- <- <-.
    assert (prob = 1%Qc ∨ ∃ k, fid = Some k) as Hprob.
    { destruct fid as [k|]; [right; eauto|left].
      by eapply parse_fields_unkeyed. }
    split; simpl.
    + by rewrite fmap_app, Hitw.
    + intros w. rewrite fmap_app. simpl. set_solver.
    + done.
    + rewrite !length_app. simpl. lia.
    + intros j w k' Hj. apply lookup_app_Some in Hj as [Hj|[Hge Hj]].
      * destruct (Hkeyed _ _ _ Hj) as (c' & Hk' & Hc'). exists c'. split.
        -- destruct fid as [k|]; [|done]. simpl in Hfid.
           rewrite lookup_insert_ne; [done|]. congruence.
        -- by rewrite lookup_app_l by (by eapply lookup_lt_Some).
      * apply list_lookup_singleton_Some in Hj as [Hj [= -> ->]].
        exists (length (r_word_classes r)). split.
        -- by rewrite lookup_insert_eq.
        -- rewrite lookup_app_r by lia.
           replace (j - length (r_word_id_to_class_id r)) with 0 by lia. done.
    + intros k' c' Hk'. rewrite length_app. simpl.
      destruct fid as [k|]; [|apply Hbound in Hk'; lia].
      apply lookup_insert_Some in Hk' as [[_ <-]|[_ Hk']]; [lia|].
      apply Hbound in Hk'. lia.
    + intros k1 k2 c' H1 H2.
      destruct fid as [k|]; [|by eapply Hinj].
      apply lookup_insert_Some in H1 as [[<- <-]|[? H1]],
            H2 as [[<- ?]|[? H2]]; try done.
      * apply Hbound in H2. lia.
      * apply Hbound in H1. lia.
      * by eapply Hinj.
    + intros Hall. apply Forall_app in Hall as [Hall Hnew].
      inversion Hnew as [|? ? Hfid' _]. simpl in Hfid'. subst fid.
      destruct Hprob as [->|[? ?]]; [|done].
      destruct (Hplain Hall) as [Hw2c Hcls].
      rewrite length_app.
      replace (length entries + length [(word, @None file_id)])
        with (S (length entries)) by (simpl; lia).
      rewrite !seq_S, fmap_app. simpl.
      rewrite Hlen', Hw2c, Hcls, length_fmap, length_seq. done.
Qed.

Lemma read_lines_inv lines r :
  read_all' lines = Ok r → reader_inv (omap entry_of lines) r.
Proof.
  unfold read_lines. revert r.
  induction lines as [|line lines IH] using rev_ind; intros r.
  - intros [= <-]. apply reader_inv_init.
  - rewrite foldlM_snoc. intros H. inv_ok H.
    rewrite omap_app. simpl.
    replace (match entry_of line with Some y => [y] | None => [] end)
      with (option_list (entry_of line)) by by destruct (entry_of line).
    eapply read_line_inv; [|done]. by apply IH.
Qed.

End from_file_classes.

(** ** Distinct words *)

Lemma make_word_to_id_NoDup l i w :
  NoDup l → l !! i = Some w → make_word_to_id l !! w = Some i.
Proof.
  intros Hnd Hi.
  destruct (proj2 (make_word_to_id_is_Some l w)) as [j Hj].
  { by eapply list_elem_of_lookup_2. }
  rewrite Hj. f_equal. apply make_word_to_id_lookup in Hj.
  by eapply NoDup_lookup.
Qed.

Lemma with_special_NoDup token st :
  NoDup st.1.1 → NoDup (with_special token st).1.1.
Proof.
  destruct st as [[itw w2c] wcs]. unfold with_special. simpl.
  case_bool_decide; simpl; [done|]. intros Hnd.
  apply NoDup_app. split; [done|]. split; [|apply NoDup_singleton].
  by intros w Hw ->%list_elem_of_singleton.
Qed.

Lemma Vocabulary_init_NoDup itw w2c wcs oos v :
  NoDup itw →
  Vocabulary_init itw w2c wcs oos = Ok v →
  NoDup (id_to_word v)
  ∧ ∀ i w, id_to_word v !! i = Some w ↔ word_to_id v !! w = Some i.
Proof.
  intros Hnd Hinit.
  pose proof (Vocabulary_init_word_to_id _ _ _ _ _ Hinit) as [Hmap Hsp].
  assert (NoDup (id_to_word v)) as Hnd'.
  { destruct (Vocabulary_init_shape _ _ _ _ _ Hinit)
      as (shortlist & ext & Heq & Hlen & _ & _ & Hext & Hnew & _).
    rewrite Heq. apply NoDup_app. split; [|split; [|done]].
    - apply Vocabulary_init_Ok in Hinit
        as (Hl & n & classes & Hscan & Hnorm & ->). simpl in *.
      assert (shortlist = (with_specials (itw, w2c, wcs)).1.1) as ->.
      { assert (lists_balanced (with_specials (itw, w2c, wcs))) as Hbal
          by by apply with_specials_balanced.
        unfold lists_balanced, num_shortlist_words in *. simpl in *.
        assert ((with_specials (itw, w2c, wcs)).1.1
                `prefix_of` shortlist ++ ext) as [k Hk].
        { rewrite <-Heq. apply with_oos_prefix. }
        apply app_inj_1 in Hk as [? _]; [done|lia]. }
      unfold with_specials. by do 3 apply with_special_NoDup.
    - intros w Hw Hw'. by destruct (Hnew w Hw'). }
  split; [done|].
  intros i w. rewrite Hmap. split.
  - by apply make_word_to_id_NoDup.
  - apply make_word_to_id_lookup.
Qed.

Lemma words_to_ids_id_to_word v :
  NoDup (id_to_word v) →
  word_to_id v = make_word_to_id (id_to_word v) →
  "<unk>" ∈ id_to_word v →
  words_to_ids v (id_to_word v) = Ok (seq 0 (num_words v)).
Proof.
  intros Hnd Hmap Hin. unfold words_to_ids, py_getitem.
  destruct (proj2 (make_word_to_id_is_Some (id_to_word v) "<unk>") Hin)
    as [unk_id Hunk].
  rewrite Hmap at 1. rewrite Hunk. simpl. f_equal.
  apply list_eq. intros i. rewrite list_lookup_fmap.
  destruct (id_to_word v !! i) as [w|] eqn:Hi; simpl.
  - rewrite Hmap, (make_word_to_id_NoDup _ i w) by done. simpl.
    symmetry. apply lookup_seq. split; [done|]. by eapply lookup_lt_Some.
  - symmetry. apply lookup_seq_ge. by apply lookup_ge_None.
Qed.

(** X11: when the words given to the constructor are distinct, so are the
    words of the vocabulary: [word_to_id] and [id_to_word] are inverse to
    each other, and translating [id_to_word] gives the IDs 0, 1, 2, ... *)
Theorem Vocabulary_init_distinct itw w2c wcs oos v :
  NoDup itw →
  Vocabulary_init itw w2c wcs oos = Ok v →
  NoDup (id_to_word v)
  ∧ (∀ i w, id_to_word v !! i = Some w ↔ word_to_id v !! w = Some i)
  ∧ words_to_ids v (id_to_word v) = Ok (seq 0 (num_words v)).
Proof.
  intros Hnd Hinit.
  destruct (Vocabulary_init_NoDup _ _ _ _ _ Hnd Hinit) as [Hnd' Hbij].
  pose proof (Vocabulary_init_word_to_id _ _ _ _ _ Hinit) as [Hmap Hsp].
  split; [done|]. split; [done|].
  apply words_to_ids_id_to_word; [done..|].
  apply Hsp. unfold special_tokens. set_solver.
Qed.

Lemma Vocabulary_init_distinct_witness :
  NoDup (id_to_word example_vocabulary)
  ∧ (∀ i w, id_to_word example_vocabulary !! i = Some w
            ↔ word_to_id example_vocabulary !! w = Some i)
  ∧ words_to_ids example_vocabulary (id_to_word example_vocabulary)
    = Ok (seq 0 (num_words example_vocabulary)).
Proof.
  apply (Vocabulary_init_distinct ["the"; "<x>"; "dog"] [0; 1; 0]
                                  example_classes (Some ["cat"; "dog"])).
  - apply (bool_decide_unpack _). vm_compute. reflexivity.
  - apply (bool_decide_unpack _). vm_compute. reflexivity.
Defined.

(** ** The words and classes of a vocabulary file *)

Lemma line_entries_words py_int py_float input_format lines :
  (omap (line_entry py_int py_float input_format) lines).*1
  = omap (line_word py_int py_float input_format) lines.
Proof.
  induction lines as [|line lines IH]; [done|].
  change (omap ?f (line :: lines))
    with (match f line with
          | Some y => y :: omap f lines
          | None => omap f lines
          end).
  unfold line_entry at 1.
  destruct (line_word _ _ _ line); csimpl; by rewrite IH.
Qed.

(** X12: [from_file] gives the words of the non-empty lines the IDs 0, 1,
    2, ... in the order of the file; no word of the vocabulary occurs twice,
    so every word ID is the ID of its word. *)
Theorem from_file_word_order py_int py_float input_file input_format oos v :
  from_file py_int py_float input_file input_format oos = Ok v →
  omap (line_word py_int py_float input_format) input_file
    `prefix_of` id_to_word v
  ∧ NoDup (id_to_word v)
  ∧ words_to_ids v (id_to_word v) = Ok (seq 0 (num_words v)).
Proof.
  unfold from_file. intros H. inv_ok H. rename a into r.
  destruct (read_lines_inv _ _ _ _ _ Hstep) as [Hitw _ Hnd _ _ _ _ _].
  rewrite line_entries_words in Hitw, Hnd.
  pose proof (Vocabulary_init_prefix _ _ _ _ _ H) as [Hpre _].
  destruct (Vocabulary_init_NoDup _ _ _ _ _ (eq_ind_r NoDup Hnd Hitw) H)
    as [? _].
  pose proof (Vocabulary_init_word_to_id _ _ _ _ _ H) as [Hmap Hsp].
  rewrite <-Hitw. split; [done|]. split; [done|].
  apply words_to_ids_id_to_word; [done..|].
  apply Hsp. unfold special_tokens. set_solver.
Qed.

Lemma from_file_word_order_witness :
  ∃ v,
    from_file decimal_int decimal_float ["the 0"; "  "; "a 0"; "dog 1"]
              "classes" None = Ok v
    ∧ ["the"; "a"; "dog"] `prefix_of` id_to_word v
    ∧ NoDup (id_to_word v)
    ∧ words_to_ids v (id_to_word v) = Ok (seq 0 (num_words v)).
Proof.
  destruct (from_file decimal_int decimal_float
              ["the 0"; "  "; "a 0"; "dog 1"] "classes" None)
    as [v|e] eqn:Hv; [|by vm_compute in Hv].
  exists v. split; [done|].
  apply (from_file_word_order decimal_int decimal_float
           ["the 0"; "  "; "a 0"; "dog 1"] "classes" None v Hv).
Defined.

Lemma with_special_one_class token st :
  one_class_per_word st → one_class_per_word (with_special token st).
Proof.
  destruct st as [[itw w2c] wcs]. unfold one_class_per_word, with_special.
  simpl. intros [-> ->]. case_bool_decide; simpl; [done|].
  rewrite length_app, Nat.add_comm, length_fmap, length_seq.
  change (length [token] + length itw) with (S (length itw)).
  by rewrite seq_S, fmap_app.
Qed.

Lemma line_key_words py_int py_float line :
  line_key py_int py_float "words" line = None.
Proof.
  unfold line_key, parse_fields.
  destruct (line_fields line) as [|f0 [|f1 [|f2 [|f3 fields]]]]; try done;
    repeat case_decide; done.
Qed.

Lemma line_entries_unkeyed py_int py_float lines :
  Forall (λ e, e.2 = None) (omap (line_entry py_int py_float "words") lines).
Proof.
  apply Forall_forall. intros [w k] (line & _ & Hline)%list_elem_of_omap.
  unfold line_entry in Hline.
  destruct (line_word _ _ _ line); [|done]. injection Hline as _ <-.
  apply line_key_words.
Qed.

(** X13: in the format "words" every shortlist word, the special tokens
    included, is alone in a class of its own: the class ID of a word is its
    word ID and its membership probability is 1. *)
Theorem from_file_words_format py_int py_float input_file oos v :
  from_file py_int py_float input_file "words" oos = Ok v →
  num_classes v = num_shortlist_words v
  ∧ ∀ i, in_shortlist v i = true →
      word_id_to_class_id v !! i = Some i ∧ get_word_prob v i = Ok 1%Qc.
Proof.
  unfold from_file. intros H. inv_ok H. rename a into r.
  destruct (read_lines_inv _ _ _ _ _ Hstep) as [Hitw _ _ _ _ _ _ Hplain].
  destruct (Hplain (line_entries_unkeyed _ _ _)) as [Hw2c Hcls].
  assert (one_class_per_word
            (with_specials (r_id_to_word r, r_word_id_to_class_id r,
                            Some <$> r_word_classes r))) as [Hw2c' Hcls'].
  { unfold with_specials. do 3 apply with_special_one_class.
    unfold one_class_per_word. simpl.
    rewrite Hw2c, Hcls, Hitw, length_fmap, <-list_fmap_compose. done. }
  apply Vocabulary_init_Ok in H as (Hl & n & classes & Hscan & Hnorm & ->).
  unfold num_classes, num_shortlist_words, in_shortlist, get_word_prob.
  simpl in *.
  set (st := with_specials _) in *.
  pose proof (mapM_Ok_length _ _ _ Hnorm) as Hlen.
  rewrite Hcls', length_fmap, length_seq in Hlen.
  split.
  { by rewrite Hlen, Hw2c', length_seq. }
  intros i Hi%bool_decide_eq_true.
  rewrite Hw2c', length_seq in Hi.
  assert (st.1.2 !! i = Some i) as Hclass.
  { rewrite Hw2c'. by apply lookup_seq. }
  split; [done|].
  rewrite (proj2 (py_index_Ok _ _ _) Hclass). simpl.
  destruct (normalize_slots_lookup _ _ i Hnorm) as (wc & Hwc & Hclass').
  { by rewrite Hcls', length_fmap, length_seq. }
  rewrite Hcls', list_lookup_fmap, lookup_seq_lt in Hwc by done.
  injection Hwc as <-. rewrite normalize_init in Hclass'.
  rewrite (proj2 (py_index_Ok _ _ _) Hclass'). simpl.
  unfold WordClass.get_prob. simpl. by rewrite decide_True.
Qed.

Lemma from_file_words_format_witness :
  ∃ v,
    from_file decimal_int decimal_float ["the"; "<s>"; "dog"] "words"
              (Some ["cat"]) = Ok v
    ∧ num_classes v = num_shortlist_words v
    ∧ ∀ i, in_shortlist v i = true →
        word_id_to_class_id v !! i = Some i ∧ get_word_prob v i = Ok 1%Qc.
Proof.
  destruct (from_file decimal_int decimal_float ["the"; "<s>"; "dog"] "words"
              (Some ["cat"])) as [v|e] eqn:Hv; [|by vm_compute in Hv].
  exists v. split; [done|].
  apply (from_file_words_format decimal_int decimal_float
           ["the"; "<s>"; "dog"] (Some ["cat"]) v Hv).
Defined.

(** X14: two words of a vocabulary file are put in the same class exactly
    when their lines name the same class: class IDs of the file (format
    "classes") or class names (format "srilm-classes") are mapped one to
    one to the class IDs of the vocabulary. *)
Theorem from_file_shared_classes py_int py_float input_file input_format oos
    v line1 line2 word1 word2 key1 key2 :
  from_file py_int py_float input_file input_format oos = Ok v →
  line1 ∈ input_file → line2 ∈ input_file →
  line_entry py_int py_float input_format line1 = Some (word1, Some key1) →
  line_entry py_int py_float input_format line2 = Some (word2, Some key2) →
  ∃ id1 id2 class1 class2,
    word_to_id v !! word1 = Some id1
    ∧ word_to_id v !! word2 = Some id2
    ∧ word_id_to_class_id v !! id1 = Some class1
    ∧ word_id_to_class_id v !! id2 = Some class2
    ∧ (class1 = class2 ↔ key1 = key2).
Proof.
  unfold from_file. intros H Hin1 Hin2 He1 He2. inv_ok H. rename a into r.
  destruct (read_lines_inv _ _ _ _ _ Hstep)
    as [Hitw _ Hnd _ Hkeyed _ Hinj _].
  set (entries := omap (line_entry py_int py_float input_format) input_file)
    in *.
  assert (∀ line word key,
            line ∈ input_file →
            line_entry py_int py_float input_format line
            = Some (word, Some key) →
            ∃ i c, word_to_id v !! word = Some i
                   ∧ word_id_to_class_id v !! i = Some c
                   ∧ r_file_id_to_class_id r !! key = Some c) as Hfind.
  { intros line word key Hin He.
    assert ((word, Some key) ∈ entries) as [i Hi]%list_elem_of_lookup_1.
    { apply list_elem_of_omap. eauto. }
    destruct (Hkeyed _ _ _ Hi) as (c & Hkey & Hc).
    pose proof (Vocabulary_init_prefix _ _ _ _ _ H) as [Hpre1 Hpre2].
    assert (NoDup (r_id_to_word r)) as Hnd' by by rewrite Hitw.
    destruct (Vocabulary_init_NoDup _ _ _ _ _ Hnd' H) as [_ Hbij].
    exists i, c. split; [|split; [|done]].
    - apply Hbij. eapply prefix_lookup_Some; [|done].
      by rewrite Hitw, list_lookup_fmap, Hi.
    - by eapply prefix_lookup_Some. }
  destruct (Hfind _ _ _ Hin1 He1) as (id1 & class1 & ? & ? & Hk1).
  destruct (Hfind _ _ _ Hin2 He2) as (id2 & class2 & ? & ? & Hk2).
  exists id1, id2, class1, class2. do 4 (split; [done|]). split.
  - intros <-. by eapply Hinj.
  - intros <-. congruence.
Qed.

Lemma from_file_shared_classes_witness :
  ∃ v id1 id2 class1 class2,
    from_file decimal_int decimal_float ["the 7"; "a 7"; "dog 3"; "cat 7"]
              "classes" None = Ok v
    ∧ word_to_id v !! "the" = Some id1
    ∧ word_to_id v !! "cat" = Some id2
    ∧ word_id_to_class_id v !! id1 = Some class1
    ∧ word_id_to_class_id v !! id2 = Some class2
    ∧ (class1 = class2 ↔ @inl Z string 7%Z = inl 7%Z).
Proof.
  destruct (from_file decimal_int decimal_float
              ["the 7"; "a 7"; "dog 3"; "cat 7"] "classes" None)
    as [v|e] eqn:Hv; [|by vm_compute in Hv].
  exists v.
  destruct (from_file_shared_classes decimal_int decimal_float
              ["the 7"; "a 7"; "dog 3"; "cat 7"] "classes" None v
              "the 7" "cat 7" "the" "cat" (inl 7%Z) (inl 7%Z) Hv)
    as (id1 & id2 & class1 & class2 & H); [set_solver|set_solver| | |].
  - vm_compute. reflexivity.
  - vm_compute. reflexivity.
  - exists id1, id2, class1, class2. split; [done|]. exact H.
Defined.

(** ** More about [from_word_counts] *)

Lemma strip_special_idemp d : strip_special (strip_special d) = strip_special d.
Proof.
  rewrite !strip_special_filter, list_filter_filter.
  apply list_filter_iff. intros [w c]. simpl. tauto.
Qed.

(** X15: entries of the special tokens in the counts have no effect on
    [from_word_counts], whatever their counts. *)
Theorem from_word_counts_ignores_special word_counts n :
  from_word_counts word_counts n
  = from_word_counts (strip_special word_counts) n.
Proof.
  unfold from_word_counts, build_classes. by rewrite strip_special_idemp.
Qed.

Lemma sorted_by_count_nil d : sorted_by_count d = [] → d = [].
Proof.
  intros H. apply Permutation_nil_r. rewrite <-H.
  symmetry. apply sorted_by_count_perm.
Qed.

Lemma build_classes_nil word_counts n :
  strip_special word_counts = [] →
  build_classes word_counts n
  = Ok {| b_id_to_word := []; b_word_id_to_class_id := [];
          b_word_classes := []; b_class_id := 0 |}.
Proof. unfold build_classes. by intros ->. Qed.

Lemma build_classes_zero word_counts :
  strip_special word_counts ≠ [] →
  build_classes word_counts (Some 0) = Raise ZeroDivisionError.
Proof.
  unfold build_classes. intros Hne.
  destruct (sorted_by_count (strip_special word_counts)) as [|item order]
    eqn:Horder.
  - by apply sorted_by_count_nil in Horder.
  - reflexivity.
Qed.

Lemma special_vocabulary_init :
  Vocabulary_init [] [] [] None = Ok special_vocabulary.
Proof. by_eval. Qed.

(** X16: with [num_classes = 0], [from_word_counts] raises
    [ZeroDivisionError] as soon as the counts hold a word other than the
    special tokens; without such a word it returns, for any [num_classes],
    the vocabulary of the three special tokens. *)
Theorem from_word_counts_zero_classes word_counts :
  (from_word_counts word_counts (Some 0) = Raise ZeroDivisionError
   ↔ strip_special word_counts ≠ [])
  ∧ (strip_special word_counts = [] →
     ∀ n, from_word_counts word_counts n = Ok special_vocabulary).
Proof.
  assert (strip_special word_counts = [] →
          ∀ n, from_word_counts word_counts n = Ok special_vocabulary) as Hnil.
  { intros Hnil n. unfold from_word_counts.
    rewrite build_classes_nil by done. apply special_vocabulary_init. }
  split; [|done]. split.
  - intros H Hnil'. by rewrite Hnil in H.
  - intros Hne. unfold from_word_counts. by rewrite build_classes_zero.
Qed.

(** X17: [from_word_counts] puts every word in the shortlist: the vocabulary
    holds the words of the counts and the three special tokens, and has
    three classes more than the smaller of the number of words and
    [num_classes]. *)
Theorem from_word_counts_sizes word_counts n v :
  from_word_counts word_counts n = Ok v →
  let k := length (strip_special word_counts) in
  let N := default k n in
  num_words v = k + 3
  ∧ num_shortlist_words v = k + 3
  ∧ num_classes v = k `min` N + 3.
Proof.
  intros H k N. unfold from_word_counts in H. inv_ok H. rename a into b.
  assert (round_robin N k b ∧ b_id_to_word b
                              = (sorted_by_count (strip_special word_counts)).*1)
    as [Hrr Hwords].
  { assert (length (sorted_by_count (strip_special word_counts)) = k) as Hk.
    { by rewrite sorted_by_count_perm. }
    destruct (decide (strip_special word_counts = [])) as [Hnil|Hne].
    - rewrite build_classes_nil in Hstep by done. injection Hstep as <-.
      unfold k. rewrite Hnil. split; [apply round_robin_init|done].
    - destruct (decide (N = 0)) as [HN|HN].
      + exfalso. unfold build_classes in Hstep. fold k N in Hstep.
        rewrite HN in Hstep.
        destruct (sorted_by_count (strip_special word_counts))
          as [|item order] eqn:Horder.
        * by apply sorted_by_count_nil in Horder.
        * discriminate Hstep.
      + unfold build_classes in Hstep. fold k N in Hstep.
        destruct (assign_words_round_robin N 0 _
                    (sorted_by_count (strip_special word_counts)) HN
                    (round_robin_init N)) as (b' & Hb' & Hrr & Hw).
        rewrite Hb' in Hstep. injection Hstep as <-.
        rewrite Hk in Hrr. done. }
  destruct (Vocabulary_init_lengths _ _ _ _ _ H) as (Hs & Hc & Hw).
  clear H.
  assert (missing_special (b_id_to_word b) = special_tokens) as Hmiss.
  { assert (∀ token, token ∈ special_tokens → token ∉ b_id_to_word b) as Hno.
    { intros token Htoken. rewrite Hwords. intros Hin.
      assert (token ∈ (strip_special word_counts).*1) as Hin'.
      { by rewrite <-(sorted_by_count_perm (strip_special word_counts)). }
      apply strip_special_elem in Hin' as [_ ?]. done. }
    unfold missing_special. unfold special_tokens at 1.
    rewrite !filter_cons_True
      by (apply Hno; unfold special_tokens; set_solver).
    done. }
  rewrite Hmiss in Hs, Hc. rewrite length_fmap in Hc.
  rewrite (rr_words _ _ _ Hrr) in Hs.
  rewrite (rr_classes_length _ _ _ Hrr) in Hc.
  rewrite Hw by done.
  change (length special_tokens) with 3 in *. done.
Qed.

Lemma from_word_counts_sizes_witness :
  ∃ v,
    from_word_counts example_counts (Some 2) = Ok v
    ∧ num_words v = 3 + 3
    ∧ num_shortlist_words v = 3 + 3
    ∧ num_classes v = 3 `min` 2 + 3.
Proof.
  destruct (from_word_counts example_counts (Some 2)) as [v|e] eqn:Hv;
    [|by vm_compute in Hv].
  exists v. split; [done|].
  apply (from_word_counts_sizes example_counts (Some 2) v Hv).
Defined.

(** ** Loading a state *)

Lemma foldlM_Raise {A S} (f : S → A → result S) s l e :
  foldlM f s l = Raise e → ∃ s' x, x ∈ l ∧ f s' x = Raise e.
Proof.
  revert s. induction l as [|x l IH]; intros s; simpl; [done|].
  destruct (f s x) as [s'|e'] eqn:Hf; simpl.
  - intros (s'' & y & ? & ?)%IH. exists s'', y. split; [by right|done].
  - intros [= <-]. exists s, x. split; [by left|done].
Qed.

Lemma restore_word_Raise classes slots item e :
  restore_word classes slots item = Raise e →
  e = IndexError ∨ e = DuplicateMemberError.
Proof.
  destruct item as [word_id prob]. unfold restore_word, py_index.
  destruct (classes !! word_id) as [c|]; simpl; [|intros [= <-]; auto].
  destruct (slots !! c) as [[wc|]|]; simpl; [| |intros [= <-]; auto]; [|done].
  unfold WordClass.add. case_match; simpl; [|done]. intros [= <-]. auto.
Qed.

(** X18: [from_state] raises [IncompatibleStateError] exactly when the group
    [vocabulary] or one of its datasets [words], [classes] and [probs] is
    missing; no other failure is reported with that exception. *)
Theorem from_state_incompatible state :
  (∃ msg, from_state state = Raise (IncompatibleStateError msg))
  ↔ state_incomplete state.
Proof.
  unfold from_state, state_incomplete.
  destruct (h5_vocabulary state) as [g|]; [|split; eauto].
  destruct (h5_words g) as [words|]; [|split; eauto].
  destruct (h5_classes g) as [classes|]; [|split; eauto].
  destruct (h5_probs g) as [probs|]; [|split; eauto].
  split; [|by intros [?|[?|?]]].
  intros [msg H]. exfalso.
  destruct (np_max classes) as [m|e] eqn:Hm; simpl in H.
  2: { destruct classes; [injection Hm as <-|]; done. }
  destruct (foldlM _ _ _) as [wcs|e] eqn:Hwcs; simpl in H.
  2: { injection H as ->.
       apply foldlM_Raise in Hwcs as (s' & x & _ & Hx).
       apply restore_word_Raise in Hx as [?|?]; done. }
  destruct (Vocabulary_init words classes wcs None) as [v|e] eqn:Hv;
    simpl in H.
  - by destruct (h5_unigram_probs g).
  - injection H as ->.
    apply Vocabulary_init_Raise in Hv as [[? _]|[_ [?|[?|[?|?]]]]]; done.
Qed.

Example from_state_incompatible_example :
  from_state state_without_classes
  = Raise (IncompatibleStateError
             "Vocabulary parameter 'classes' is missing from neural network state.").
Proof. reflexivity. Qed.

Lemma restore_word_other classes slots item slots' c :
  restore_word classes slots item = Ok slots' →
  c ∉ classes → slots' !! c = slots !! c.
Proof.
  destruct item as [word_id prob]. unfold restore_word. intros H Hc.
  inv_ok H. apply py_index_Ok in Hstep.
  assert (a ≠ c) as Hne.
  { intros ->. apply Hc. by eapply list_elem_of_lookup_2. }
  destruct a0 as [wc|].
  - inv_ok H. injection H as <-. by rewrite list_lookup_insert_ne.
  - injection H as <-. by rewrite list_lookup_insert_ne.
Qed.

Lemma restore_words_other classes items slots slots' c :
  foldlM (restore_word classes) slots items = Ok slots' →
  c ∉ classes → slots' !! c = slots !! c.
Proof.
  revert slots. induction items as [|item items IH]; intros slots; simpl.
  - by intros [= <-].
  - intros H Hc. inv_ok H. rewrite (IH _ H Hc).
    by eapply restore_word_other.
Qed.

(** X19: the class IDs of a state have to be the numbers from 0 to their
    maximum without a gap: when a number below the largest class ID is the
    class of no word, [from_state] does not return a vocabulary. *)
Theorem from_state_class_gap state g classes c c' :
  h5_vocabulary state = Some g →
  h5_classes g = Some classes →
  c' ∈ classes → c < c' → c ∉ classes →
  ¬ is_ok (from_state state).
Proof.
  intros Hg Hclasses Hc' Hlt Hc [v Hv].
  apply from_state_Ok in Hv
    as (g' & words & classes' & probs & m & wcs & v0 & Hg' & _ & Hclasses'
        & _ & Hm & Hwcs & Hinit & _).
  rewrite Hg in Hg'. injection Hg' as <-.
  rewrite Hclasses in Hclasses'. injection Hclasses' as <-.
  apply np_max_Ok in Hm as [_ Hmax].
  pose proof (Hmax c' Hc') as Hle.
  pose proof (restore_words_other _ _ _ _ c Hwcs Hc) as Hslot.
  rewrite lookup_replicate_2 in Hslot by lia.
  apply Vocabulary_init_Ok in Hinit
    as (_ & n & classes' & _ & Hnorm & _). simpl in Hnorm.
  destruct (with_specials_prefix (words, classes, wcs)) as (_ & _ & Hpre).
  simpl in Hpre.
  pose proof (prefix_lookup_Some _ _ _ _ Hslot Hpre) as Hslot'.
  destruct (normalize_slots_lookup _ _ c Hnorm) as (wc & Hwc & _).
  { by eapply lookup_lt_Some. }
  congruence.
Qed.

Lemma from_state_class_gap_witness :
  (2 ∈ [0; 2; 3; 4] ∧ 1 < 2 ∧ 1 ∉ [0; 2; 3; 4])
  ∧ ¬ is_ok (from_state state_with_gap).
Proof.
  split; [split; [set_solver|split; [lia|set_solver]]|].
  apply (from_state_class_gap state_with_gap
           {| h5_words := Some ["a"; "<s>"; "</s>"; "<unk>"];
              h5_classes := Some [0; 2; 3; 4];
              h5_probs := Some [1%Qc; 1%Qc; 1%Qc; 1%Qc];
              h5_unigram_probs := None |} [0; 2; 3; 4] 1 2).
  - reflexivity.
  - reflexivity.
  - set_solver.
  - lia.
  - set_solver.
Defined.

(** X20: a vocabulary that [from_state] returns has the stored words and
    class IDs at their positions and exactly the stored unigram
    probabilities, none if none are stored; when the stored words include
    the three special tokens, nothing is added to them. *)
Theorem from_state_restores state g words classes v :
  from_state state = Ok v →
  h5_vocabulary state = Some g →
  h5_words g = Some words →
  h5_classes g = Some classes →
  words `prefix_of` id_to_word v
  ∧ classes `prefix_of` word_id_to_class_id v
  ∧ _unigram_probs v = h5_unigram_probs g
  ∧ ((∀ token, token ∈ special_tokens → token ∈ words) →
     id_to_word v = words ∧ word_id_to_class_id v = classes).
Proof.
  intros Hv Hg Hwords Hclasses.
  apply from_state_Ok in Hv
    as (g' & words' & classes' & probs & m & wcs & v0 & Hg' & Hwords'
        & Hclasses' & _ & _ & _ & Hinit & ->).
  rewrite Hg in Hg'. injection Hg' as <-.
  rewrite Hwords in Hwords'. injection Hwords' as <-.
  rewrite Hclasses in Hclasses'. injection Hclasses' as <-.
  pose proof (Vocabulary_init_prefix _ _ _ _ _ Hinit) as [Hp1 Hp2].
  apply Vocabulary_init_Ok in Hinit as (_ & n & cls & _ & _ & ->).
  destruct (h5_unigram_probs g); simpl in *;
    (split; [done|]; split; [done|]; split; [done|]);
    intros Hsp; by rewrite with_specials_elem_id.
Qed.

Lemma from_state_restores_witness :
  ∃ v,
    from_state unnormalized_state = Ok v
    ∧ ["a"; "b"; "<s>"; "</s>"; "<unk>"] `prefix_of` id_to_word v
    ∧ [0; 0; 1; 2; 3] `prefix_of` word_id_to_class_id v
    ∧ _unigram_probs v = None
    ∧ ((∀ token, token ∈ special_tokens →
          token ∈ ["a"; "b"; "<s>"; "</s>"; "<unk>"]) →
       id_to_word v = ["a"; "b"; "<s>"; "</s>"; "<unk>"]
       ∧ word_id_to_class_id v = [0; 0; 1; 2; 3]).
Proof.
  destruct (from_state unnormalized_state) as [v|e] eqn:Hv;
    [|by vm_compute in Hv].
  exists v. split; [done|].
  apply (from_state_restores unnormalized_state
           {| h5_words := Some ["a"; "b"; "<s>"; "</s>"; "<unk>"];
              h5_classes := Some [0; 0; 1; 2; 3];
              h5_probs := Some [1%Qc; Qc_of_Z 3; 1%Qc; 1%Qc; 1%Qc];
              h5_unigram_probs := None |}
           ["a"; "b"; "<s>"; "</s>"; "<unk>"] [0; 0; 1; 2; 3] v Hv);
    reflexivity.
Defined.

(** ** What [compute_probs] keeps *)

Lemma assoc_set_ids l j p : (WordClass.assoc_set l j p).*1 = l.*1.
Proof.
  induction l as [|[w q] l IH]; [done|].
  cbn [WordClass.assoc_set]. case_decide; [done|].
  by rewrite !fmap_cons, IH.
Qed.

Lemma set_prob_ids cls j p cls' :
  WordClass.set_prob cls j p = Ok cls' →
  WordClass.id cls' = WordClass.id cls
  ∧ (WordClass.probs cls').*1 = (WordClass.probs cls).*1.
Proof.
  unfold WordClass.set_prob. case_match; [|done].
  intros [= <-]. simpl. by rewrite assoc_set_ids.
Qed.

Lemma set_probs_ids cls new cls' :
  set_probs cls new = Ok cls' →
  WordClass.id cls' = WordClass.id cls
  ∧ (WordClass.probs cls').*1 = (WordClass.probs cls).*1.
Proof.
  unfold set_probs. revert cls.
  induction new as [|[j p] new IH]; intros cls; simpl.
  - by intros [= <-].
  - intros H. inv_ok H. apply set_prob_ids in Hstep as [<- <-].
    by apply IH.
Qed.

Lemma update_class_ids counts cls cls' :
  update_class counts cls = Ok cls' →
  WordClass.id cls' = WordClass.id cls
  ∧ (WordClass.probs cls').*1 = (WordClass.probs cls).*1.
Proof.
  unfold update_class. intros H. inv_ok H.
  repeat case_decide; try done; by eapply set_probs_ids.
Qed.

Lemma store_count_length v counts item counts' :
  store_count v counts item = Ok counts' → length counts' = length counts.
Proof.
  destruct item as [word count]. unfold store_count.
  repeat case_match; try done; intros [= <-]; by rewrite ?length_insert.
Qed.

Lemma count_words_length v word_counts counts :
  count_words v word_counts = Ok counts → length counts = num_words v.
Proof.
  unfold count_words.
  assert (∀ start, foldlM (store_count v) start word_counts = Ok counts →
                   length counts = length start) as Hlen.
  { induction word_counts as [|item items IH]; intros start; simpl.
    - by intros [= <-].
    - intros H. inv_ok H. apply store_count_length in Hstep.
      rewrite <-Hstep. by apply IH. }
  intros H. apply Hlen in H. by rewrite length_replicate in H.
Qed.

(** X21: [compute_probs] changes probabilities only: the words, their IDs
    and class IDs and the number of normal classes stay, every class keeps
    its ID and its members, and with [update_class_probs = False] the
    classes are left as they are.  Afterwards the vocabulary has one unigram
    probability for each word. *)
Theorem compute_probs_keeps v word_counts update v' :
  compute_probs v word_counts update = Ok v' →
  id_to_word v' = id_to_word v
  ∧ word_id_to_class_id v' = word_id_to_class_id v
  ∧ word_to_id v' = word_to_id v
  ∧ num_normal_classes v' = num_normal_classes v
  ∧ Forall2 (λ cls cls',
               WordClass.id cls' = WordClass.id cls
               ∧ (WordClass.probs cls').*1 = (WordClass.probs cls).*1)
            (_word_classes v) (_word_classes v')
  ∧ (update = false → _word_classes v' = _word_classes v)
  ∧ has_unigram_probs v' = true
  ∧ ∃ unigram_probs, _unigram_probs v' = Some unigram_probs
                     ∧ length unigram_probs = num_words v.
Proof.
  unfold compute_probs. intros H. inv_ok H. rename a into counts.
  apply count_words_length in Hstep.
  assert (length (unigram_of_counts counts) = num_words v) as Hlen.
  { unfold unigram_of_counts. by rewrite length_fmap. }
  destruct update; simpl in H.
  - inv_ok H. injection H as <-. simpl.
    do 4 (split; [done|]). split.
    + apply mapM_Ok_Forall2 in Hstep1.
      eapply Forall2_impl; [exact Hstep1|].
      intros cls cls' Hcls. simpl in Hcls.
      exact (update_class_ids _ _ _ Hcls).
    + split; [done|]. split; [done|]. eauto.
  - injection H as <-. simpl. do 4 (split; [done|]). split.
    + apply Forall2_same_length_lookup. split; [done|].
      intros i cls cls' H1 H2. by assert (cls = cls') as -> by congruence.
    + split; [done|]. split; [done|]. eauto.
Qed.

Lemma compute_probs_keeps_witness :
  ∃ v',
    compute_probs example_vocabulary example_word_counts true = Ok v'
    ∧ id_to_word v' = id_to_word example_vocabulary
    ∧ word_id_to_class_id v' = word_id_to_class_id example_vocabulary
    ∧ word_to_id v' = word_to_id example_vocabulary
    ∧ num_normal_classes v' = num_normal_classes example_vocabulary
    ∧ Forall2 (λ cls cls',
                 WordClass.id cls' = WordClass.id cls
                 ∧ (WordClass.probs cls').*1 = (WordClass.probs cls).*1)
              (_word_classes example_vocabulary) (_word_classes v')
    ∧ (true = false → _word_classes v' = _word_classes example_vocabulary)
    ∧ has_unigram_probs v' = true
    ∧ ∃ unigram_probs, _unigram_probs v' = Some unigram_probs
                       ∧ length unigram_probs = num_words example_vocabulary.
Proof.
  destruct (compute_probs example_vocabulary example_word_counts true)
    as [v'|e] eqn:Hv; [|by vm_compute in Hv].
  exists v'. split; [done|].
  apply (compute_probs_keeps example_vocabulary example_word_counts true v' Hv).
Defined.

Lemma store_counts_known v counts word_counts :
  foldlM (store_count v) counts word_counts
  = foldlM (store_count v) counts (known_counts v word_counts).
Proof.
  unfold known_counts. revert counts.
  induction word_counts as [|[word count] items IH]; intros counts; [done|].
  destruct (word_to_id v !! word) as [i|] eqn:Hi.
  - rewrite filter_cons_True by (simpl; eauto).
    cbn [foldlM].
    destruct (store_count v counts (word, count)); simpl; [apply IH|done].
  - rewrite filter_cons_False by (simpl; rewrite Hi; by intros [? ?]).
    cbn [foldlM].
    assert (store_count v counts (word, count) = Ok counts) as ->.
    { unfold store_count. by rewrite Hi. }
    simpl. apply IH.
Qed.

(** X22: words that are not in the vocabulary do not count: [compute_probs]
    gives the same result when their entries are removed, whatever their
    counts. *)
Theorem compute_probs_known_counts v word_counts update :
  compute_probs v word_counts update
  = compute_probs v (known_counts v word_counts) update.
Proof.
  unfold compute_probs, count_words. by rewrite store_counts_known.
Qed.

(** ** Counts that do not fit *)

Lemma store_count_Raise v counts item e :
  store_count v counts item = Raise e →
  e = OverflowError
  ∧ ∃ i, word_to_id v !! item.1 = Some i ∧ i < length counts
         ∧ ¬ in_int64 item.2.
Proof.
  destruct item as [word count]. unfold store_count. simpl.
  destruct (word_to_id v !! word) as [i|]; [|done].
  repeat case_decide; try done. intros [= <-]. eauto.
Qed.

Lemma store_counts_overflow v counts items word count i :
  (word, count) ∈ items →
  word_to_id v !! word = Some i → i < length counts → ¬ in_int64 count →
  foldlM (store_count v) counts items = Raise OverflowError.
Proof.
  intros Hin Hi Hlt Hbig. revert counts Hlt.
  induction items as [|item items IH]; intros counts Hlt.
  { by apply elem_of_nil in Hin. }
  cbn [foldlM].
  destruct (store_count v counts item) as [counts'|e] eqn:Hitem; simpl.
  - apply elem_of_cons in Hin as [<-|Hin].
    + unfold store_count in Hitem. rewrite Hi in Hitem.
      by rewrite decide_True, decide_False in Hitem.
    + apply IH; [done|]. apply store_count_length in Hitem. lia.
  - by apply store_count_Raise in Hitem as [-> _].
Qed.

Lemma mapM_Raise {A B} (f : A → result B) l e :
  mapM f l = Raise e → ∃ x, x ∈ l ∧ f x = Raise e.
Proof.
  induction l as [|x l IH]; simpl; [done|].
  destruct (f x) as [y|e'] eqn:Hx; simpl.
  - destruct (mapM f l) as [ys|e'] eqn:Hl; simpl; [done|].
    intros [= <-]. destruct IH as (x' & ? & ?); [done|].
    exists x'. split; [by right|done].
  - intros [= <-]. exists x. split; [by left|done].
Qed.

Lemma set_probs_Raise cls new e :
  set_probs cls new = Raise e → e = UnknownMemberError.
Proof.
  unfold set_probs. intros (cls' & [j p] & _ & H)%foldlM_Raise.
  unfold WordClass.set_prob in H. simpl in H. case_match; [done|].
  by injection H as <-.
Qed.

Lemma update_class_Raise counts cls e :
  update_class counts cls = Raise e → e ≠ OverflowError.
Proof.
  unfold update_class.
  destruct (mapM _ (WordClass.iter cls)) as [cls_counts|e'] eqn:Hc; simpl.
  - repeat case_decide.
    + by intros ->%set_probs_Raise.
    + by intros [= <-].
    + by intros ->%set_probs_Raise.
  - intros [= <-]. apply mapM_Raise in Hc as ([j p] & _ & Hj).
    unfold py_index in Hj. simpl in Hj.
    destruct (counts !! j); simpl in Hj; [done|]. by injection Hj as <-.
Qed.

Lemma special_counts_Raise v counts e :
  special_counts v counts = Raise e → e ≠ OverflowError.
Proof.
  unfold special_counts, py_getitem, at_least_one, py_index.
  repeat (case_match; simpl; try done; try (by intros [= <-])).
Qed.

(** X23: [compute_probs] raises [OverflowError] exactly when the counts hold,
    for a word of the vocabulary, a number that does not fit the [int64]
    count array; numbers of other words are not looked at. *)
Theorem compute_probs_overflow v word_counts update :
  constructed v →
  compute_probs v word_counts update = Raise OverflowError
  ↔ ∃ word count, (word, count) ∈ word_counts
                  ∧ __contains__ v word = true
                  ∧ ¬ in_int64 count.
Proof.
  intros Hc. pose proof (constructed_word_to_id v Hc) as [Hmap _].
  unfold compute_probs, __contains__. split.
  - destruct (count_words v word_counts) as [counts|e] eqn:Hcounts; simpl.
    + destruct update; simpl; [|done].
      destruct (special_counts _ counts) as [counts'|e] eqn:Hs; simpl.
      * destruct (mapM _ _) as [classes|e] eqn:Hm; simpl; [done|].
        intros [= ->]. apply mapM_Raise in Hm as (cls & _ & Hcls).
        by apply update_class_Raise in Hcls.
      * intros [= ->]. by apply special_counts_Raise in Hs.
    + intros [= ->]. unfold count_words in Hcounts.
      apply foldlM_Raise in Hcounts as (s & [word count] & Hin & Hitem).
      apply store_count_Raise in Hitem as (_ & i & Hi & _ & Hbig).
      exists word, count. split; [done|]. split; [|done].
      apply bool_decide_eq_true. eauto.
  - intros (word & count & Hin & [i Hi]%bool_decide_eq_true & Hbig).
    unfold count_words.
    rewrite (store_counts_overflow v _ _ word count i); try done.
    rewrite length_replicate. rewrite Hmap in Hi.
    apply make_word_to_id_lookup in Hi. by eapply lookup_lt_Some.
Qed.

Lemma compute_probs_overflow_witness :
  compute_probs example_vocabulary huge_counts true = Raise OverflowError
  ↔ ∃ word count, (word, count) ∈ huge_counts
                  ∧ __contains__ example_vocabulary word = true
                  ∧ ¬ in_int64 count.
Proof.
  apply (compute_probs_overflow example_vocabulary huge_counts true).
  apply (constructed_init ["the"; "<x>"; "dog"] [0; 1; 0] example_classes
                          (Some ["cat"; "dog"])).
  apply (bool_decide_unpack _). vm_compute. reflexivity.
Defined.

(** ** A vocabulary without out-of-shortlist words *)

(** X24: when all words are in the shortlist, the log probabilities that
    [get_oos_logprobs] returns after [compute_probs] are all zero, whatever
    the counts were: the division by the empty out-of-shortlist mass touches
    no entry. *)
Theorem get_oos_logprobs_all_shortlist v word_counts update v' :
  compute_probs v word_counts update = Ok v' →
  num_words v = num_shortlist_words v →
  get_oos_logprobs v' = Ok (replicate (num_words v) (XFinite 0)).
Proof.
  intros Hv Hall. unfold get_oos_logprobs, oos_probs.
  pose proof Hv as Hv'.
  apply compute_probs_words in Hv' as (_ & Hw2c & _).
  assert (∃ u, _unigram_probs v' = Some u ∧ length u = num_words v)
    as (u & -> & Hlen).
  { unfold compute_probs in Hv. inv_ok Hv.
    apply count_words_length in Hstep.
    exists (unigram_of_counts a). split.
    - destruct update; simpl in Hv; [inv_ok Hv|]; by injection Hv as <-.
    - unfold unigram_of_counts. by rewrite length_fmap. }
  unfold num_shortlist_words. rewrite Hw2c.
  fold (num_shortlist_words v). rewrite <-Hall, <-Hlen.
  rewrite drop_all, Nat.min_id. simpl. rewrite app_nil_r, fmap_replicate.
  by rewrite np_log_one.
Qed.

Lemma get_oos_logprobs_all_shortlist_witness :
  ∃ v',
    compute_probs shortlist_vocabulary example_word_counts true = Ok v'
    ∧ get_oos_logprobs v'
      = Ok (replicate (num_words shortlist_vocabulary) (XFinite 0)).
Proof.
  destruct (compute_probs shortlist_vocabulary example_word_counts true)
    as [v'|e] eqn:Hv; [|by vm_compute in Hv].
  exists v'. split; [done|].
  apply (get_oos_logprobs_all_shortlist shortlist_vocabulary
           example_word_counts true v' Hv).
  reflexivity.
Defined.

(** ** The classes after [compute_probs] *)

(** The class-membership probabilities that [compute_probs] sets, for word
    counts a corpus can produce. *)
Lemma compute_probs_update v word_counts :
  constructed v →
  classes_valid v →
  counts_valid word_counts →
  (sum_Z word_counts.*2 + 3 < 2 ^ 63)%Z →
  ∃ counts v',
    compute_probs v word_counts true = Ok v'
    ∧ Forall2
        (λ cls cls',
           (WordClass.probs cls').*1 = (WordClass.probs cls).*1
           ∧ ∀ j, j ∈ (WordClass.probs cls).*1 →
               WordClass.get_prob cls' j
               = Ok (if decide (class_total counts cls = 0%Z)
                     then (1 / Qc_of_nat (WordClass.len cls))%Qc
                     else (Qc_of_Z (count_at counts j)
                           / Qc_of_Z (class_total counts cls))%Qc))
        (_word_classes v) (_word_classes v').
Proof.
  intros Hv Hclasses Hvalid Hroom.
  pose proof (constructed_word_to_id v Hv) as [Hmap _].
  destruct (count_words_valid v word_counts Hmap Hvalid)
    as (counts0 & Hc & Hlen & _ & Hnn & Hle).
  assert (∀ token, token ∈ special_tokens →
            ∃ i, word_to_id v !! token = Some i ∧ i < length counts0)
    as Hspecial.
  { intros token Htoken.
    destruct (constructed_special_id v token Hv Htoken) as (i & Hi & Hw).
    exists i. split; [done|]. apply lookup_lt_Some in Hw.
    unfold num_words in Hlen. lia. }
  destruct (Hspecial "<s>") as (sos_id & Hsos & Hs);
    [unfold special_tokens; set_solver|].
  destruct (Hspecial "</s>") as (eos_id & Heos & He);
    [unfold special_tokens; set_solver|].
  destruct (Hspecial "<unk>") as (unk_id & Hunk & Hu);
    [unfold special_tokens; set_solver|].
  destruct (special_counts_spec v counts0 sos_id eos_id unk_id)
    as (Hraise & Hnn' & Hsum'); [done..|].
  set (counts := raised [sos_id; eos_id; unk_id] counts0) in *.
  destruct (mapM_Forall2 (update_class counts)
    (λ cls cls',
       (WordClass.probs cls').*1 = (WordClass.probs cls).*1
       ∧ ∀ j, j ∈ (WordClass.probs cls).*1 →
           WordClass.get_prob cls' j
           = Ok (if decide (class_total counts cls = 0%Z)
                 then (1 / Qc_of_nat (WordClass.len cls))%Qc
                 else (Qc_of_Z (count_at counts j)
                       / Qc_of_Z (class_total counts cls))%Qc))
    (_word_classes v)) as (classes' & Hupd & Hall).
  { eapply Forall_impl; [exact Hclasses|]. intros cls (Hne & Hnd & Hids).
    apply update_class_spec; [done..| |done|lia].
    eapply Forall_impl; [exact Hids|]. intros j Hj. simpl in Hj.
    unfold counts, raised. rewrite length_imap. lia. }
  exists counts. eexists. split.
  - unfold compute_probs. rewrite Hc. simpl.
    unfold special_counts in *. simpl. rewrite Hraise. simpl.
    fold counts. rewrite Hupd. done.
  - exact Hall.
Qed.

Lemma assoc_values l (q : nat → Qc) :
  NoDup l.*1 →
  (∀ j, j ∈ l.*1 → WordClass.assoc_get l j = Some (q j)) →
  l.*2 = q <$> l.*1.
Proof.
  induction l as [|[w p] l IH]; [done|].
  rewrite !fmap_cons. cbn [fst snd]. intros [Hw Hnd]%NoDup_cons Hget.
  f_equal.
  - specialize (Hget w). cbn [WordClass.assoc_get] in Hget.
    rewrite decide_True in Hget by done.
    assert (Some p = Some (q w)) as [= ->]; [apply Hget; by left|done].
  - apply IH; [done|]. intros j Hj. specialize (Hget j).
    cbn [WordClass.assoc_get] in Hget.
    rewrite decide_False in Hget by (by intros ->).
    apply Hget. by right.
Qed.

Lemma updated_class_total counts cls cls' :
  WordClass.probs cls ≠ [] →
  NoDup (WordClass.probs cls).*1 →
  (WordClass.probs cls').*1 = (WordClass.probs cls).*1 →
  (∀ j, j ∈ (WordClass.probs cls).*1 →
     WordClass.get_prob cls' j
     = Ok (if decide (class_total counts cls = 0%Z)
           then (1 / Qc_of_nat (WordClass.len cls))%Qc
           else (Qc_of_Z (count_at counts j)
                 / Qc_of_Z (class_total counts cls))%Qc)) →
  WordClass.total cls' = 1%Qc.
Proof.
  intros Hne Hnd Hids Hget. unfold WordClass.total.
  set (q := λ j, if decide (class_total counts cls = 0%Z)
                 then (1 / Qc_of_nat (WordClass.len cls))%Qc
                 else (Qc_of_Z (count_at counts j)
                       / Qc_of_Z (class_total counts cls))%Qc).
  rewrite (assoc_values _ q).
  - rewrite Hids. unfold q. case_decide as Hzero.
    + rewrite sum_Qc_const, length_fmap. unfold WordClass.len.
      unfold Qcdiv. rewrite Qcmult_1_l. apply Qcmult_inv_r.
      unfold Qc_of_nat. rewrite <-Z2Qc_inj_0. intros Heq%Z2Qc_inj.
      destruct (WordClass.probs cls); [done|]. simpl in Heq. lia.
    + replace (_ <$> (WordClass.probs cls).*1)
        with ((λ c, (Qc_of_Z c / Qc_of_Z (class_total counts cls))%Qc)
              <$> (count_at counts <$> (WordClass.probs cls).*1))
        by (by rewrite <-list_fmap_compose).
      rewrite sum_Qc_div. fold (class_total counts cls).
      unfold Qcdiv. apply Qcmult_inv_r.
      rewrite <-Z2Qc_inj_0. by intros Heq%Z2Qc_inj.
  - by rewrite Hids.
  - rewrite Hids. intros j Hj. specialize (Hget j Hj).
    unfold WordClass.get_prob in Hget. fold (q j) in Hget.
    destruct (WordClass.assoc_get (WordClass.probs cls') j); [|done].
    by injection Hget as ->.
Qed.

Lemma compute_probs_members v word_counts update v' :
  compute_probs v word_counts update = Ok v' →
  Forall2 (λ cls cls',
             WordClass.id cls' = WordClass.id cls
             ∧ (WordClass.probs cls').*1 = (WordClass.probs cls).*1)
          (_word_classes v) (_word_classes v').
Proof.
  unfold compute_probs. intros H. inv_ok H.
  destruct update; simpl in H.
  - inv_ok H. injection H as <-. simpl.
    apply mapM_Ok_Forall2 in Hstep1.
    eapply Forall2_impl; [exact Hstep1|].
    intros cls cls' Hcls. simpl in Hcls.
    exact (update_class_ids _ _ _ Hcls).
  - injection H as <-. simpl.
    apply Forall2_same_length_lookup. split; [done|].
    intros i cls cls' H1 H2. by assert (cls = cls') as -> by congruence.
Qed.

Lemma compute_probs_wf v word_counts :
  constructed v →
  classes_valid v →
  counts_valid word_counts →
  (sum_Z word_counts.*2 + 3 < 2 ^ 63)%Z →
  ∃ v',
    compute_probs v word_counts true = Ok v'
    ∧ Forall2 (λ cls cls',
                 WordClass.id cls' = WordClass.id cls
                 ∧ (WordClass.probs cls').*1 = (WordClass.probs cls).*1)
              (_word_classes v) (_word_classes v')
    ∧ classes_valid v'
    ∧ classes_normalized v'
    ∧ (classes_consistent v → classes_consistent v').
Proof.
  intros Hv Hvalid Hcounts Hroom.
  destruct (compute_probs_update v word_counts Hv Hvalid Hcounts Hroom)
    as (counts & v' & Hv' & Hall).
  exists v'. split; [done|].
  split; [by eapply compute_probs_members|].
  pose proof (compute_probs_words _ _ _ _ Hv') as (Hitw & Hw2c & _).
  split; [|split].
  - apply Forall_forall. intros cls' [i Hi]%list_elem_of_lookup_1.
    destruct (Forall2_lookup_r _ _ _ _ _ Hall Hi) as (cls & Hcls & Hids & _).
    destruct (proj1 (Forall_forall _ _) Hvalid cls) as (Hne & Hnd & Hlt).
    { by eapply list_elem_of_lookup_2. }
    rewrite Hids. unfold num_words. rewrite Hitw. split; [|done].
    intros Hnil. apply Hne. apply (f_equal (fmap fst)) in Hnil.
    rewrite Hids in Hnil. by destruct (WordClass.probs cls).
  - apply Forall_forall. intros cls' [i Hi]%list_elem_of_lookup_1.
    destruct (Forall2_lookup_r _ _ _ _ _ Hall Hi)
      as (cls & Hcls & Hids & Hget).
    destruct (proj1 (Forall_forall _ _) Hvalid cls) as (Hne & Hnd & _).
    { by eapply list_elem_of_lookup_2. }
    by eapply updated_class_total.
  - intros [Hmember Hclass]. split.
    + intros c cls' j Hcls' Hj. rewrite Hw2c.
      destruct (Forall2_lookup_r _ _ _ _ _ Hall Hcls')
        as (cls & Hcls & Hids & _).
      rewrite Hids in Hj. by eapply Hmember.
    + intros j c Hj. rewrite Hw2c in Hj.
      destruct (Hclass j c Hj) as (cls & Hcls & Hin).
      destruct (Forall2_lookup_l _ _ _ _ _ Hall Hcls)
        as (cls' & Hcls' & Hids & _).
      exists cls'. split; [done|]. by rewrite Hids.
Qed.

(** X25: for word counts a corpus can produce, [compute_probs] leaves the
    classes as well formed as it found them: every class keeps its ID and
    its members, none of them twice, and its membership probabilities sum to
    1 afterwards. *)
Theorem compute_probs_normalized v word_counts :
  constructed v →
  classes_valid v →
  counts_valid word_counts →
  (sum_Z word_counts.*2 + 3 < 2 ^ 63)%Z →
  ∃ v',
    compute_probs v word_counts true = Ok v'
    ∧ Forall2 (λ cls cls',
                 WordClass.id cls' = WordClass.id cls
                 ∧ (WordClass.probs cls').*1 = (WordClass.probs cls).*1)
              (_word_classes v) (_word_classes v')
    ∧ classes_valid v'
    ∧ classes_normalized v'
    ∧ (classes_consistent v → classes_consistent v').
Proof. apply compute_probs_wf. Qed.

Lemma compute_probs_normalized_witness :
  ∃ v',
    compute_probs example_vocabulary example_word_counts true = Ok v'
    ∧ Forall2 (λ cls cls',
                 WordClass.id cls' = WordClass.id cls
                 ∧ (WordClass.probs cls').*1 = (WordClass.probs cls).*1)
              (_word_classes example_vocabulary) (_word_classes v')
    ∧ classes_valid v'
    ∧ classes_normalized v'
    ∧ (classes_consistent example_vocabulary → classes_consistent v').
Proof.
  apply (compute_probs_normalized example_vocabulary example_word_counts).
  - apply (constructed_init ["the"; "<x>"; "dog"] [0; 1; 0] example_classes
                            (Some ["cat"; "dog"])).
    apply (bool_decide_unpack _). vm_compute. reflexivity.
  - apply (bool_decide_unpack _). vm_compute. reflexivity.
  - split; [|split].
    + apply (bool_decide_unpack _). vm_compute. reflexivity.
    + unfold example_word_counts. repeat constructor; simpl; lia.
    + vm_compute. reflexivity.
  - vm_compute. reflexivity.
Defined.

(** ** Saving a vocabulary *)

(** X26: a file into which [get_state] has saved a vocabulary cannot take a
    second one: the next call of [get_state] on it raises [KeyError],
    because it assigns to datasets under the root of the file, where there
    are none. *)
Theorem get_state_twice_fails v v' state :
  get_state v fresh_store = Ok state →
  get_state v' state = Raise KeyError.
Proof.
  intros (probs & _ & ->)%get_state_fresh.
  reflexivity.
Qed.

Lemma get_state_twice_fails_witness :
  ∃ state,
    get_state shortlist_vocabulary fresh_store = Ok state
    ∧ get_state example_vocabulary state = Raise KeyError.
Proof.
  destruct (get_state shortlist_vocabulary fresh_store) as [state|e] eqn:Hs;
    [|by vm_compute in Hs].
  exists state. split; [done|].
  apply (get_state_twice_fails shortlist_vocabulary example_vocabulary state Hs).
Defined.

(** X27: into an empty file [get_state] writes the group [vocabulary] and
    nothing else: the words, the class IDs of the shortlist words, for each
    shortlist word the probability that [get_word_prob] gives, and the
    unigram probabilities if there are any. *)
Theorem get_state_contents v :
  classes_valid v → classes_consistent v →
  ∃ probs,
    get_state v fresh_store
    = Ok {| h5_root := h5_empty;
            h5_vocabulary :=
              Some {| h5_words := Some (id_to_word v);
                      h5_classes := Some (word_id_to_class_id v);
                      h5_probs := Some probs;
                      h5_unigram_probs := _unigram_probs v |} |}
    ∧ length probs = num_shortlist_words v
    ∧ ∀ j p, probs !! j = Some p → get_word_prob v j = Ok p.
Proof.
  intros Hvalid Hcons.
  destruct (get_state_probs v Hvalid Hcons) as (probs & Hprobs & Hlen & Hget).
  exists probs. split; [|split; [done|]].
  - unfold get_state, fresh_store. simpl. rewrite Hprobs. simpl.
    by destruct (_unigram_probs v).
  - intros j p Hp. by destruct (Hget j p Hp).
Qed.

Lemma get_state_contents_witness :
  ∃ probs,
    get_state example_vocabulary fresh_store
    = Ok {| h5_root := h5_empty;
            h5_vocabulary :=
              Some {| h5_words := Some (id_to_word example_vocabulary);
                      h5_classes :=
                        Some (word_id_to_class_id example_vocabulary);
                      h5_probs := Some probs;
                      h5_unigram_probs := _unigram_probs example_vocabulary |} |}
    ∧ length probs = num_shortlist_words example_vocabulary
    ∧ ∀ j p, probs !! j = Some p → get_word_prob example_vocabulary j = Ok p.
Proof.
  apply (get_state_contents example_vocabulary).
  - apply (bool_decide_unpack _). vm_compute. reflexivity.
  - apply example_vocabulary_consistent.
Defined.

(** ** From the counts to the file and back *)




(** ** Witnesses of the round trips *)


